(** * Solar system visualisation: a shallow embedding of [src/App.jsx]

    The component keeps two pieces of React state ([speeds], [isPaused]) and
    one effect that builds a three.js scene, registers two window listeners
    and starts a self-rescheduling [animate] callback.  JavaScript numbers are
    IEEE-754 binary64 values, modelled by Rocq's primitive [float]; the
    browser, React and three.js services the component calls are collected in
    the [Host] interface. *)

From Stdlib Require Import Floats ZArith QArith Qabs Qpower Lqa Ascii Sorted.
From stdpp Require Import gmap strings list.

(* Decimal literals denote the nearest binary64 value, as they do in JS. *)
Set Warnings "-inexact-float".

(** ** JavaScript numbers *)

Module JS.

Abbreviation number := float (only parsing).

(** [Math.PI] is the binary64 value nearest to pi. *)
Definition Math_PI : number := 3.141592653589793%float.

(** [a += v] where [v] was read from an object property: a missing
    property reads as [undefined] and [number + undefined] is [NaN]. *)
Definition add_prop (a : number) (v : option number) : number :=
  match v with
  | Some s => (a + s)%float
  | None => nan
  end.

(** The number a frame counter denotes (exact below 2^53). *)
Definition of_nat (n : nat) : number :=
  PrimFloat.of_uint63 (Uint63.of_Z (Z.of_nat n)).

(** [a += s] performed [n] times: each addition rounds to binary64. *)
Fixpoint accumulate (n : nat) (a s : number) : number :=
  match n with
  | O => a
  | S n' => (accumulate n' a s + s)%float
  end.

(** The strict equality [===] on numbers. *)
Definition strict_eq (a b : number) : bool := (a =? b)%float.

(** What an element of a [Float32Array] holds after a number is stored in
    it: the binary32 number nearest to it, ties to even, read back as a
    number. *)
Definition fround (x : number) : number :=
  match Prim2SF x with
  | S754_finite s m e => SF2Prim (binary_round 24 128 s m e)
  | _ => x
  end.

(** The rational number a binary64 value stands for; zeros, infinities and NaN
    count as 0. *)
Definition SF2Q (x : spec_float) : Q :=
  match x with
  | S754_finite s m e => (if s then -1 else 1) * inject_Z (Z.pos m) * 2 ^ e
  | _ => 0
  end%Q.

Definition value (x : number) : Q := SF2Q (Prim2SF x).

End JS.

(** ** The three.js values the component touches *)

Module THREE.

Record Vector2 := mkVector2 { vx : float; vy : float }.

Record Vector3 := mkVector3 { x : float; y : float; z : float }.

(** [new THREE.Vector3()] : every [Object3D] starts at the origin. *)
Definition origin : Vector3 := mkVector3 0 0 0.

(** A mesh: its object identity, the sphere radius and material colour it
    was built with, and its mutable position. *)
Record Mesh := mkMesh {
  id : nat;
  radius : float;
  material_color : Z;
  position : Vector3;
}.

Record Camera := mkCamera {
  fov : float;
  aspect : float;
  near : float;
  far : float;
  camera_position : Vector3;
}.

(** One entry of the array [Raycaster.intersectObjects] returns. *)
Record Intersection := mkIntersection {
  distance : float;
  object : Mesh;
}.

End THREE.

(** ** The host interface: [Math], [parseFloat], the raycaster, the controls *)

Class Host := {
  Math_cos : float -> float;
  Math_sin : float -> float;
  (** [Math_random n] is what the [n]-th call of [Math.random()] returns. *)
  Math_random : N -> float;
  parseFloat : string -> float;
  (** [raycaster.setFromCamera(mouse, camera)] followed by
      [raycaster.intersectObjects(objects)]. *)
  intersectObjects :
    THREE.Vector2 -> THREE.Camera -> list THREE.Mesh -> list THREE.Intersection;
  (** [controls.update()] of the [OrbitControls] bound to the camera. *)
  controls_update : THREE.Camera -> THREE.Camera;
}.

(** ** Planet descriptors (lines 6-15) *)

Record PlanetData := mkPlanetData {
  name : string;
  color : Z;
  size : float;
  distance : float;
  speed : float;
}.

Definition planetsData : list PlanetData := [
  mkPlanetData "Mercury" 0xaaaaaa 0.3 4 0.04;
  mkPlanetData "Venus" 0xffaa00 0.5 6 0.015;
  mkPlanetData "Earth" 0x3399ff 0.6 8 0.01;
  mkPlanetData "Mars" 0xff3300 0.5 10 0.008;
  mkPlanetData "Jupiter" 0xffcc99 1.1 13 0.004;
  mkPlanetData "Saturn" 0xffff99 1.0 16 0.003;
  mkPlanetData "Uranus" 0x99ffff 0.8 19 0.002;
  mkPlanetData "Neptune" 0x4444ff 0.8 22 0.0015
]%float.

(** The runtime record [{ ...data, angle }]: the descriptor's fields, which
    are never written again, and the mutable orbital angle. *)
Record PlanetState := mkPlanetState {
  descriptor : PlanetData;
  angle : float;
}.

(** One element of the [planets] array: [{ mesh, data }]. *)
Record Planet := mkPlanet {
  mesh : THREE.Mesh;
  data : PlanetState;
}.

(** ** The closure of one run of the effect (lines 26-140)

    Everything the effect body declares with [const] and that [animate],
    [onMouseMove], [handleResize] and the cleanup capture: the [speeds] object
    and the [isPaused] value of the render that ran the effect, the camera,
    the renderer, the scene and the [planets] array. *)

Record Closure := mkClosure {
  env_speeds : nat;                  (* reference to the captured [speeds] object *)
  env_isPaused : bool;               (* the captured [isPaused] *)
  camera : THREE.Camera;
  renderer_size : float * float;     (* [renderer.setSize(w, h)] *)
  scene_children : list nat;         (* identities of the objects added to the scene *)
  light : THREE.Vector3;             (* [light.position] *)
  sun : THREE.Mesh;
  stars_from : N;                    (* the first of the draws that filled [starPositions] *)
  planets : list Planet;
  mouse : THREE.Vector2;
  rendered : nat;                    (* calls of [renderer.render] so far *)
}.

(** Object identities inside one scene, in creation order. *)
Definition light_id : nat := 0.
Definition sun_id : nat := 1.
Definition starField_id : nat := 2.
Definition first_planet_id : nat := 3.

Definition starCount : nat := Eval vm_compute in N.to_nat 10000.

Section Scene.

Context `{Host}.

(** *** Scene construction (lines 56-82) *)

(** The loop of lines 60-66: three draws per star. *)
Fixpoint starPositions_from (count : nat) (draws : N) : list float :=
  match count with
  | O => []
  | S count' =>
      ((Math_random draws - 0.5) * 2000)%float
      :: ((Math_random (draws + 1) - 0.5) * 2000)%float
      :: ((Math_random (draws + 2) - 0.5) * 2000)%float
      :: starPositions_from count' (draws + 3)
  end.

(** The array [starPositions] of a closure, as the loop leaves it. *)
Definition starPositions (c : Closure) : list float :=
  starPositions_from starCount (stars_from c).

(** The [position] attribute of [starsGeometry] (lines 67-70):
    [new THREE.Float32BufferAttribute(starPositions, 3)] copies the array
    into a [Float32Array]. *)
Definition starsGeometry_position (c : Closure) : list float :=
  JS.fround <$> starPositions c.

(** One callback of [planetsData.map] (lines 76-82): a mesh at the origin
    and an angle drawn with [Math.random() * Math.PI * 2]. *)
Definition make_planet (d : PlanetData) (mesh_id : nat) (draws : N) : Planet :=
  {| mesh := THREE.mkMesh mesh_id (size d) (color d) THREE.origin;
     data := {| descriptor := d;
                angle := (Math_random draws * JS.Math_PI * 2)%float |} |}.

Fixpoint make_planets (ds : list PlanetData) (mesh_id : nat) (draws : N)
  : list Planet :=
  match ds with
  | [] => []
  | d :: ds' => make_planet d mesh_id draws :: make_planets ds' (S mesh_id) (draws + 1)
  end.

(** *** The per-frame update (lines 114-120) *)

(** The body of [planets.forEach] for one planet. *)
Definition advance (speeds : gmap string float) (p : Planet) : Planet :=
  let d := descriptor (data p) in
  let a := JS.add_prop (angle (data p)) (speeds !! name d) in
  let pos := THREE.position (mesh p) in
  {| mesh := THREE.mkMesh (THREE.id (mesh p)) (THREE.radius (mesh p))
               (THREE.material_color (mesh p))
               (THREE.mkVector3 (Math_cos a * distance d)%float
                                (THREE.y pos)
                                (Math_sin a * distance d)%float);
     data := {| descriptor := d; angle := a |} |}.

(** What one invocation of [animate] does to the [planets] array. *)
Definition animate_planets (isPaused : bool) (speeds : gmap string float)
    (ps : list Planet) : list Planet :=
  if negb isPaused then advance speeds <$> ps else ps.

End Scene.

(** ** The page: React state, refs, DOM, window listeners, frame requests *)

Inductive EventType := mousemove | resize.

(** A registered listener is a function value: which closure it belongs to
    and which of its two handlers it is. *)
Inductive Callback :=
  | cb_onMouseMove (i : nat)
  | cb_handleResize (i : nat).

#[global] Instance EventType_eq_dec : EqDecision EventType.
Proof. solve_decision. Defined.

#[global] Instance Callback_eq_dec : EqDecision Callback.
Proof. solve_decision. Defined.

Inductive Display := display_block | display_none.

(** A CSS length written as [number + "px"]. *)
Inductive CssLength := px (v : float).

(** The tooltip [div]: the three inline style properties and the text the
    component writes; [None] is a property no handler has written yet. *)
Record Tooltip := mkTooltip {
  style_left : option CssLength;
  style_top : option CssLength;
  innerHTML : string;
  style_display : option Display;
}.

Record MouseEvent := mkMouseEvent { clientX : float; clientY : float }.

Record World := mkWorld {
  speeds : nat;                        (* state: reference to the current [speeds] object *)
  isPaused : bool;                     (* state *)
  heap : list (gmap string float);     (* every [speeds] object allocated so far *)
  mountRef_current : bool;             (* is [mountRef.current] the mount [div]? *)
  tooltipRef_current : bool;           (* is [tooltipRef.current] the tooltip [div]? *)
  mount_children : list nat;           (* canvases under the mount [div], by closure *)
  tooltip : Tooltip;
  listeners : list (EventType * Callback);   (* listeners registered on [window] *)
  frame_requests : list nat;           (* closures whose [animate] is requested *)
  closures : list Closure;
  effect_closure : option nat;         (* the closure whose cleanup React holds *)
  draws : N;                           (* calls of [Math.random()] so far *)
  innerWidth : float;
  innerHeight : float;
}.

Definition set_state (r : nat) (b : bool) (h : list (gmap string float)) (w : World) : World :=
  mkWorld r b h (mountRef_current w) (tooltipRef_current w) (mount_children w)
    (tooltip w) (listeners w) (frame_requests w) (closures w) (effect_closure w)
    (draws w) (innerWidth w) (innerHeight w).

Definition set_refs (m t : bool) (w : World) : World :=
  mkWorld (speeds w) (isPaused w) (heap w) m t (mount_children w)
    (tooltip w) (listeners w) (frame_requests w) (closures w) (effect_closure w)
    (draws w) (innerWidth w) (innerHeight w).

Definition set_mount_children (l : list nat) (w : World) : World :=
  mkWorld (speeds w) (isPaused w) (heap w) (mountRef_current w) (tooltipRef_current w) l
    (tooltip w) (listeners w) (frame_requests w) (closures w) (effect_closure w)
    (draws w) (innerWidth w) (innerHeight w).

Definition set_tooltip (t : Tooltip) (w : World) : World :=
  mkWorld (speeds w) (isPaused w) (heap w) (mountRef_current w) (tooltipRef_current w)
    (mount_children w) t (listeners w) (frame_requests w) (closures w) (effect_closure w)
    (draws w) (innerWidth w) (innerHeight w).

Definition set_listeners (l : list (EventType * Callback)) (w : World) : World :=
  mkWorld (speeds w) (isPaused w) (heap w) (mountRef_current w) (tooltipRef_current w)
    (mount_children w) (tooltip w) l (frame_requests w) (closures w) (effect_closure w)
    (draws w) (innerWidth w) (innerHeight w).

Definition set_frame_requests (l : list nat) (w : World) : World :=
  mkWorld (speeds w) (isPaused w) (heap w) (mountRef_current w) (tooltipRef_current w)
    (mount_children w) (tooltip w) (listeners w) l (closures w) (effect_closure w)
    (draws w) (innerWidth w) (innerHeight w).

Definition set_closures (l : list Closure) (w : World) : World :=
  mkWorld (speeds w) (isPaused w) (heap w) (mountRef_current w) (tooltipRef_current w)
    (mount_children w) (tooltip w) (listeners w) (frame_requests w) l (effect_closure w)
    (draws w) (innerWidth w) (innerHeight w).

Definition set_effect_closure (o : option nat) (w : World) : World :=
  mkWorld (speeds w) (isPaused w) (heap w) (mountRef_current w) (tooltipRef_current w)
    (mount_children w) (tooltip w) (listeners w) (frame_requests w) (closures w) o
    (draws w) (innerWidth w) (innerHeight w).

Definition set_draws (n : N) (w : World) : World :=
  mkWorld (speeds w) (isPaused w) (heap w) (mountRef_current w) (tooltipRef_current w)
    (mount_children w) (tooltip w) (listeners w) (frame_requests w) (closures w)
    (effect_closure w) n (innerWidth w) (innerHeight w).

Definition set_window_size (iw ih : float) (w : World) : World :=
  mkWorld (speeds w) (isPaused w) (heap w) (mountRef_current w) (tooltipRef_current w)
    (mount_children w) (tooltip w) (listeners w) (frame_requests w) (closures w)
    (effect_closure w) (draws w) iw ih.

(** The object a [speeds] reference denotes. *)
Definition deref (w : World) (r : nat) : gmap string float :=
  default ∅ (heap w !! r).

(** [window.addEventListener]: a listener already registered for the event
    type is not registered twice. *)
Definition addEventListener (t : EventType) (f : Callback) (w : World) : World :=
  if decide ((t, f) ∈ listeners w) then w
  else set_listeners (listeners w ++ [(t, f)]) w.

Definition removeEventListener (t : EventType) (f : Callback) (w : World) : World :=
  set_listeners (filter (λ l, l ≠ (t, f)) (listeners w)) w.

Definition requestAnimationFrame (i : nat) (w : World) : World :=
  set_frame_requests (frame_requests w ++ [i]) w.

(** [Object.fromEntries]: a later entry replaces an earlier one with its key. *)
Definition Object_fromEntries (entries : list (string * float)) : gmap string float :=
  foldl (λ o e, <[e.1 := e.2]> o) ∅ entries.

(** The initializer of the [speeds] state (lines 21-23). *)
Definition initial_speeds : gmap string float :=
  Object_fromEntries ((λ p, (name p, speed p)) <$> planetsData).

(** The elements the component renders: one range input per planet and the
    pause button. *)
Record RangeInput := mkRangeInput {
  range_label : string;
  range_min : string;
  range_max : string;
  range_step : string;
  range_value : option float;          (* [speeds[p.name]] *)
}.

Record View := mkView {
  controls : list RangeInput;
  pauseBtn : string;
}.

(** ** The component (lines 17-175) *)

Section Component.

Context `{Host}.

(** *** [animate] (lines 112-123) *)

(** The frame's work on the closure's own variables: the guarded orbit
    update, [controls.update()], one [renderer.render]. *)
Definition animate_closure (speeds_obj : gmap string float) (c : Closure) : Closure :=
  mkClosure (env_speeds c) (env_isPaused c)
    (controls_update (camera c)) (renderer_size c) (scene_children c) (light c)
    (sun c) (stars_from c)
    (animate_planets (env_isPaused c) speeds_obj (planets c))
    (mouse c) (S (rendered c)).

(** One invocation of the [animate] of closure [i]: it first requests the
    next frame, unconditionally, then does the frame's work. *)
Definition animate (i : nat) (w : World) : World :=
  let w1 := requestAnimationFrame i w in
  match closures w1 !! i with
  | Some c =>
      set_closures (<[i := animate_closure (deref w1 (env_speeds c)) c]> (closures w1)) w1
  | None => w1
  end.

(** *** [onMouseMove] (lines 88-108) *)

(** Lines 89-90: pixel coordinates to normalized device coordinates. *)
Definition normalized (e : MouseEvent) (iw ih : float) : THREE.Vector2 :=
  THREE.mkVector2 ((clientX e / iw) * 2 - 1)%float
                  ((- (clientY e / ih)) * 2 + 1)%float.

(** The array handed to the raycaster: [planets.map((p) => p.mesh)]. *)
Definition pickable (c : Closure) : list THREE.Mesh := mesh <$> planets c.

(** [planets.find((p) => p.mesh === o)]: meshes are compared by identity. *)
Definition find_planet (ps : list Planet) (o : THREE.Mesh) : option Planet :=
  List.find (λ p, Nat.eqb (THREE.id (mesh p)) (THREE.id o)) ps.

(** Lines 95-107: what the handler does to the tooltip. *)
Definition show_tooltip (e : MouseEvent) (ps : list Planet)
    (intersects : list THREE.Intersection) (attached : bool) (t : Tooltip) : Tooltip :=
  match intersects with
  | hit :: _ =>
      match find_planet ps (THREE.object hit) with
      | Some planet =>
          if attached then
            mkTooltip (Some (px (clientX e + 10)%float))
                      (Some (px (clientY e + 10)%float))
                      (name (descriptor (data planet)))
                      (Some display_block)
          else t
      | None => t
      end
  | [] =>
      if attached then
        mkTooltip (style_left t) (style_top t) (innerHTML t) (Some display_none)
      else t
  end.

Definition onMouseMove (i : nat) (e : MouseEvent) (w : World) : World :=
  match closures w !! i with
  | Some c =>
      let m := normalized e (innerWidth w) (innerHeight w) in
      let intersects := intersectObjects m (camera c) (pickable c) in
      let c' := mkClosure (env_speeds c) (env_isPaused c) (camera c) (renderer_size c)
                  (scene_children c) (light c) (sun c) (stars_from c) (planets c) m
                  (rendered c) in
      set_tooltip
        (show_tooltip e (planets c) intersects (tooltipRef_current w) (tooltip w))
        (set_closures (<[i := c']> (closures w)) w)
  | None => w
  end.

(** *** [handleResize] (lines 127-131) *)

Definition handleResize (i : nat) (w : World) : World :=
  match closures w !! i with
  | Some c =>
      let cam := camera c in
      let cam' := THREE.mkCamera (THREE.fov cam) (innerWidth w / innerHeight w)%float
                    (THREE.near cam) (THREE.far cam) (THREE.camera_position cam) in
      let c' := mkClosure (env_speeds c) (env_isPaused c) cam'
                  (innerWidth w, innerHeight w)
                  (scene_children c) (light c) (sun c) (stars_from c) (planets c)
                  (mouse c) (rendered c) in
      set_closures (<[i := c']> (closures w)) w
  | None => w
  end.

(** *** The effect body (lines 27-132) and its cleanup (lines 135-139)

    [None] is an uncaught [TypeError] or [DOMException]: dereferencing a
    detached [mountRef.current], or removing a node that is not a child. *)

Definition build_closure (w : World) : Closure :=
  let first := draws w in
  let planets_from := (first + 3 * N.of_nat starCount)%N in
  mkClosure (speeds w) (isPaused w)
    (THREE.mkCamera 75 (innerWidth w / innerHeight w)%float 0.1 2000
       (THREE.mkVector3 0 0 35))
    (innerWidth w, innerHeight w)
    ([light_id; sun_id; starField_id]
       ++ seq first_planet_id (length planetsData))
    (THREE.mkVector3 0 0 0)
    (THREE.mkMesh sun_id 2 0xffff00 THREE.origin)
    first
    (make_planets planetsData first_planet_id planets_from)
    (THREE.mkVector2 0 0)
    0.

Definition effect (w : World) : option World :=
  if mountRef_current w then
    let i := length (closures w) in
    let c := build_closure w in
    let w1 := set_mount_children (mount_children w ++ [i]) w in
    let w2 := set_draws (draws w + 3 * N.of_nat starCount + N.of_nat (length planetsData))%N w1 in
    let w3 := set_effect_closure (Some i) (set_closures (closures w ++ [c]) w2) in
    let w4 := addEventListener mousemove (cb_onMouseMove i) w3 in
    let w5 := animate i w4 in
    Some (addEventListener resize (cb_handleResize i) w5)
  else None.

(** Lines 136-137, the two statements before [mountRef.current] is read. *)
Definition cleanup_listeners (i : nat) (w : World) : World :=
  let w1 := removeEventListener resize (cb_handleResize i) w in
  removeEventListener mousemove (cb_onMouseMove i) w1.

Definition cleanup (i : nat) (w : World) : option World :=
  let w2 := cleanup_listeners i w in
  if mountRef_current w2 then
    if decide (i ∈ mount_children w2) then
      Some (set_mount_children (filter (λ n, n ≠ i) (mount_children w2)) w2)
    else None
  else None.

(** *** The state updaters (lines 143-145 and 165) *)

(** [setSpeeds((prev) => ({ ...prev, [name]: parseFloat(val) }))]: a new
    object is allocated; [prev] is only read. *)
Definition handleSpeedChange (n : string) (val : string) (w : World) : World :=
  let prev := deref w (speeds w) in
  set_state (length (heap w)) (isPaused w)
    (heap w ++ [<[n := parseFloat val]> prev]) w.

(** [setIsPaused((paused) => !paused)]. *)
Definition togglePause (w : World) : World :=
  set_state (speeds w) (negb (isPaused w)) (heap w) w.

(** *** What the component renders (lines 147-174) *)

Definition render (speeds_obj : gmap string float) (paused : bool) : View :=
  mkView
    ((λ p, mkRangeInput (name p) "0.001" "0.05" "0.001" (speeds_obj !! name p))
       <$> planetsData)
    (if paused then "▶ Resume" else "⏸ Pause").

Definition view (w : World) : View := render (deref w (speeds w)) (isPaused w).

(** *** React's part: when the effect and its cleanup run

    The effect runs after the first render, with both refs attached.  After
    a later render it runs again when a dependency of [[speeds, isPaused]]
    differs from the value the previous run captured, the previous run's
    cleanup first, with the refs still attached.  When the component is
    unmounted, React (17 and later) removes the elements it rendered and
    clears their refs before it runs the last cleanup, so line 138 reads
    [mountRef.current] as [null] and throws after lines 136-137 have run.
    React catches what a cleanup throws, reports it and finishes the
    unmount. *)

Definition deps_changed (c : Closure) (w : World) : bool :=
  negb (Nat.eqb (env_speeds c) (speeds w) && Bool.eqb (env_isPaused c) (isPaused w)).

Definition rerender (w : World) : option World :=
  match effect_closure w with
  | Some i =>
      match closures w !! i with
      | Some c => if deps_changed c w then cleanup i w ≫= effect else Some w
      | None => Some w
      end
  | None => Some w
  end.

Definition mount (w : World) : option World :=
  effect (set_refs true true w).

(** The page a run of the cleanup leaves: the one it returns, or, when line
    138 throws, the one its first two statements made. *)
Definition after_cleanup (i : nat) (w : World) : World :=
  default (cleanup_listeners i w) (cleanup i w).

Definition unmount (w : World) : option World :=
  match effect_closure w with
  | Some i =>
      let w1 := set_refs false false w in
      Some (set_effect_closure None (after_cleanup i w1))
  | None => Some w
  end.

(** The browser's frame: every [animate] requested before the frame runs
    once; what they request is for the next frame. *)
Definition animationFrame (w : World) : World :=
  foldl (λ w' i, animate i w') (set_frame_requests [] w) (frame_requests w).

(** Dispatch of a [window] event to the listeners registered for it. *)
Definition dispatch_mousemove (e : MouseEvent) (w : World) : World :=
  foldl (λ w' l, match l with
                 | (mousemove, cb_onMouseMove i) => onMouseMove i e w'
                 | _ => w'
                 end) w (listeners w).

Definition dispatch_resize (w : World) : World :=
  foldl (λ w' l, match l with
                 | (resize, cb_handleResize i) => handleResize i w'
                 | _ => w'
                 end) w (listeners w).

Inductive Event :=
  | AnimationFrame
  | MouseMove (e : MouseEvent)
  | Resize (iw ih : float)
  | SliderChange (planet : string) (val : string)
  | PauseClick
  | Unmount.

(** The controls exist only while the component is mounted. *)
Definition step (w : World) (e : Event) : option World :=
  match e with
  | AnimationFrame => Some (animationFrame w)
  | MouseMove ev => Some (dispatch_mousemove ev w)
  | Resize iw ih => Some (dispatch_resize (set_window_size iw ih w))
  | SliderChange planet val =>
      match effect_closure w with
      | Some _ => rerender (handleSpeedChange planet val w)
      | None => Some w
      end
  | PauseClick =>
      match effect_closure w with
      | Some _ => rerender (togglePause w)
      | None => Some w
      end
  | Unmount => unmount w
  end.

Fixpoint run (w : World) (es : list Event) : option World :=
  match es with
  | [] => Some w
  | e :: es' => step w e ≫= λ w', run w' es'
  end.

End Component.

(** The page before the component is mounted, in a window of the given size. *)
Definition start (iw ih : float) : World :=
  mkWorld 0 false [initial_speeds] false false [] (mkTooltip None None "" None)
    [] [] [] None 0 iw ih.

(** The runs of the effect a session makes after the mount: one per click on
    the pause button and per slider change, until the unmount. *)
Fixpoint rebuilds (es : list Event) : nat :=
  match es with
  | [] => 0
  | PauseClick :: es' => S (rebuilds es')
  | SliderChange _ _ :: es' => S (rebuilds es')
  | Unmount :: _ => 0
  | _ :: es' => rebuilds es'
  end.

(** ** What holds of every page the component can reach *)

Section Invariant.

Context `{Host}.

(** A planet on its orbit: the position is the one [animate] computes from
    the planet's current angle, at height 0. *)
Definition on_orbit (p : Planet) : Prop :=
  THREE.position (mesh p)
  = THREE.mkVector3
      (Math_cos (angle (data p)) * distance (descriptor (data p)))%float
      0
      (Math_sin (angle (data p)) * distance (descriptor (data p)))%float.

(** The scene of a closure holds the eight planets of [planetsData], in order,
    each with a mesh identity of its own, and the sun and the light at the
    origin. *)
Definition scene_ok (c : Closure) : Prop :=
  descriptor ∘ data <$> planets c = planetsData
  ∧ THREE.id ∘ mesh <$> planets c = seq first_planet_id (length planetsData)
  ∧ (sun c = THREE.mkMesh sun_id 2 0xffff00 THREE.origin ∧ light c = THREE.origin)
  ∧ Forall (λ p, THREE.y (THREE.position (mesh p)) = 0%float) (planets c).

Definition closure_ok (c : Closure) : Prop :=
  scene_ok c ∧ (env_isPaused c = false → Forall on_orbit (planets c)).

(** While mounted, React holds the cleanup of the one closure that captured
    the current state, and that closure owns the only canvas and the only
    two listeners.  Once unmounted, the refs are cleared and no listener is
    left. *)
Definition mounted_ok (w : World) : Prop :=
  match effect_closure w with
  | Some i =>
      mountRef_current w = true
      ∧ tooltipRef_current w = true
      ∧ mount_children w = [i]
      ∧ listeners w = [(mousemove, cb_onMouseMove i); (resize, cb_handleResize i)]
      ∧ ∃ c, closures w !! i = Some c
             ∧ env_speeds c = speeds w ∧ env_isPaused c = isPaused w
  | None =>
      mountRef_current w = false ∧ tooltipRef_current w = false ∧ listeners w = []
  end.

Definition page_ok (w : World) : Prop :=
  Forall closure_ok (closures w) ∧ mounted_ok w ∧ speeds w < length (heap w).

(** Between frames, the [animate] of every closure ever built is requested,
    once. *)
Definition frames_requested (w : World) : Prop :=
  frame_requests w = seq 0 (length (closures w)).

(** The pages reached from a fresh mount by a sequence of events. *)
Definition reachable (w : World) : Prop :=
  ∃ iw ih es, mount (start iw ih) ≫= (λ w0, run w0 es) = Some w.

(** What no frame and no handler changes in a closure: the captured state,
    the objects of the scene, the draws of the star field, and of each
    planet the descriptor and the mesh as it was constructed. *)
Definition planet_static (p : Planet) : PlanetData * nat * float * Z :=
  (descriptor (data p), THREE.id (mesh p), THREE.radius (mesh p),
   THREE.material_color (mesh p)).

Definition same_scene (c c' : Closure) : Prop :=
  env_speeds c' = env_speeds c
  ∧ env_isPaused c' = env_isPaused c
  ∧ scene_children c' = scene_children c
  ∧ light c' = light c
  ∧ sun c' = sun c
  ∧ stars_from c' = stars_from c
  ∧ planet_static <$> planets c' = planet_static <$> planets c.

(** The calls of [Math.random()] one run of the effect makes. *)
Definition scene_draws : N :=
  (3 * N.of_nat starCount + N.of_nat (length planetsData))%N.

(** The closure React holds is the one built last; the draws consumed are
    those of the scenes built; each closure captured an allocated [speeds]
    object and added its eleven objects to its scene; every [speeds] object
    has an entry for every planet; the mount [div] has one child, the canvas
    of the closure built last. *)
Definition scenes_inv (w : World) : Prop :=
  (∀ i, effect_closure w = Some i → S i = length (closures w))
  ∧ draws w = (N.of_nat (length (closures w)) * scene_draws)%N
  ∧ (∀ j c, closures w !! j = Some c →
       stars_from c = (N.of_nat j * scene_draws)%N
       ∧ env_speeds c < length (heap w)
       ∧ scene_children c
         = [light_id; sun_id; starField_id] ++ seq first_planet_id (length planetsData))
  ∧ Forall (λ so : gmap string float,
              Forall (λ p, is_Some (so !! name p)) planetsData) (heap w)
  ∧ ∃ i, S i = length (closures w) ∧ mount_children w = [i].

End Invariant.

(** ** A host to run the component on

    Truncated series for [Math.cos] and [Math.sin], a fixed periodic
    sequence for [Math.random], a decimal reader for [parseFloat], a
    raycaster that looks straight down the z axis, and controls at rest. *)

Module Mock.

Definition cos (a : float) : float :=
  let a2 := (a * a)%float in
  (1 - a2 / 2 + a2 * a2 / 24 - a2 * a2 * a2 / 720)%float.

Definition sin (a : float) : float :=
  let a2 := (a * a)%float in
  (a - a * a2 / 6 + a * a2 * a2 / 120 - a * a2 * a2 * a2 / 5040)%float.

(** The [n]-th draw is [(n mod 48) / 64]. *)
Definition random (n : N) : float :=
  (PrimFloat.of_uint63 (Uint63.of_Z (Z.of_N (n mod 48))) / 64)%float.

Definition digit (c : Ascii.ascii) : option Z :=
  let n := Z.of_N (Ascii.N_of_ascii c) in
  if ((48 <=? n) && (n <=? 57))%Z then Some (n - 48)%Z else None.

(** Reads [digits.digits]: the mantissa and the number of decimals. *)
Fixpoint read (s : string) (seen_dot : bool) (m : Z) (decimals : nat)
  : option (Z * nat) :=
  match s with
  | EmptyString => Some (m, decimals)
  | String c s' =>
      if Ascii.eqb c "."%char then
        if seen_dot then None else read s' true m decimals
      else
        match digit c with
        | Some d => read s' seen_dot (10 * m + d)%Z
                      (if seen_dot then S decimals else decimals)
        | None => None
        end
  end.

Definition parse (s : string) : float :=
  match read s false 0%Z 0 with
  | Some (m, k) =>
      (PrimFloat.of_uint63 (Uint63.of_Z m)
       / PrimFloat.of_uint63 (Uint63.of_Z (10 ^ Z.of_nat k)))%float
  | None => nan
  end.

(** A mesh is hit when the pointer, scaled to the scene, lies within its
    radius of the mesh's (x, y); hits are ordered by the distance from the
    camera plane z = 35. *)
Definition hit (m : THREE.Vector2) (o : THREE.Mesh) : bool :=
  let dx := (THREE.vx m * 25 - THREE.x (THREE.position o))%float in
  let dy := (THREE.vy m * 25 - THREE.y (THREE.position o))%float in
  (dx * dx + dy * dy <=? THREE.radius o * THREE.radius o)%float.

Fixpoint insert_hit (h : THREE.Intersection) (l : list THREE.Intersection)
  : list THREE.Intersection :=
  match l with
  | [] => [h]
  | h' :: l' =>
      if (THREE.distance h <=? THREE.distance h')%float then h :: l
      else h' :: insert_hit h l'
  end.

Definition intersect (m : THREE.Vector2) (_ : THREE.Camera) (os : list THREE.Mesh)
  : list THREE.Intersection :=
  foldr insert_hit []
    ((λ o, THREE.mkIntersection (35 - THREE.z (THREE.position o))%float o)
       <$> filter (λ o, hit m o = true) os).

#[export] Instance host : Host :=
  {| Math_cos := cos; Math_sin := sin; Math_random := random;
     parseFloat := parse; intersectObjects := intersect;
     controls_update := λ c, c |}.

End Mock.

(** ** A session to evaluate: a 1280 by 720 window on the [Mock] host *)

Module Demo.

Import Mock.

Definition page : World := start 1280 720.

(** The closure the first run of the effect builds, before its first frame. *)
Definition built : Closure := build_closure (set_refs true true page).

Definition mercury : PlanetData := mkPlanetData "Mercury" 0xaaaaaa 0.3 4 0.04.

(** Mercury as built: the draw it receives on this host is 0. *)
Definition mercury0 : Planet := make_planet mercury first_planet_id 30000.

(** The page after the events [es] that follow the mount. *)
Definition session (es : list Event) : World :=
  default page (mount page ≫= λ w, run w es).

(** The session does not throw: its page is the one the events lead to. *)
Definition reachable_by (es : list Event) : Prop :=
  mount page ≫= (λ w, run w es) = Some (session es).

Definition mounted : World := session [].

Definition paused : World := session [PauseClick].

(** The page about to run the effect after [n] earlier draws. *)
Definition after_draws (n : N) : World := set_draws n (set_refs true true page).

(** [n] animation frames later. *)
Definition later (n : nat) (w : World) : World := Nat.iter n animationFrame w.

(** Closure [i] of a page. *)
Definition closure (i : nat) (w : World) : Closure := default built (closures w !! i).

(** Planet [k] of closure [i] of a page. *)
Definition planet (k i : nat) (w : World) : Planet :=
  default mercury0 (planets (closure i w) !! k).

End Demo.

(** ** Distance from the orbit *)

(** The host's cosine and sine of an angle lie within [δ] of the unit circle. *)
Definition unit_within (δ : Q) (c s : float) : Prop :=
  (abs c <=? 1)%float = true ∧ (abs s <=? 1)%float = true
  ∧ (Qabs (JS.value c * JS.value c + JS.value s * JS.value s - 1) <= δ)%Q.

(** [x * x + z * z - distance * distance] of a planet, on the exact values of
    the three binary64 numbers. *)
Definition off_orbit (p : Planet) : Q :=
  let x := JS.value (THREE.x (THREE.position (mesh p))) in
  let z := JS.value (THREE.z (THREE.position (mesh p))) in
  let d := JS.value (distance (descriptor (data p))) in
  (x * x + z * z - d * d)%Q.

(** ** A host with the correctly rounded cosine and sine at one angle *)

Module Rounded.

(** At the binary64 number 0.16 the host returns the binary64 numbers nearest
    to its cosine and its sine, as [Math.cos] and [Math.sin] do; elsewhere it
    is the [Mock] host. *)
Definition cos (a : float) : float :=
  if (a =? 0.16)%float then 0.9872272833756269%float else Mock.cos a.

Definition sin (a : float) : float :=
  if (a =? 0.16)%float then 0.15931820661424598%float else Mock.sin a.

Definition host : Host :=
  {| Math_cos := cos; Math_sin := sin; Math_random := Mock.random;
     parseFloat := Mock.parse; intersectObjects := Mock.intersect;
     controls_update := λ c, c |}.

(** The page after the events [es] that follow the mount, on this host. *)
Definition session (es : list Event) : World :=
  default Demo.page (@mount host Demo.page ≫= λ w, @run host w es).

(** Three frames after the mount: Mercury, drawn at angle 0, has advanced four
    times by its speed 0.04. *)
Definition frames3 : World :=
  session [AnimationFrame; AnimationFrame; AnimationFrame].

Definition mercury : Planet := Demo.planet 0 0 frames3.

End Rounded.

(** ** Rounding to binary64 *)

(** [mrs] is [m] shifted right by [k] bits: the quotient, and the round and
    sticky bits that tell where the remainder lies in its interval. *)
Definition shifted (m k : Z) (mrs : shr_record) : Prop :=
  (0 ≤ shr_m mrs
   ∧ 0 ≤ m - shr_m mrs * 2 ^ k < 2 ^ k
   ∧ (shr_r mrs = true → 2 ^ k ≤ 2 * (m - shr_m mrs * 2 ^ k))
   ∧ (shr_r mrs = false → 2 * (m - shr_m mrs * 2 ^ k) < 2 ^ k)
   ∧ (shr_s mrs = false → shr_r mrs = false → m - shr_m mrs * 2 ^ k = 0)
   ∧ (shr_s mrs = false → shr_r mrs = true → 2 * (m - shr_m mrs * 2 ^ k) = 2 ^ k))%Z.

(** Statements about the session are read on the [Mock] host; inside the
    sections below the host is the section's own. *)
#[local] Existing Instance Mock.host.

(** ** Orbit state and animation driver *)

Section Orbit.

Context `{Host}.

Implicit Types (c : Closure) (p : Planet) (so : gmap string float).

Lemma advance_descriptor so p :
  descriptor (data (advance so p)) = descriptor (data p).
Proof. reflexivity. Qed.

Lemma advance_angle so p s :
  so !! name (descriptor (data p)) = Some s →
  angle (data (advance so p)) = (angle (data p) + s)%float.
Proof. intros Hs. unfold advance. simpl. by rewrite Hs. Qed.

Lemma advance_position so p :
  THREE.position (mesh (advance so p))
  = THREE.mkVector3
      (Math_cos (angle (data (advance so p))) * distance (descriptor (data p)))%float
      (THREE.y (THREE.position (mesh p)))
      (Math_sin (angle (data (advance so p))) * distance (descriptor (data p)))%float.
Proof. reflexivity. Qed.

Lemma advance_mesh_id so p : THREE.id (mesh (advance so p)) = THREE.id (mesh p).
Proof. reflexivity. Qed.

Lemma animate_closure_env so c :
  env_isPaused (animate_closure so c) = env_isPaused c
  ∧ env_speeds (animate_closure so c) = env_speeds c.
Proof. done. Qed.

Lemma animate_closure_paused so c :
  env_isPaused c = true → planets (animate_closure so c) = planets c.
Proof. intros Hp. unfold animate_closure, animate_planets. simpl. by rewrite Hp. Qed.

Lemma animate_closure_running so c :
  env_isPaused c = false → planets (animate_closure so c) = advance so <$> planets c.
Proof. intros Hp. unfold animate_closure, animate_planets. simpl. by rewrite Hp. Qed.

Lemma iter_animate_closure_env so c n :
  env_isPaused (Nat.iter n (animate_closure so) c) = env_isPaused c.
Proof. induction n as [|n IH]; [done|]. simpl. apply IH. Qed.

Lemma iter_animate_closure_speeds so c n :
  env_speeds (Nat.iter n (animate_closure so) c) = env_speeds c.
Proof. induction n as [|n IH]; [done|]. simpl. apply IH. Qed.

Lemma iter_animate_closure_rendered so c n :
  rendered (Nat.iter n (animate_closure so) c) = n + rendered c.
Proof. induction n as [|n IH]; [done|]. simpl. by rewrite IH. Qed.

(** One unpaused frame, planet by planet. *)
Lemma animate_closure_lookup so c i p :
  env_isPaused c = false →
  planets c !! i = Some p →
  planets (animate_closure so c) !! i = Some (advance so p).
Proof.
  intros Hp Hi. rewrite (animate_closure_running _ _ Hp).
  by rewrite list_lookup_fmap, Hi.
Qed.

(** [N] invocations of an unpaused [animate] with the speeds object [so]. *)
Lemma orbit_after_unpaused_invocations c so i p s (N : nat) :
  env_isPaused c = false →
  planets c !! i = Some p →
  so !! name (descriptor (data p)) = Some s →
  THREE.y (THREE.position (mesh p)) = 0%float →
  ∃ p',
    planets (Nat.iter N (animate_closure so) c) !! i = Some p'
    ∧ descriptor (data p') = descriptor (data p)
    ∧ angle (data p') = JS.accumulate N (angle (data p)) s
    ∧ THREE.y (THREE.position (mesh p')) = 0%float
    ∧ (0 < N →
       THREE.x (THREE.position (mesh p'))
       = (Math_cos (angle (data p')) * distance (descriptor (data p)))%float
       ∧ THREE.z (THREE.position (mesh p'))
         = (Math_sin (angle (data p')) * distance (descriptor (data p)))%float).
Proof.
  intros Hrun Hi Hs Hy. induction N as [|N IH].
  - exists p. simpl. split_and!; try done. intros HN. lia.
  - destruct IH as (q & Hq & Hd & Ha & Hqy & _).
    assert (Hs' : so !! name (descriptor (data q)) = Some s) by (by rewrite Hd).
    exists (advance so q). split_and!.
    + apply animate_closure_lookup; [|done].
      etrans; [apply iter_animate_closure_env | done].
    + by rewrite advance_descriptor.
    + by rewrite (advance_angle _ _ _ Hs'), Ha.
    + by rewrite advance_position.
    + intros _. rewrite advance_position, Hd. done.
Qed.

End Orbit.

(** ** Frames on the page *)

Section Frames.

Context `{Host}.

Implicit Types (w : World) (c : Closure) (i j : nat).

Lemma animate_lookup_ne i j w :
  i ≠ j → closures (animate j w) !! i = closures w !! i.
Proof.
  intros Hij. unfold animate. simpl.
  destruct (closures w !! j); simpl; [|done].
  by apply list_lookup_insert_ne.
Qed.

Lemma animate_lookup_eq i w c :
  closures w !! i = Some c →
  closures (animate i w) !! i = Some (animate_closure (deref w (env_speeds c)) c).
Proof.
  intros Hi. unfold animate. simpl. rewrite Hi. simpl.
  apply list_lookup_insert_eq. by eapply lookup_lt_Some.
Qed.

Lemma animate_heap i w : heap (animate i w) = heap w.
Proof. unfold animate. simpl. by destruct (closures w !! i). Qed.

Lemma animate_frame_requests i w :
  frame_requests (animate i w) = frame_requests w ++ [i].
Proof. unfold animate. simpl. by destruct (closures w !! i). Qed.

(** Frames run by any closures leave the planets of a paused one alone. *)
Lemma animate_keeps_paused i j w c :
  closures w !! i = Some c → env_isPaused c = true →
  ∃ c', closures (animate j w) !! i = Some c'
        ∧ env_isPaused c' = true ∧ planets c' = planets c.
Proof.
  intros Hi Hp. destruct (decide (i = j)) as [<-|Hij].
  - eexists. split; [by apply animate_lookup_eq|].
    split; [done|]. by apply animate_closure_paused.
  - exists c. by rewrite animate_lookup_ne.
Qed.

Lemma animate_all_keeps_paused i (js : list nat) w c :
  closures w !! i = Some c → env_isPaused c = true →
  ∃ c', closures (foldl (λ w' j, animate j w') w js) !! i = Some c'
        ∧ env_isPaused c' = true ∧ planets c' = planets c.
Proof.
  revert w c. induction js as [|j js IH]; intros w c Hi Hp; simpl.
  - by exists c.
  - destruct (animate_keeps_paused i j w c Hi Hp) as (c1 & H1 & Hp1 & Hps1).
    destruct (IH _ _ H1 Hp1) as (c2 & H2 & Hp2 & Hps2).
    exists c2. split_and!; [done..|congruence].
Qed.

Lemma animationFrame_keeps_paused i w c :
  closures w !! i = Some c → env_isPaused c = true →
  ∃ c', closures (animationFrame w) !! i = Some c'
        ∧ env_isPaused c' = true ∧ planets c' = planets c.
Proof. intros Hi Hp. unfold animationFrame. by apply animate_all_keeps_paused. Qed.

(** C2. A closure whose captured pause flag is true keeps every planet's
    angle and mesh position through any number of animation frames. *)
Theorem paused_frames_change_no_planet w i c (N : nat) :
  closures w !! i = Some c →
  env_isPaused c = true →
  ∃ c', closures (Nat.iter N animationFrame w) !! i = Some c'
        ∧ planets c' = planets c.
Proof.
  intros Hi Hp.
  cut (∃ c', closures (Nat.iter N animationFrame w) !! i = Some c'
             ∧ env_isPaused c' = true ∧ planets c' = planets c).
  { intros (c' & ? & _ & ?). by exists c'. }
  induction N as [|N (c1 & H1 & Hp1 & Hps1)]; simpl.
  - by exists c.
  - destruct (animationFrame_keeps_paused i _ c1 H1 Hp1) as (c2 & H2 & Hp2 & Hps2).
    exists c2. split_and!; [done..|congruence].
Qed.

End Frames.

(** The theorem at the closure built by a click on Pause, five frames on. *)
Lemma paused_frames_change_no_planet_witness :
  ∃ c', closures (Demo.later 5 Demo.paused) !! 1 = Some c'
        ∧ planets c' = planets (Demo.closure 1 Demo.paused).
Proof.
  apply (@paused_frames_change_no_planet Mock.host Demo.paused 1
           (Demo.closure 1 Demo.paused) 5); vm_compute; reflexivity.
Defined.

(** ** Scene construction *)

Section Construction.

Context `{Host}.

Lemma make_planets_lookup ds k d mesh_id from :
  ds !! k = Some d →
  make_planets ds mesh_id from !! k
  = Some (make_planet d (mesh_id + k) (from + N.of_nat k)%N).
Proof.
  revert k mesh_id from. induction ds as [|d0 ds IH]; intros [|k] mesh_id from Hk;
    simplify_eq/=.
  - do 2 f_equal; [lia|]. by rewrite N.add_0_r.
  - rewrite (IH _ _ _ Hk). do 2 f_equal; lia.
Qed.

Lemma make_planets_descriptors ds mesh_id from :
  descriptor ∘ data <$> make_planets ds mesh_id from = ds.
Proof.
  revert mesh_id from. induction ds as [|d ds IH]; intros mesh_id from; [done|].
  simpl. by rewrite IH.
Qed.

Lemma make_planets_ids ds mesh_id from :
  THREE.id ∘ mesh <$> make_planets ds mesh_id from = seq mesh_id (length ds).
Proof.
  revert mesh_id from. induction ds as [|d ds IH]; intros mesh_id from; [done|].
  simpl. by rewrite IH.
Qed.

Lemma make_planets_at_origin ds mesh_id from :
  Forall (λ p, THREE.position (mesh p) = THREE.origin) (make_planets ds mesh_id from).
Proof.
  revert mesh_id from. induction ds as [|d ds IH]; intros mesh_id from; simpl;
    constructor; [done|apply IH].
Qed.

Lemma build_closure_scene_ok w : scene_ok (build_closure w).
Proof.
  unfold scene_ok, build_closure. cbn [planets sun light].
  split_and!.
  - apply make_planets_descriptors.
  - apply make_planets_ids.
  - done.
  - done.
  - eapply Forall_impl; [apply make_planets_at_origin|].
    by intros p ->.
Qed.

Lemma advance_on_orbit so p :
  THREE.y (THREE.position (mesh p)) = 0%float → on_orbit (advance so p).
Proof. intros Hy. unfold on_orbit. by rewrite advance_position, Hy. Qed.

Lemma animate_closure_scene_ok so c : scene_ok c → scene_ok (animate_closure so c).
Proof.
  intros (Hd & Hi & Hs & Hy). unfold scene_ok, animate_closure, animate_planets.
  cbn [planets sun light]. destruct (env_isPaused c); simpl; [done|].
  rewrite <- !list_fmap_compose. destruct Hs. split_and!; [done..|].
  rewrite Forall_fmap. eapply Forall_impl; [exact Hy|]. by intros p.
Qed.

(** One frame puts every planet of an unpaused scene on its orbit. *)
Lemma animate_closure_ok so c : scene_ok c → closure_ok (animate_closure so c).
Proof.
  intros Hok. split; [by apply animate_closure_scene_ok|].
  intros Hrun. rewrite animate_closure_running by done.
  destruct Hok as (_ & _ & _ & Hy).
  rewrite Forall_fmap. eapply Forall_impl; [exact Hy|].
  intros p Hp. by apply advance_on_orbit.
Qed.

End Construction.

(** ** The effect, its cleanup, and the pages they produce *)

Section Lifecycle.

Context `{Host}.

Implicit Types (w : World) (c : Closure) (i j : nat).

(** Evaluates the record updates of a page given by its constructor. *)
Ltac page_cbn :=
  cbn -[starCount build_closure animate_closure N.add N.mul N.of_nat] in *.

Lemma addEventListener_fresh t f w :
  (t, f) ∉ listeners w →
  addEventListener t f w = set_listeners (listeners w ++ [(t, f)]) w.
Proof. intros Hf. unfold addEventListener. by case_decide. Qed.

(** The effect on a page with the mount [div] attached and empty: one canvas,
    two listeners, one new closure that has run its first frame and requested
    the next. *)
Lemma effect_eq w :
  mountRef_current w = true → listeners w = [] → mount_children w = [] →
  effect w =
    Some (mkWorld (speeds w) (isPaused w) (heap w) true (tooltipRef_current w)
            [length (closures w)] (tooltip w)
            [(mousemove, cb_onMouseMove (length (closures w)));
             (resize, cb_handleResize (length (closures w)))]
            (frame_requests w ++ [length (closures w)])
            (closures w ++ [animate_closure (deref w (speeds w)) (build_closure w)])
            (Some (length (closures w)))
            (draws w + 3 * N.of_nat starCount + N.of_nat (length planetsData))%N
            (innerWidth w) (innerHeight w)).
Proof.
  intros Hm Hl Hc. unfold effect. rewrite Hm. f_equal.
  rewrite (addEventListener_fresh mousemove) by (cbn; rewrite Hl; set_solver).
  unfold animate, requestAnimationFrame.
  cbn [closures set_closures set_frame_requests set_listeners set_effect_closure
       set_draws set_mount_children].
  rewrite list_lookup_middle by done.
  rewrite (addEventListener_fresh resize).
  2:{ cbn. rewrite Hl. cbn. rewrite list_elem_of_singleton. congruence. }
  cbn. rewrite Hl, Hc, insert_app_r_alt, Nat.sub_diag by lia.
  destruct w. page_cbn. by subst.
Qed.

(** The cleanup of the closure that owns the canvas and the listeners. *)
Lemma cleanup_eq i w :
  mountRef_current w = true →
  mount_children w = [i] →
  listeners w = [(mousemove, cb_onMouseMove i); (resize, cb_handleResize i)] →
  cleanup i w = Some (set_mount_children [] (set_listeners [] w)).
Proof.
  intros Hm Hc Hl. unfold cleanup, cleanup_listeners, removeEventListener. cbn.
  rewrite Hm, Hc, Hl.
  rewrite decide_True by set_solver.
  f_equal.
  rewrite (filter_cons_False _ i) by naive_solver.
  rewrite (filter_cons_True _ (mousemove, _)) by naive_solver.
  rewrite (filter_cons_False _ (resize, _)) by naive_solver.
  rewrite (filter_cons_False _ (mousemove, _)) by naive_solver.
  by destruct w.
Qed.

(** The first two statements of that cleanup. *)
Lemma cleanup_listeners_owner i w :
  listeners w = [(mousemove, cb_onMouseMove i); (resize, cb_handleResize i)] →
  cleanup_listeners i w = set_listeners [] w.
Proof.
  intros Hl. unfold cleanup_listeners, removeEventListener. cbn. rewrite Hl.
  rewrite (filter_cons_True _ (mousemove, _)) by naive_solver.
  rewrite (filter_cons_False _ (resize, _)) by naive_solver.
  rewrite (filter_cons_False _ (mousemove, _)) by naive_solver.
  by destruct w.
Qed.

(** With [mountRef.current] cleared, line 138 throws. *)
Lemma cleanup_detached i w : mountRef_current w = false → cleanup i w = None.
Proof.
  intros Hm. unfold cleanup.
  assert (mountRef_current (cleanup_listeners i w) = false) as -> by (by destruct w).
  done.
Qed.

(** The unmount of a mounted page: the refs are cleared, the listeners go,
    the cleanup throws before it removes the canvas. *)
Lemma unmount_mounted w i :
  effect_closure w = Some i →
  listeners w = [(mousemove, cb_onMouseMove i); (resize, cb_handleResize i)] →
  unmount w
  = Some (set_effect_closure None (set_listeners [] (set_refs false false w))).
Proof.
  intros He Hl. unfold unmount, after_cleanup. rewrite He.
  rewrite cleanup_detached by done. cbn [default from_option].
  by rewrite cleanup_listeners_owner.
Qed.

(** Parts of a page that [page_ok] does not read. *)
Lemma page_ok_set_tooltip t w : page_ok w → page_ok (set_tooltip t w).
Proof. by destruct w. Qed.

Lemma page_ok_set_frame_requests l w : page_ok w → page_ok (set_frame_requests l w).
Proof. by destruct w. Qed.

Lemma page_ok_set_window_size iw ih w : page_ok w → page_ok (set_window_size iw ih w).
Proof. by destruct w. Qed.

(** Replacing a closure by one with the same captured state keeps the page. *)
Lemma page_ok_set_closure w i c c' :
  closures w !! i = Some c →
  closure_ok c' →
  env_speeds c' = env_speeds c →
  env_isPaused c' = env_isPaused c →
  page_ok w → page_ok (set_closures (<[i:=c']> (closures w)) w).
Proof.
  intros Hi Hok Hs Hp (Hcs & Hm & Hh). split_and!; [| |by destruct w].
  - destruct w; cbn in *. by apply Forall_insert.
  - unfold mounted_ok in *. destruct w as [? ? ? ? ? ? ? ? ? cs [k|] ? ? ?]; cbn in *; [|done].
    destruct Hm as (? & ? & ? & ? & c0 & Hk & Hs0 & Hp0). split_and!; [done..|].
    destruct (decide (k = i)) as [->|Hne].
    + exists c'. rewrite list_lookup_insert_eq by (by eapply lookup_lt_Some).
      simplify_eq. by rewrite Hs, Hp.
    + exists c0. by rewrite list_lookup_insert_ne.
Qed.

Lemma page_ok_animate j w : page_ok w → page_ok (animate j w).
Proof.
  intros Hok. unfold animate.
  assert (Hrq : page_ok (requestAnimationFrame j w))
    by (by apply page_ok_set_frame_requests).
  destruct (closures (requestAnimationFrame j w) !! j) as [c|] eqn:Hj; [|done].
  eapply page_ok_set_closure; [done| | | |done].
  - apply animate_closure_ok.
    destruct Hrq as [Hcs _]. rewrite Forall_lookup in Hcs. by apply (Hcs _ _ Hj).
  - done.
  - done.
Qed.

Lemma page_ok_animationFrame w : page_ok w → page_ok (animationFrame w).
Proof.
  intros Hok. unfold animationFrame.
  assert (Hstart : page_ok (set_frame_requests [] w))
    by (by apply page_ok_set_frame_requests).
  revert Hstart. generalize (set_frame_requests [] w).
  induction (frame_requests w) as [|j js IH]; intros w0 Hw0; simpl; [done|].
  apply IH. by apply page_ok_animate.
Qed.

Lemma page_ok_onMouseMove i e w : page_ok w → page_ok (onMouseMove i e w).
Proof.
  intros Hok. unfold onMouseMove.
  destruct (closures w !! i) as [c|] eqn:Hi; [|done].
  apply page_ok_set_tooltip. eapply page_ok_set_closure; [done| |done..].
  destruct Hok as [Hcs _]. rewrite Forall_lookup in Hcs. apply (Hcs _ _ Hi).
Qed.

Lemma page_ok_handleResize i w : page_ok w → page_ok (handleResize i w).
Proof.
  intros Hok. unfold handleResize.
  destruct (closures w !! i) as [c|] eqn:Hi; [|done].
  eapply page_ok_set_closure; [done| |done..].
  destruct Hok as [Hcs _]. rewrite Forall_lookup in Hcs. apply (Hcs _ _ Hi).
Qed.

Lemma page_ok_dispatch_mousemove e w : page_ok w → page_ok (dispatch_mousemove e w).
Proof.
  unfold dispatch_mousemove. generalize (listeners w) at 1. intros ls. revert w.
  induction ls as [|[[] []] ls IH]; intros w Hok; simpl; auto.
  apply IH. by apply page_ok_onMouseMove.
Qed.

Lemma page_ok_dispatch_resize w : page_ok w → page_ok (dispatch_resize w).
Proof.
  unfold dispatch_resize. generalize (listeners w) at 1. intros ls. revert w.
  induction ls as [|[[] []] ls IH]; intros w Hok; simpl; auto.
  apply IH. by apply page_ok_handleResize.
Qed.

(** The effect on a page whose mount [div] is attached and empty. *)
Lemma effect_page_ok w :
  Forall closure_ok (closures w) →
  speeds w < length (heap w) →
  mountRef_current w = true → tooltipRef_current w = true →
  listeners w = [] → mount_children w = [] →
  ∃ w', effect w = Some w' ∧ page_ok w'
        ∧ speeds w' = speeds w ∧ isPaused w' = isPaused w ∧ heap w' = heap w
        ∧ effect_closure w' = Some (length (closures w)).
Proof.
  intros Hcs Hh Hm Ht Hl Hc. eexists. split; [by apply effect_eq|].
  split_and!; try done. split_and!; cbn; [| |done].
  - apply Forall_app. split; [done|]. constructor; [|done].
    apply animate_closure_ok, build_closure_scene_ok.
  - unfold mounted_ok. cbn. split_and!; try done.
    eexists. split; [by apply list_lookup_middle|]. done.
Qed.

Lemma page_ok_mount iw ih : ∃ w, mount (start iw ih) = Some w ∧ page_ok w.
Proof.
  destruct (effect_page_ok (set_refs true true (start iw ih)))
    as (w & Hw & Hok & _); try done; [cbn; lia|].
  by exists w.
Qed.

(** A state update followed by the render it schedules: when a dependency
    differs from what the current closure captured, its cleanup runs and then
    the effect. *)
Lemma rerender_changed w i r b h :
  page_ok w → effect_closure w = Some i →
  r ≠ speeds w ∨ b ≠ isPaused w →
  rerender (set_state r b h w)
  = effect (set_mount_children [] (set_listeners [] (set_state r b h w))).
Proof.
  intros (Hcs & Hm & Hh) He Hne. unfold rerender, mounted_ok in *.
  cbn [effect_closure closures set_state]. rewrite He in *.
  destruct Hm as (Hmr & Htr & Hch & Hls & c & Hi & Hs & Hp). rewrite Hi.
  assert (deps_changed c (set_state r b h w) = true) as ->.
  { unfold deps_changed. cbn [speeds isPaused set_state].
    apply negb_true_iff, andb_false_iff. rewrite Nat.eqb_neq, Hs, Hp.
    destruct Hne as [?|Hb]; [left; congruence|right].
    destruct (isPaused w), b; done. }
  by rewrite cleanup_eq.
Qed.

Lemma rerender_page_ok w r b h :
  page_ok w → r < length h →
  ∃ w', rerender (set_state r b h w) = Some w' ∧ page_ok w'
        ∧ speeds w' = r ∧ isPaused w' = b ∧ heap w' = h.
Proof.
  intros (Hcs & Hm & Hh) Hr. unfold rerender, mounted_ok in *.
  cbn [effect_closure closures set_state].
  destruct (effect_closure w) as [i|] eqn:He.
  - destruct Hm as (Hmr & Htr & Hch & Hls & c & Hi & Hs & Hp). rewrite Hi.
    destruct (deps_changed c _) eqn:Hdeps.
    + rewrite cleanup_eq by done.
      destruct (effect_page_ok
                  (set_mount_children [] (set_listeners [] (set_state r b h w))))
        as (w' & Hw' & Hok' & ? & ? & ? & _); try done.
      exists w'. split; [exact Hw'|]. by split_and!.
    + eexists. split; [done|]. split_and!; try done.
      unfold deps_changed in Hdeps. cbn in Hdeps.
      apply negb_false_iff, andb_true_iff in Hdeps as [Hr' Hb].
      apply Nat.eqb_eq in Hr'. apply Bool.eqb_prop in Hb.
      split_and!; [done| |done]. unfold mounted_ok. cbn. rewrite He.
      split_and!; try done. by exists c.
  - eexists. split; [done|]. split_and!; try done. split_and!; [done| |done].
    unfold mounted_ok. cbn. by rewrite He.
Qed.

Lemma unmount_page_ok w :
  page_ok w →
  ∃ w', unmount w = Some w' ∧ page_ok w'
        ∧ effect_closure w' = None ∧ listeners w' = []
        ∧ mount_children w' = mount_children w ∧ mountRef_current w' = false.
Proof.
  intros (Hcs & Hm & Hh). unfold mounted_ok in *.
  destruct (effect_closure w) as [i|] eqn:He.
  - destruct Hm as (Hmr & Htr & Hch & Hls & _).
    rewrite (unmount_mounted w i) by done.
    eexists. split; [done|]. by split_and!.
  - destruct Hm as (Hmr & Htr & Hls). unfold unmount. rewrite He.
    eexists. split; [done|]. split_and!; try done.
    split_and!; [done| |done]. unfold mounted_ok. by rewrite He.
Qed.

(** No event makes a handler of a reachable page throw. *)
Lemma step_page_ok w e : page_ok w → ∃ w', step w e = Some w' ∧ page_ok w'.
Proof.
  intros Hok. destruct e as [|ev|iw ih|planet val| |]; simpl.
  - eexists. split; [done|]. by apply page_ok_animationFrame.
  - eexists. split; [done|]. by apply page_ok_dispatch_mousemove.
  - eexists. split; [done|].
    by apply page_ok_dispatch_resize, page_ok_set_window_size.
  - destruct (effect_closure w); [|by exists w].
    destruct (rerender_page_ok w (length (heap w)) (isPaused w)
                (heap w ++ [<[planet:=parseFloat val]> (deref w (speeds w))]) Hok)
      as (w' & Hw' & Hok' & _); [rewrite length_app; simpl; lia|].
    by exists w'.
  - destruct (effect_closure w); [|by exists w].
    destruct (rerender_page_ok w (speeds w) (negb (isPaused w)) (heap w) Hok)
      as (w' & Hw' & Hok' & _); [by destruct Hok as (_ & _ & ?)|].
    by exists w'.
  - destruct (unmount_page_ok w Hok) as (w' & Hw' & Hok' & _). by exists w'.
Qed.

Lemma run_page_ok es w : page_ok w → ∃ w', run w es = Some w' ∧ page_ok w'.
Proof.
  revert w. induction es as [|e es IH]; intros w Hok; simpl.
  - by exists w.
  - destruct (step_page_ok w e Hok) as (w1 & -> & Hok1). simpl. by apply IH.
Qed.

(** A mounted session never throws, whatever the window and the events. *)
Lemma session_total iw ih es :
  ∃ w, mount (start iw ih) ≫= (λ w0, run w0 es) = Some w.
Proof.
  destruct (page_ok_mount iw ih) as (w0 & -> & Hok0). simpl.
  destruct (run_page_ok es w0 Hok0) as (w & Hw & _). by exists w.
Qed.

Lemma reachable_page_ok w : reachable w → page_ok w.
Proof.
  intros (iw & ih & es & Hw).
  destruct (page_ok_mount iw ih) as (w0 & Hw0 & Hok0). rewrite Hw0 in Hw.
  simpl in Hw. destruct (run_page_ok es w0 Hok0) as (w' & Hw' & Hok').
  congruence.
Qed.

End Lifecycle.

(** ** Control panel *)

Section ControlPanel.

Context `{Host}.

Lemma deref_handleSpeedChange_new n val w :
  deref (handleSpeedChange n val w) (speeds (handleSpeedChange n val w))
  = <[n := parseFloat val]> (deref w (speeds w)).
Proof.
  unfold handleSpeedChange, deref at 1. cbn [heap speeds set_state].
  by rewrite list_lookup_middle.
Qed.

Lemma deref_handleSpeedChange_old n val w r :
  r < length (heap w) → deref (handleSpeedChange n val w) r = deref w r.
Proof.
  intros Hr. unfold handleSpeedChange, deref. cbn [heap set_state].
  by rewrite lookup_app_l.
Qed.

(** C5. A slider change allocates a new [speeds] object in which the planet's
    entry is the parsed slider value and every other entry is the previous
    one; the previous object, like every object allocated before, still
    holds what it held. *)
Theorem slider_change_is_key_local n val w :
  speeds w < length (heap w) →
  let w' := handleSpeedChange n val w in
  speeds w' ≠ speeds w
  ∧ deref w' (speeds w') !! n = Some (parseFloat val)
  ∧ (∀ m, m ≠ n → deref w' (speeds w') !! m = deref w (speeds w) !! m)
  ∧ deref w' (speeds w) = deref w (speeds w)
  ∧ (∀ r, r < length (heap w) → heap w' !! r = heap w !! r)
  ∧ isPaused w' = isPaused w.
Proof.
  intros Hr w'. unfold w'. rewrite deref_handleSpeedChange_new. split_and!.
  - unfold handleSpeedChange. cbn [speeds set_state]. lia.
  - apply lookup_insert_eq.
  - intros m Hm. by apply lookup_insert_ne.
  - by apply deref_handleSpeedChange_old.
  - intros r Hlt. unfold handleSpeedChange. cbn [heap set_state].
    by apply lookup_app_l.
  - done.
Qed.

(** C8. The initial [speeds] object maps each of the eight planet names to
    the [speed] of its descriptor and holds nothing else, and the range
    inputs of the first render show these values; on every page each range
    input shows [speeds[p.name]]. *)
Theorem speeds_start_at_base_speeds :
  length planetsData = 8
  ∧ NoDup (name <$> planetsData)
  ∧ Forall (λ p, initial_speeds !! name p = Some (speed p)) planetsData
  ∧ dom initial_speeds = list_to_set (name <$> planetsData)
  ∧ (∀ iw ih,
       deref (start iw ih) (speeds (start iw ih)) = initial_speeds
       ∧ controls (view (start iw ih))
         = (λ p, mkRangeInput (name p) "0.001" "0.05" "0.001" (Some (speed p)))
             <$> planetsData)
  ∧ (∀ w, controls (view w)
          = (λ p, mkRangeInput (name p) "0.001" "0.05" "0.001"
                    (deref w (speeds w) !! name p)) <$> planetsData).
Proof.
  split_and!.
  - done.
  - apply NoDup_ListNoDup. repeat constructor; cbn; intuition discriminate.
  - repeat constructor.
  - unfold initial_speeds, Object_fromEntries. simpl.
    rewrite !dom_insert_L, dom_empty_L. set_solver.
  - intros iw ih. split; reflexivity.
  - done.
Qed.

End ControlPanel.

(** The theorem at a change of Venus's slider to 0.05 on the mounted page. *)
Lemma slider_change_is_key_local_witness :
  speeds (handleSpeedChange "Venus" "0.05" Demo.mounted) ≠ speeds Demo.mounted
  ∧ deref (handleSpeedChange "Venus" "0.05" Demo.mounted)
      (speeds (handleSpeedChange "Venus" "0.05" Demo.mounted)) !! "Venus"
    = Some (Mock.parse "0.05")
  ∧ (∀ m, m ≠ "Venus" →
       deref (handleSpeedChange "Venus" "0.05" Demo.mounted)
         (speeds (handleSpeedChange "Venus" "0.05" Demo.mounted)) !! m
       = deref Demo.mounted (speeds Demo.mounted) !! m)
  ∧ deref (handleSpeedChange "Venus" "0.05" Demo.mounted) (speeds Demo.mounted)
    = deref Demo.mounted (speeds Demo.mounted)
  ∧ (∀ r, r < length (heap Demo.mounted) →
       heap (handleSpeedChange "Venus" "0.05" Demo.mounted) !! r
       = heap Demo.mounted !! r)
  ∧ isPaused (handleSpeedChange "Venus" "0.05" Demo.mounted) = isPaused Demo.mounted.
Proof.
  apply (@slider_change_is_key_local Mock.host "Venus" "0.05" Demo.mounted).
  vm_compute. lia.
Defined.

(** ** Mount, unmount and what outlives them *)

Section Teardown.

Context `{Host}.

Implicit Types (w : World) (c : Closure) (i j : nat).

Lemma cleanup_listeners_eq i w :
  listeners w = [(mousemove, cb_onMouseMove i); (resize, cb_handleResize i)] →
  listeners (cleanup_listeners i w) = [].
Proof.
  intros Hl. unfold cleanup_listeners, removeEventListener. cbn. rewrite Hl.
  rewrite (filter_cons_True _ (mousemove, _)) by naive_solver.
  rewrite (filter_cons_False _ (resize, _)) by naive_solver.
  by rewrite (filter_cons_False _ (mousemove, _)) by naive_solver.
Qed.

(** C7, on the code. Mounting inserts one canvas and registers the two
    [window] listeners.  At the unmount that follows, React has cleared
    [mountRef.current] before the cleanup runs: lines 136-137 remove both
    listeners, line 138 throws, and the canvas is still a child of the mount
    [div].  With the ref attached, as when the effect re-runs, the same
    cleanup removes the canvas as well. *)
Theorem unmount_throws_before_it_removes_the_canvas iw ih :
  ∃ w1 w2,
    mount (start iw ih) = Some w1
    ∧ mount_children w1 = [0]
    ∧ listeners w1 = [(mousemove, cb_onMouseMove 0); (resize, cb_handleResize 0)]
    ∧ cleanup 0 (set_refs false false w1) = None
    ∧ listeners (cleanup_listeners 0 (set_refs false false w1)) = []
    ∧ unmount w1 = Some w2
    ∧ mountRef_current w2 = false
    ∧ listeners w2 = []
    ∧ mount_children w2 = [0]
    ∧ cleanup 0 w1 = Some (set_mount_children [] (set_listeners [] w1)).
Proof.
  eexists _, _. split; [by apply effect_eq|].
  split; [done|]. split; [done|].
  split; [by apply cleanup_detached|].
  split; [by apply cleanup_listeners_eq|].
  split; [by apply (unmount_mounted _ 0)|].
  split; [done|]. split; [done|]. split; [done|].
  by apply cleanup_eq.
Qed.

(** The cleanup touches neither the frame requests nor the closures. *)
Lemma cleanup_keeps_requests i w w' :
  cleanup i w = Some w' →
  frame_requests w' = frame_requests w ∧ closures w' = closures w.
Proof.
  unfold cleanup, cleanup_listeners. intros Hw.
  repeat case_match; simplify_eq. by destruct w.
Qed.

Lemma after_cleanup_keeps_requests i w :
  frame_requests (after_cleanup i w) = frame_requests w
  ∧ closures (after_cleanup i w) = closures w.
Proof.
  unfold after_cleanup. destruct (cleanup i w) as [w1|] eqn:Hc; cbn [default from_option].
  - by apply cleanup_keeps_requests in Hc.
  - by destruct w.
Qed.

Lemma unmount_keeps_requests w w' :
  unmount w = Some w' →
  frame_requests w' = frame_requests w ∧ closures w' = closures w.
Proof.
  unfold unmount. intros Hw. destruct (effect_closure w) as [i|]; [|by simplify_eq].
  injection Hw as <-.
  destruct (after_cleanup_keeps_requests i (set_refs false false w)) as [Hfr Hcs].
  cbn [frame_requests closures set_effect_closure]. by rewrite Hfr, Hcs.
Qed.

(** Every [animate] that runs requests itself again. *)
Lemma run_requests_frame_requests (js : list nat) w :
  frame_requests (foldl (λ w' j, animate j w') w js) = frame_requests w ++ js.
Proof.
  revert w. induction js as [|j js IH]; intros w; simpl.
  - by rewrite app_nil_r.
  - by rewrite IH, animate_frame_requests, <- app_assoc.
Qed.

Lemma animationFrame_frame_requests w :
  frame_requests (animationFrame w) = frame_requests w.
Proof. unfold animationFrame. by rewrite run_requests_frame_requests. Qed.

Lemma animate_rendered i j w c :
  closures w !! i = Some c →
  ∃ c', closures (animate j w) !! i = Some c'
        ∧ rendered c' = (if decide (i = j) then S (rendered c) else rendered c).
Proof.
  intros Hi. case_decide as Hij.
  - subst j. eexists. split; [by apply animate_lookup_eq|done].
  - exists c. by rewrite animate_lookup_ne.
Qed.

Lemma run_requests_rendered i (js : list nat) w c :
  closures w !! i = Some c →
  ∃ c', closures (foldl (λ w' j, animate j w') w js) !! i = Some c'
        ∧ rendered c' = rendered c + length (filter (λ j, j = i) js).
Proof.
  revert w c. induction js as [|j js IH]; intros w c Hi; simpl.
  - exists c. split; [done|]. simpl. lia.
  - destruct (animate_rendered i j w c Hi) as (c1 & H1 & Hr1).
    destruct (IH _ _ H1) as (c2 & H2 & Hr2). exists c2. split; [done|].
    rewrite Hr2, Hr1. destruct (decide (i = j)) as [->|Hne].
    + rewrite filter_cons_True by done. simpl. lia.
    + rewrite filter_cons_False by congruence. done.
Qed.

Lemma animationFrame_rendered i w c :
  closures w !! i = Some c → i ∈ frame_requests w →
  ∃ c', closures (animationFrame w) !! i = Some c' ∧ rendered c < rendered c'.
Proof.
  intros Hi Hin. unfold animationFrame.
  destruct (run_requests_rendered i (frame_requests w) (set_frame_requests [] w) c)
    as (c' & Hc' & Hr); [done|].
  exists c'. split; [done|]. rewrite Hr.
  assert (i ∈ filter (λ j, j = i) (frame_requests w)) as Hf
    by (by apply list_elem_of_filter).
  destruct (filter _ _); [by apply not_elem_of_nil in Hf|]. simpl. lia.
Qed.

(** A requested [animate] runs on every later frame and is requested again
    each time, unmounted or not. *)
Lemma requested_animate_keeps_running w w' i c (N : nat) :
  closures w !! i = Some c →
  i ∈ frame_requests w →
  unmount w = Some w' →
  i ∈ frame_requests (Nat.iter N animationFrame w')
  ∧ ∃ c', closures (Nat.iter N animationFrame w') !! i = Some c'
          ∧ rendered c + N ≤ rendered c'.
Proof.
  intros Hi Hin Hu. apply unmount_keeps_requests in Hu as [Hfr Hcs].
  rewrite <- Hcs in Hi. rewrite <- Hfr in Hin. clear Hfr Hcs.
  induction N as [|N (Hin' & c1 & H1 & Hle)]; simpl.
  - split; [done|]. exists c. split; [done|lia].
  - split; [by rewrite animationFrame_frame_requests|].
    destruct (animationFrame_rendered i _ c1 H1 Hin') as (c2 & H2 & Hlt).
    exists c2. split; [done|lia].
Qed.

(** A render with a changed dependency tears the scene down and builds a
    new one: new canvas, new listeners, new closure with newly drawn angles. *)
Lemma rebuild_eq w i r b h :
  page_ok w → effect_closure w = Some i →
  r ≠ speeds w ∨ b ≠ isPaused w →
  rerender (set_state r b h w) =
    Some (mkWorld r b h true true [length (closures w)] (tooltip w)
            [(mousemove, cb_onMouseMove (length (closures w)));
             (resize, cb_handleResize (length (closures w)))]
            (frame_requests w ++ [length (closures w)])
            (closures w
               ++ [animate_closure (default ∅ (h !! r))
                     (build_closure (set_state r b h w))])
            (Some (length (closures w)))
            (draws w + 3 * N.of_nat starCount + N.of_nat (length planetsData))%N
            (innerWidth w) (innerHeight w)).
Proof.
  intros Hok He Hne. rewrite (rerender_changed w i) by done.
  destruct Hok as (_ & Hm & _). unfold mounted_ok in Hm. rewrite He in Hm.
  destruct Hm as (Hmr & Htr & _).
  rewrite effect_eq by (by destruct w).
  destruct w. cbn in Hmr, Htr. by subst.
Qed.

Lemma pause_click_eq w i :
  page_ok w → effect_closure w = Some i →
  step w PauseClick =
    Some (mkWorld (speeds w) (negb (isPaused w)) (heap w) true true
            [length (closures w)] (tooltip w)
            [(mousemove, cb_onMouseMove (length (closures w)));
             (resize, cb_handleResize (length (closures w)))]
            (frame_requests w ++ [length (closures w)])
            (closures w
               ++ [animate_closure (deref w (speeds w))
                     (build_closure (togglePause w))])
            (Some (length (closures w)))
            (draws w + 3 * N.of_nat starCount + N.of_nat (length planetsData))%N
            (innerWidth w) (innerHeight w)).
Proof.
  intros Hok He. simpl. rewrite He. unfold togglePause.
  rewrite (rebuild_eq w i) by (try done; right; by destruct (isPaused w)).
  done.
Qed.

(** C3, on the code. Two clicks on the pause button restore [isPaused], but
    each click re-runs the effect: the planets of the closure that is
    current afterwards are made anew from the draws that follow those of the
    intermediate scene, and then run their first frame; nothing of the
    angles held at the first click reaches them. *)
Theorem pause_twice_redraws_every_angle w i :
  reachable w →
  effect_closure w = Some i →
  ∃ w2 c2,
    run w [PauseClick; PauseClick] = Some w2
    ∧ isPaused w2 = isPaused w
    ∧ effect_closure w2 = Some (S (length (closures w)))
    ∧ closures w2 !! S (length (closures w)) = Some c2
    ∧ planets c2
      = animate_planets (isPaused w) (deref w (speeds w))
          (make_planets planetsData first_planet_id
             (draws w + 2 * (3 * N.of_nat starCount) + N.of_nat (length planetsData))%N).
Proof.
  intros Hw He. apply reachable_page_ok in Hw as Hok.
  destruct (step_page_ok w PauseClick Hok) as (w1 & Hw1 & Hok1).
  pose proof Hw1 as Hw1'. rewrite (pause_click_eq w i) in Hw1' by done.
  injection Hw1' as Hw1'.
  assert (He1 : effect_closure w1 = Some (length (closures w))) by (by subst w1).
  eexists _, _. change (run w [PauseClick; PauseClick])
    with (step w PauseClick ≫= λ w', step w' PauseClick ≫= λ w'', Some w'').
  rewrite Hw1. cbn [mbind option_bind].
  rewrite (pause_click_eq w1 _ Hok1 He1). cbn [mbind option_bind].
  split; [done|]. subst w1. cbn [isPaused effect_closure closures].
  split_and!.
  - by rewrite negb_involutive.
  - by rewrite length_app, Nat.add_1_r.
  - apply list_lookup_middle. by rewrite length_app, Nat.add_1_r.
  - unfold animate_closure, build_closure, togglePause, deref.
    cbn [planets env_isPaused isPaused speeds heap draws set_state].
    rewrite negb_involutive. change (length planetsData) with 8.
    by replace (draws w + 3 * N.of_nat starCount + N.of_nat 8
                + 3 * N.of_nat starCount)%N
      with (draws w + 2 * (3 * N.of_nat starCount) + N.of_nat 8)%N by lia.
Qed.

End Teardown.

(** After the unmount the abandoned [animate] has rendered once at mount and
    once in each of the five frames that followed, and is requested again. *)
Example abandoned_animate_after_five_frames :
  Demo.reachable_by [Unmount; AnimationFrame; AnimationFrame; AnimationFrame;
                     AnimationFrame; AnimationFrame]
  ∧ effect_closure (Demo.session [Unmount]) = None
  ∧ rendered (Demo.closure 0 (Demo.later 5 (Demo.session [Unmount]))) = 6
  ∧ frame_requests (Demo.later 5 (Demo.session [Unmount])) = [0].
Proof. split_and!; vm_compute; reflexivity. Qed.

(** The theorem at the page reached two frames after the mount. *)
Lemma pause_twice_redraws_every_angle_witness :
  ∃ w2 c2,
    run (Demo.session [AnimationFrame; AnimationFrame]) [PauseClick; PauseClick]
    = Some w2
    ∧ isPaused w2 = isPaused (Demo.session [AnimationFrame; AnimationFrame])
    ∧ effect_closure w2
      = Some (S (length (closures (Demo.session [AnimationFrame; AnimationFrame]))))
    ∧ closures w2 !! S (length (closures (Demo.session [AnimationFrame; AnimationFrame])))
      = Some c2
    ∧ planets c2
      = animate_planets (isPaused (Demo.session [AnimationFrame; AnimationFrame]))
          (deref (Demo.session [AnimationFrame; AnimationFrame])
             (speeds (Demo.session [AnimationFrame; AnimationFrame])))
          (make_planets planetsData first_planet_id
             (draws (Demo.session [AnimationFrame; AnimationFrame])
              + 2 * (3 * N.of_nat starCount) + N.of_nat (length planetsData))%N).
Proof.
  apply (@pause_twice_redraws_every_angle Mock.host
           (Demo.session [AnimationFrame; AnimationFrame]) 0).
  - exists 1280%float, 720%float, [AnimationFrame; AnimationFrame].
    vm_compute. reflexivity.
  - vm_compute. reflexivity.
Defined.

(** Mercury is at the angle 0.12 when Pause is clicked; after the click on
    Resume the flag is false again and the scene on display is the third one,
    whose Mercury starts from a new draw, at 1.6107963267948966. *)
Example resume_does_not_continue_from_the_held_angle :
  Demo.reachable_by [AnimationFrame; AnimationFrame; PauseClick; PauseClick]
  ∧ isPaused (Demo.session [AnimationFrame; AnimationFrame]) = false
  ∧ angle (data (Demo.planet 0 0 (Demo.session [AnimationFrame; AnimationFrame])))
    = 0.12%float
  ∧ isPaused (Demo.session [AnimationFrame; AnimationFrame; PauseClick; PauseClick])
    = false
  ∧ effect_closure
      (Demo.session [AnimationFrame; AnimationFrame; PauseClick; PauseClick])
    = Some 2
  ∧ angle (data (Demo.planet 0 2
             (Demo.session [AnimationFrame; AnimationFrame; PauseClick; PauseClick])))
    = 1.6107963267948966%float
  ∧ JS.strict_eq 1.6107963267948966 0.12 = false.
Proof. split_and!; vm_compute; reflexivity. Qed.

(** ** The frames of a reachable page *)

Section ReachableFrames.

Context `{Host}.

Implicit Types (w : World) (c : Closure) (i j : nat).

Lemma animate_length j w : length (closures (animate j w)) = length (closures w).
Proof.
  unfold animate. cbn [closures requestAnimationFrame set_frame_requests].
  destruct (closures w !! j); [|done]. cbn [closures set_closures].
  apply length_insert.
Qed.

(** What the requested invocations of one frame do to closure [i]: its own
    [animate] acts once per request, and nothing else touches it. *)
Lemma run_requests_closure i (js : list nat) w c :
  closures w !! i = Some c →
  closures (foldl (λ w' j, animate j w') w js) !! i
  = Some (Nat.iter (length (filter (λ j, j = i) js))
            (animate_closure (deref w (env_speeds c))) c).
Proof.
  revert w c. induction js as [|j js IH]; intros w c Hi; [done|].
  cbn [foldl]. destruct (decide (j = i)) as [->|Hne].
  - rewrite filter_cons_True by done. cbn [length].
    rewrite (IH _ _ (animate_lookup_eq i w c Hi)).
    cbn [animate_closure env_speeds]. unfold deref. rewrite animate_heap.
    by rewrite Nat.iter_succ_r.
  - rewrite filter_cons_False by done.
    assert (Hi' : closures (animate j w) !! i = Some c)
      by (by rewrite animate_lookup_ne).
    rewrite (IH _ _ Hi'). unfold deref. by rewrite animate_heap.
Qed.

Lemma run_requests_length (js : list nat) w :
  length (closures (foldl (λ w' j, animate j w') w js)) = length (closures w).
Proof.
  revert w. induction js as [|j js IH]; intros w; [done|].
  cbn [foldl]. by rewrite IH, animate_length.
Qed.

Lemma run_requests_heap (js : list nat) w :
  heap (foldl (λ w' j, animate j w') w js) = heap w.
Proof.
  revert w. induction js as [|j js IH]; intros w; [done|].
  cbn [foldl]. by rewrite IH, animate_heap.
Qed.

Lemma filter_eq_seq_outside i a k :
  i < a ∨ a + k ≤ i → filter (λ j, j = i) (seq a k) = [].
Proof.
  revert a. induction k as [|k IH]; intros a Hi; [done|]. cbn [seq].
  rewrite filter_cons_False by lia. apply IH. lia.
Qed.

Lemma filter_eq_seq_inside i a k :
  a ≤ i < a + k → filter (λ j, j = i) (seq a k) = [i].
Proof.
  revert a. induction k as [|k IH]; intros a Hi; [lia|]. cbn [seq].
  destruct (decide (a = i)) as [->|Hne].
  - rewrite filter_cons_True by done.
    by rewrite filter_eq_seq_outside by lia.
  - rewrite filter_cons_False by done. apply IH. lia.
Qed.

Lemma animationFrame_frames_requested w :
  frames_requested w → frames_requested (animationFrame w).
Proof.
  unfold frames_requested. intros Hfr.
  rewrite animationFrame_frame_requests. unfold animationFrame.
  by rewrite run_requests_length.
Qed.

(** One animation frame of a page runs the [animate] of each closure once. *)
Lemma animationFrame_closure w i c :
  frames_requested w →
  closures w !! i = Some c →
  closures (animationFrame w) !! i
  = Some (animate_closure (deref w (env_speeds c)) c)
  ∧ deref (animationFrame w) (env_speeds c) = deref w (env_speeds c).
Proof.
  intros Hfr Hi. unfold animationFrame. split.
  - rewrite (run_requests_closure i _ _ c) by done.
    rewrite Hfr, filter_eq_seq_inside; [done|].
    apply lookup_lt_Some in Hi. lia.
  - unfold deref. by rewrite run_requests_heap.
Qed.

Lemma animationFrames_closure w i c (N : nat) :
  frames_requested w →
  closures w !! i = Some c →
  closures (Nat.iter N animationFrame w) !! i
  = Some (Nat.iter N (animate_closure (deref w (env_speeds c))) c).
Proof.
  intros Hfr Hi.
  cut (frames_requested (Nat.iter N animationFrame w)
       ∧ deref (Nat.iter N animationFrame w) (env_speeds c) = deref w (env_speeds c)
       ∧ closures (Nat.iter N animationFrame w) !! i
         = Some (Nat.iter N (animate_closure (deref w (env_speeds c))) c)).
  { by intros (_ & _ & ?). }
  induction N as [|N (Hfr' & Hso & Hc)]; [done|]. cbn [Nat.iter].
  destruct (animationFrame_closure _ i _ Hfr' Hc) as [Hc' Hso'].
  rewrite iter_animate_closure_speeds in Hc', Hso'.
  rewrite Hso in Hc'. split_and!.
  - by apply animationFrame_frames_requested.
  - by etrans.
  - exact Hc'.
Qed.

Lemma frames_requested_set_closure w i c' :
  frames_requested w → frames_requested (set_closures (<[i:=c']> (closures w)) w).
Proof.
  unfold frames_requested. cbn [frame_requests closures set_closures].
  by rewrite length_insert.
Qed.

Lemma frames_requested_onMouseMove i e w :
  frames_requested w → frames_requested (onMouseMove i e w).
Proof.
  intros Hfr. unfold onMouseMove. destruct (closures w !! i); [|done].
  by apply (frames_requested_set_closure w i).
Qed.

Lemma frames_requested_handleResize i w :
  frames_requested w → frames_requested (handleResize i w).
Proof.
  intros Hfr. unfold handleResize. destruct (closures w !! i); [|done].
  by apply frames_requested_set_closure.
Qed.

Lemma frames_requested_dispatch_mousemove e w :
  frames_requested w → frames_requested (dispatch_mousemove e w).
Proof.
  unfold dispatch_mousemove. generalize (listeners w) at 1. intros ls. revert w.
  induction ls as [|[[] []] ls IH]; intros w Hfr; simpl; auto.
  apply IH. by apply frames_requested_onMouseMove.
Qed.

Lemma frames_requested_dispatch_resize w :
  frames_requested w → frames_requested (dispatch_resize w).
Proof.
  unfold dispatch_resize. generalize (listeners w) at 1. intros ls. revert w.
  induction ls as [|[[] []] ls IH]; intros w Hfr; simpl; auto.
  apply IH. by apply frames_requested_handleResize.
Qed.

Lemma frames_requested_effect w :
  mountRef_current w = true → listeners w = [] → mount_children w = [] →
  frames_requested w →
  ∃ w', effect w = Some w' ∧ frames_requested w'.
Proof.
  intros Hm Hl Hc Hfr. eexists. split; [by apply effect_eq|].
  unfold frames_requested in *. cbn [frame_requests closures].
  by rewrite length_app, Nat.add_1_r, seq_S, Hfr.
Qed.

Lemma frames_requested_rerender w r b h w' :
  page_ok w → frames_requested w →
  rerender (set_state r b h w) = Some w' → frames_requested w'.
Proof.
  intros (Hcs & Hm & Hh) Hfr. unfold rerender, mounted_ok in *.
  cbn [effect_closure closures set_state].
  destruct (effect_closure w) as [i|] eqn:He; [|by intros [= <-]].
  destruct Hm as (Hmr & Htr & Hch & Hls & c & Hi & Hs & Hp). rewrite Hi.
  destruct (deps_changed c _); [|by intros [= <-]].
  rewrite cleanup_eq by done.
  destruct (frames_requested_effect
              (set_mount_children [] (set_listeners [] (set_state r b h w))))
    as (w1 & Hw1 & Hfr1); [done..|].
  intros Hw'. change (effect (set_mount_children [] (set_listeners []
                        (set_state r b h w))) = Some w') in Hw'.
  congruence.
Qed.

Lemma frames_requested_step w e w' :
  page_ok w → frames_requested w → step w e = Some w' → frames_requested w'.
Proof.
  intros Hok Hfr. destruct e as [|ev|iw ih|planet val| |]; simpl.
  - intros [= <-]. by apply animationFrame_frames_requested.
  - intros [= <-]. by apply frames_requested_dispatch_mousemove.
  - intros [= <-]. by apply frames_requested_dispatch_resize.
  - destruct (effect_closure w); [|by intros [= <-]].
    by apply frames_requested_rerender.
  - destruct (effect_closure w); [|by intros [= <-]].
    by apply frames_requested_rerender.
  - intros Hu. apply unmount_keeps_requests in Hu as [Hfr1 Hcs1].
    unfold frames_requested in *. by rewrite Hfr1, Hcs1.
Qed.

Lemma reachable_frames_requested w : reachable w → frames_requested w.
Proof.
  intros (iw & ih & es & Hw).
  destruct (page_ok_mount iw ih) as (w0 & Hw0 & Hok0).
  assert (Hfr0 : frames_requested w0).
  { destruct (frames_requested_effect (set_refs true true (start iw ih)))
      as (w1 & Hw1 & Hfr1); [done..|]. unfold mount in Hw0. congruence. }
  rewrite Hw0 in Hw. cbn [mbind option_bind] in Hw. clear Hw0.
  revert w0 Hok0 Hfr0 Hw. induction es as [|e es IH]; intros w0 Hok0 Hfr0 Hw.
  - by injection Hw as <-.
  - cbn [run] in Hw. destruct (step_page_ok w0 e Hok0) as (w1 & Hw1 & Hok1).
    rewrite Hw1 in Hw. cbn [mbind option_bind] in Hw.
    by apply (IH w1 Hok1 (frames_requested_step w0 e w1 Hok0 Hfr0 Hw1)).
Qed.

Lemma animationFrame_length w :
  length (closures (animationFrame w)) = length (closures w).
Proof. unfold animationFrame. by rewrite run_requests_length. Qed.

Lemma animationFrames_frames_requested w (N : nat) :
  frames_requested w →
  frames_requested (Nat.iter N animationFrame w)
  ∧ length (closures (Nat.iter N animationFrame w)) = length (closures w).
Proof.
  intros Hfr. induction N as [|N [IH1 IH2]]; [done|]. rewrite Nat.iter_succ. split.
  - by apply animationFrame_frames_requested.
  - by rewrite animationFrame_length.
Qed.

(** C4, on the code. The cleanup cancels no frame request and [animate]
    requests the next frame before anything else: after an unmount the
    [animate] of every closure the page ever built is still requested, and
    [N] frames later it has run [N] more times and is requested again. *)
Theorem abandoned_animate_keeps_running w i c (N : nat) :
  reachable w →
  closures w !! i = Some c →
  ∃ w' c',
    unmount w = Some w'
    ∧ effect_closure w' = None
    ∧ i ∈ frame_requests (Nat.iter N animationFrame w')
    ∧ closures (Nat.iter N animationFrame w') !! i = Some c'
    ∧ rendered c' = rendered c + N.
Proof.
  intros Hw Hi. pose proof (reachable_frames_requested w Hw) as Hfr.
  apply reachable_page_ok in Hw as Hok.
  destruct (unmount_page_ok w Hok) as (w' & Hw' & Hok' & He' & _).
  assert (Hfr' : frames_requested w')
    by (by apply (frames_requested_step w Unmount w')).
  apply unmount_keeps_requests in Hw' as Hkeep. destruct Hkeep as [_ Hcs].
  rewrite <- Hcs in Hi.
  exists w'. eexists. split; [done|]. split; [done|].
  destruct (animationFrames_frames_requested w' N Hfr') as [HfrN HlenN].
  split_and!.
  - rewrite HfrN, HlenN. apply list_elem_of_In, List.in_seq.
    apply lookup_lt_Some in Hi. lia.
  - by apply animationFrames_closure.
  - rewrite iter_animate_closure_rendered. lia.
Qed.

(** C1 (as amended). On every page the component reaches, each animation
    frame runs the [animate] of each closure once; while the captured pause
    flag is false it performs [angle += speeds[name]],
    [x = cos(angle) * distance], [z = sin(angle) * distance] with the captured
    speeds object.  Hence after [N] frames at the constant speed [s] the angle
    is the earlier angle with [s] added [N] times in binary64 arithmetic, [y]
    is 0, and from the first frame on the mesh sits at
    [(cos(angle) * distance, 0, sin(angle) * distance)]. *)
Theorem orbit_after_unpaused_frames w i c k p s (N : nat) :
  reachable w →
  closures w !! i = Some c →
  env_isPaused c = false →
  planets c !! k = Some p →
  deref w (env_speeds c) !! name (descriptor (data p)) = Some s →
  ∃ c' p',
    closures (Nat.iter N animationFrame w) !! i = Some c'
    ∧ planets c' !! k = Some p'
    ∧ descriptor (data p') = descriptor (data p)
    ∧ angle (data p') = JS.accumulate N (angle (data p)) s
    ∧ THREE.y (THREE.position (mesh p')) = 0%float
    ∧ (0 < N →
       THREE.x (THREE.position (mesh p'))
       = (Math_cos (angle (data p')) * distance (descriptor (data p)))%float
       ∧ THREE.z (THREE.position (mesh p'))
         = (Math_sin (angle (data p')) * distance (descriptor (data p)))%float).
Proof.
  intros Hw Hi Hrun Hk Hs.
  pose proof (reachable_frames_requested w Hw) as Hfr.
  apply reachable_page_ok in Hw as (Hcs & _).
  rewrite Forall_lookup in Hcs. destruct (Hcs _ _ Hi) as [(_ & _ & _ & Hy) _].
  rewrite Forall_lookup in Hy. specialize (Hy _ _ Hk).
  destruct (orbit_after_unpaused_invocations c _ k p s N Hrun Hk Hs Hy)
    as (p' & Hp' & Hrest).
  eexists _, p'. split; [by apply animationFrames_closure|]. by split.
Qed.

End ReachableFrames.

(** The theorem at the closure of the mounted page, unmounted and left for
    five frames. *)
Lemma abandoned_animate_keeps_running_witness :
  ∃ w' c',
    unmount Demo.mounted = Some w'
    ∧ effect_closure w' = None
    ∧ 0 ∈ frame_requests (Nat.iter 5 animationFrame w')
    ∧ closures (Nat.iter 5 animationFrame w') !! 0 = Some c'
    ∧ rendered c' = rendered (Demo.closure 0 Demo.mounted) + 5.
Proof.
  apply (@abandoned_animate_keeps_running Mock.host Demo.mounted 0
           (Demo.closure 0 Demo.mounted) 5).
  - exists 1280%float, 720%float, []. vm_compute. reflexivity.
  - vm_compute. reflexivity.
Defined.

(** The theorem at Mercury on the mounted page, three frames on. *)
Lemma orbit_after_unpaused_frames_witness :
  ∃ c' p',
    closures (Nat.iter 3 animationFrame Demo.mounted) !! 0 = Some c'
    ∧ planets c' !! 0 = Some p'
    ∧ descriptor (data p') = descriptor (data (Demo.planet 0 0 Demo.mounted))
    ∧ angle (data p') = JS.accumulate 3 (angle (data (Demo.planet 0 0 Demo.mounted))) 0.04
    ∧ THREE.y (THREE.position (mesh p')) = 0%float
    ∧ (0 < 3 →
       THREE.x (THREE.position (mesh p'))
       = (Math_cos (angle (data p'))
          * distance (descriptor (data (Demo.planet 0 0 Demo.mounted))))%float
       ∧ THREE.z (THREE.position (mesh p'))
         = (Math_sin (angle (data p'))
            * distance (descriptor (data (Demo.planet 0 0 Demo.mounted))))%float).
Proof.
  apply (@orbit_after_unpaused_frames Mock.host Demo.mounted 0
           (Demo.closure 0 Demo.mounted) 0 (Demo.planet 0 0 Demo.mounted)
           0.04%float 3).
  - exists 1280%float, 720%float, []. vm_compute. reflexivity.
  - vm_compute. reflexivity.
  - vm_compute. reflexivity.
  - vm_compute. reflexivity.
  - vm_compute. reflexivity.
Defined.

(** C1 as stated fails. Mercury is built at the angle 0 and moves at 0.04 per
    frame; after the frame the effect runs and five animation frames its
    [animate] has run six times and the angle is 0.24000000000000002, which
    is not [0 + 6 * 0.04 = 0.24]. *)
Lemma orbit_angle_is_not_initial_plus_N_times_speed :
  Demo.reachable_by [AnimationFrame; AnimationFrame; AnimationFrame;
                     AnimationFrame; AnimationFrame]
  ∧ Demo.later 5 Demo.mounted
    = Demo.session [AnimationFrame; AnimationFrame; AnimationFrame;
                    AnimationFrame; AnimationFrame]
  ∧ env_isPaused (Demo.closure 0 (Demo.later 5 Demo.mounted)) = false
  ∧ rendered (Demo.closure 0 (Demo.later 5 Demo.mounted)) = 6
  ∧ planets Demo.built !! 0 = Some Demo.mercury0
  ∧ angle (data Demo.mercury0) = 0%float
  ∧ initial_speeds !! "Mercury" = Some 0.04%float
  ∧ angle (data (Demo.planet 0 0 (Demo.later 5 Demo.mounted)))
    = 0.24000000000000002%float
  ∧ (angle (data Demo.mercury0) + JS.of_nat 6 * 0.04)%float = 0.24%float
  ∧ JS.strict_eq 0.24000000000000002 0.24 = false.
Proof. split_and!; vm_compute; reflexivity. Qed.

(** ** Pointer picker *)

Section Picker.

Context `{Host}.

Implicit Types (w : World) (c : Closure) (p : Planet).

(** With distinct mesh identities, [find] returns the planet that owns the
    mesh it is asked for. *)
Lemma find_planet_owner (ps : list Planet) p :
  NoDup (THREE.id ∘ mesh <$> ps) → p ∈ ps → find_planet ps (mesh p) = Some p.
Proof.
  unfold find_planet. induction ps as [|q ps IH]; intros Hnd Hin.
  - by apply not_elem_of_nil in Hin.
  - cbn in Hnd. apply NoDup_cons in Hnd as [Hq Hnd]. simpl.
    destruct (Nat.eqb_spec (THREE.id (mesh q)) (THREE.id (mesh p))) as [Heq|Hne].
    + apply elem_of_cons in Hin as [->|Hin]; [done|].
      exfalso. apply Hq. rewrite Heq.
      apply (list_elem_of_fmap_2 (THREE.id ∘ mesh) _ _ Hin).
    + apply elem_of_cons in Hin as [->|Hin]; [done|]. by apply IH.
Qed.

Lemma scene_ok_ids_NoDup c : scene_ok c → NoDup (THREE.id ∘ mesh <$> planets c).
Proof. intros (_ & -> & _). apply NoDup_ListNoDup, List.seq_NoDup. Qed.

(** The only listener a mounted page dispatches a pointer move to. *)
Lemma dispatch_mousemove_eq w i e :
  listeners w = [(mousemove, cb_onMouseMove i); (resize, cb_handleResize i)] →
  dispatch_mousemove e w = onMouseMove i e w.
Proof. intros Hl. unfold dispatch_mousemove. by rewrite Hl. Qed.

(** C6. On a pointer move the one registered handler stores the normalized
    coordinates, hands the raycaster exactly the eight planet meshes (the sun
    and the star field are not among them) and, given that the raycaster
    returns intersections of the objects it was handed ordered by distance,
    either shows the tooltip of the planet whose mesh is hit first, ten
    pixels off the pointer, or hides the tooltip when nothing is hit. *)
Theorem pointer_move_picks_nearest_planet w i c e :
  reachable w →
  effect_closure w = Some i →
  closures w !! i = Some c →
  let m := THREE.mkVector2 ((clientX e / innerWidth w) * 2 - 1)%float
                           ((- (clientY e / innerHeight w)) * 2 + 1)%float in
  let hits := intersectObjects m (camera c) (mesh <$> planets c) in
  Forall (λ h, THREE.object h ∈ (mesh <$> planets c)) hits →
  StronglySorted (λ a b, (THREE.distance a <=? THREE.distance b)%float = true) hits →
  ∃ w' c',
    step w (MouseMove e) = Some w'
    ∧ closures w' !! i = Some c'
    ∧ mouse c' = m
    ∧ planets c' = planets c
    ∧ descriptor ∘ data <$> planets c = planetsData
    ∧ length (mesh <$> planets c) = 8
    ∧ (sun c ∉ mesh <$> planets c)
    ∧ Forall (λ o, THREE.id o ≠ sun_id ∧ THREE.id o ≠ starField_id)
        (mesh <$> planets c)
    ∧ match hits with
      | [] =>
          tooltip w'
          = mkTooltip (style_left (tooltip w)) (style_top (tooltip w))
              (innerHTML (tooltip w)) (Some display_none)
      | hit :: rest =>
          ∃ p, p ∈ planets c
               ∧ mesh p = THREE.object hit
               ∧ Forall (λ h, (THREE.distance hit <=? THREE.distance h)%float = true) rest
               ∧ tooltip w'
                 = mkTooltip (Some (px (clientX e + 10)%float))
                     (Some (px (clientY e + 10)%float))
                     (name (descriptor (data p)))
                     (Some display_block)
      end.
Proof.
  intros Hw He Hi m hits Hobj Hsorted.
  apply reachable_page_ok in Hw as (Hcs & Hm & _).
  unfold mounted_ok in Hm. rewrite He in Hm.
  destruct Hm as (_ & Htr & _ & Hls & _).
  rewrite Forall_lookup in Hcs. destruct (Hcs _ _ Hi) as [Hscene _].
  pose proof (scene_ok_ids_NoDup c Hscene) as Hnd.
  destruct Hscene as (Hd & Hids & [Hsun _] & _).
  assert (Hlen : length (mesh <$> planets c) = 8).
  { rewrite length_fmap.
    rewrite <- (length_fmap (descriptor ∘ data) (planets c)), Hd. done. }
  assert (Hidsm : THREE.id <$> (mesh <$> planets c) = seq first_planet_id 8).
  { by rewrite <- list_fmap_compose. }
  assert (Hpick : Forall (λ o, THREE.id o ≠ sun_id ∧ THREE.id o ≠ starField_id)
                    (mesh <$> planets c)).
  { apply Forall_forall. intros o Ho.
    apply (list_elem_of_fmap_2 THREE.id) in Ho. rewrite Hidsm in Ho.
    apply list_elem_of_In, List.in_seq in Ho.
    unfold sun_id, starField_id, first_planet_id in *. lia. }
  simpl. rewrite (dispatch_mousemove_eq w i e Hls). unfold onMouseMove. rewrite Hi.
  eexists _, _. split; [done|]. cbn [closures set_tooltip set_closures].
  split; [apply list_lookup_insert_eq; by eapply lookup_lt_Some|].
  split; [done|]. split; [done|]. split; [done|]. split; [done|]. split.
  { intros Hin. rewrite Forall_forall in Hpick. destruct (Hpick _ Hin) as [Hne _].
    by rewrite Hsun in Hne. }
  split; [done|]. cbn [tooltip set_tooltip]. unfold show_tooltip.
  change (normalized e (innerWidth w) (innerHeight w)) with m.
  change (pickable c) with (mesh <$> planets c).
  rewrite Htr. unfold hits in *. clear hits.
  destruct (intersectObjects m (camera c) (mesh <$> planets c)) as [|hit rest];
    [done|].
  apply Forall_cons in Hobj as [Hhit _].
  apply list_elem_of_fmap in Hhit as (p & Hp & Hin).
  exists p. rewrite Hp, (find_planet_owner _ _ Hnd Hin).
  split; [done|]. split; [done|]. split; [|done].
  by apply StronglySorted_inv in Hsorted as [_ Hall].
Qed.

End Picker.

(** The theorem at a pointer move over Mercury on the mounted page. *)
Lemma pointer_move_picks_nearest_planet_witness :
  let w := Demo.mounted in
  let c := Demo.closure 0 Demo.mounted in
  let e := mkMouseEvent 742 360 in
  let m := THREE.mkVector2 ((clientX e / innerWidth w) * 2 - 1)%float
                           ((- (clientY e / innerHeight w)) * 2 + 1)%float in
  let hits := intersectObjects m (camera c) (mesh <$> planets c) in
  ∃ w' c',
    step w (MouseMove e) = Some w'
    ∧ closures w' !! 0 = Some c'
    ∧ mouse c' = m
    ∧ planets c' = planets c
    ∧ descriptor ∘ data <$> planets c = planetsData
    ∧ length (mesh <$> planets c) = 8
    ∧ (sun c ∉ mesh <$> planets c)
    ∧ Forall (λ o, THREE.id o ≠ sun_id ∧ THREE.id o ≠ starField_id)
        (mesh <$> planets c)
    ∧ match hits with
      | [] =>
          tooltip w'
          = mkTooltip (style_left (tooltip w)) (style_top (tooltip w))
              (innerHTML (tooltip w)) (Some display_none)
      | hit :: rest =>
          ∃ p, p ∈ planets c
               ∧ mesh p = THREE.object hit
               ∧ Forall (λ h, (THREE.distance hit <=? THREE.distance h)%float = true) rest
               ∧ tooltip w'
                 = mkTooltip (Some (px (clientX e + 10)%float))
                     (Some (px (clientY e + 10)%float))
                     (name (descriptor (data p)))
                     (Some display_block)
      end.
Proof.
  intros w c e m hits.
  apply (@pointer_move_picks_nearest_planet Mock.host w 0 c e).
  - exists 1280%float, 720%float, []. vm_compute. reflexivity.
  - vm_compute. reflexivity.
  - vm_compute. reflexivity.
  - vm_compute. constructor; [|constructor]. apply list_elem_of_here.
  - vm_compute. repeat constructor.
Defined.

(** On the mounted page the pointer at (742, 360) is over Mercury alone: the
    tooltip reads Mercury and sits at (752, 370). *)
Example pointer_over_mercury :
  THREE.id ∘ THREE.object
    <$> intersectObjects
          (normalized (mkMouseEvent 742 360) 1280 720)
          (camera (Demo.closure 0 Demo.mounted))
          (pickable (Demo.closure 0 Demo.mounted))
  = [first_planet_id]
  ∧ tooltip <$> step Demo.mounted (MouseMove (mkMouseEvent 742 360))
    = Some (mkTooltip (Some (px 752)) (Some (px 370)) "Mercury" (Some display_block))
  ∧ tooltip <$> step Demo.mounted (MouseMove (mkMouseEvent 10 10))
    = Some (mkTooltip None None "" (Some display_none)).
Proof. split_and!; vm_compute; reflexivity. Qed.

(** ** Binary64 products: the range of [Math.random() * Math.PI * 2]

    The primitive operations are specified by [SpecFloat]; multiplication
    rounds the exact product with [binary_round_aux]. *)

Section Binary64.

Local Open Scope Z_scope.

Lemma shr_1_nonneg m r s :
  0 ≤ m →
  shr_1 (Build_shr_record m r s) = Build_shr_record (Z.div2 m) (Z.odd m) (r || s).
Proof. destruct m as [|[p|p|]|p]; intros Hm; try reflexivity; lia. Qed.

Lemma shr_1_inv m k mrs :
  0 ≤ k →
  0 ≤ shr_m mrs →
  shr_m mrs * 2 ^ k ≤ m < (shr_m mrs + 1) * 2 ^ k →
  (shr_r mrs = true → 2 ^ k ≤ 2 * (m - shr_m mrs * 2 ^ k)) →
  0 ≤ shr_m (shr_1 mrs)
  ∧ shr_m (shr_1 mrs) * 2 ^ (k + 1) ≤ m < (shr_m (shr_1 mrs) + 1) * 2 ^ (k + 1)
  ∧ (shr_r (shr_1 mrs) = true → 2 ^ (k + 1) ≤ 2 * (m - shr_m (shr_1 mrs) * 2 ^ (k + 1))).
Proof.
  intros Hk Ha Hm Hr. destruct mrs as [a r s]. cbn [shr_m shr_r] in *.
  rewrite shr_1_nonneg by done. cbn [shr_m shr_r].
  rewrite Z.pow_add_r, Z.pow_1_r by lia.
  pose proof (Z.div2_odd a) as Hdiv.
  assert (0 < 2 ^ k) as Hp by (apply Z.pow_pos_nonneg; lia).
  set (q := Z.div2 a) in *. set (p := 2 ^ k) in *.
  destruct (Z.odd a); cbn [Z.b2z] in Hdiv.
  - repeat split; try nia.
  - repeat split; try nia.
Qed.

Lemma iter_pos_shr_1_inv n m k mrs :
  0 ≤ k →
  0 ≤ shr_m mrs →
  shr_m mrs * 2 ^ k ≤ m < (shr_m mrs + 1) * 2 ^ k →
  (shr_r mrs = true → 2 ^ k ≤ 2 * (m - shr_m mrs * 2 ^ k)) →
  0 ≤ shr_m (SpecFloat.iter_pos shr_1 n mrs)
  ∧ shr_m (SpecFloat.iter_pos shr_1 n mrs) * 2 ^ (k + Z.pos n) ≤ m
      < (shr_m (SpecFloat.iter_pos shr_1 n mrs) + 1) * 2 ^ (k + Z.pos n)
  ∧ (shr_r (SpecFloat.iter_pos shr_1 n mrs) = true →
     2 ^ (k + Z.pos n) ≤ 2 * (m - shr_m (SpecFloat.iter_pos shr_1 n mrs) * 2 ^ (k + Z.pos n))).
Proof.
  revert k mrs. induction n as [n IH|n IH|]; intros k mrs Hk Ha Hm Hr; cbn [SpecFloat.iter_pos].
  - destruct (shr_1_inv m k mrs Hk Ha Hm Hr) as (Ha1 & Hm1 & Hr1).
    destruct (IH (k + 1) _ ltac:(lia) Ha1 Hm1 Hr1) as (Ha2 & Hm2 & Hr2).
    destruct (IH (k + 1 + Z.pos n) _ ltac:(lia) Ha2 Hm2 Hr2) as (Ha3 & Hm3 & Hr3).
    replace (k + Z.pos n~1) with (k + 1 + Z.pos n + Z.pos n) by lia. done.
  - destruct (IH k _ Hk Ha Hm Hr) as (Ha2 & Hm2 & Hr2).
    destruct (IH (k + Z.pos n) _ ltac:(lia) Ha2 Hm2 Hr2) as (Ha3 & Hm3 & Hr3).
    replace (k + Z.pos n~0) with (k + Z.pos n + Z.pos n) by lia. done.
  - by apply shr_1_inv.
Qed.

Lemma digits2_pos_bounds p :
  2 ^ (Z.pos (digits2_pos p) - 1) ≤ Z.pos p < 2 ^ Z.pos (digits2_pos p).
Proof.
  induction p as [p IH|p IH|]; cbn [digits2_pos]; [| |done].
  - rewrite Pos2Z.inj_succ.
    replace (Z.succ (Z.pos (digits2_pos p)) - 1) with (Z.succ (Z.pos (digits2_pos p) - 1)) by lia.
    rewrite !Z.pow_succ_r by lia. lia.
  - rewrite Pos2Z.inj_succ.
    replace (Z.succ (Z.pos (digits2_pos p)) - 1) with (Z.succ (Z.pos (digits2_pos p) - 1)) by lia.
    rewrite !Z.pow_succ_r by lia. lia.
Qed.

Lemma round_nearest_even_bounds a r s :
  a ≤ round_nearest_even a (loc_of_shr_record (Build_shr_record a r s)) ≤ a + 1
  ∧ (r = false →
     round_nearest_even a (loc_of_shr_record (Build_shr_record a r s)) = a).
Proof. destruct r, s; cbn; try destruct (Z.even a); split; (lia || done). Qed.

Lemma SFltb_finite_pos m e B eb :
  e < eb ∨ (e = eb ∧ Z.pos m < Z.pos B) →
  SFltb (S754_finite false m e) (S754_finite false B eb) = true.
Proof.
  intros Hlt. unfold SFltb, SFcompare.
  destruct (Z.compare_spec e eb) as [Heq|Hl|Hg]; [|done|lia].
  destruct Hlt as [?|[_ Hm]]; [lia|].
  change (Pos.compare_cont Eq m B) with (Pos.compare m B).
  by rewrite (proj2 (Pos.compare_lt_iff m B)) by lia.
Qed.

(** The second shift of [binary_round_aux]: it renormalizes a mantissa that
    rounding carried to [2 ^ 53] and leaves any smaller one as it is. *)
Lemma renormalize_below m1 e1 (B : positive) eb mrs e2 :
  0 ≤ m1 ≤ 9007199254740992 →
  -1074 ≤ e1 → eb ≤ 971 →
  (m1 < 9007199254740992 → e1 < eb ∨ (e1 = eb ∧ m1 < Z.pos B)) →
  (m1 = 9007199254740992 →
   e1 + 1 < eb ∨ (e1 + 1 = eb ∧ 4503599627370496 < Z.pos B)) →
  shr_fexp prec emax m1 e1 loc_Exact = (mrs, e2) →
  let y := match shr_m mrs with
           | 0 => S754_zero false
           | Z.pos m =>
               if e2 <=? emax - prec then S754_finite false m e2
               else S754_infinity false
           | Z.neg _ => S754_nan
           end in
  SFltb y (S754_finite false B eb) = true ∧ SFleb (S754_zero false) y = true.
Proof.
  intros Hm1 He1 Heb Hsmall Hcarry.
  unfold shr_fexp, fexp, shr, emin, prec, emax.
  change (3 - 1024 - 53) with (-1074). change (1024 - 53) with 971.
  destruct m1 as [|q|q]; [| |lia]; cbn [Zdigits2 shr_record_of_loc].
  - destruct (_ - e1) as [|n|n] eqn:Hn; [|lia|]; intros ?; by simplify_eq.
  - destruct (Z.eq_dec (Z.pos q) 9007199254740992) as [Hq|Hq].
    + injection Hq as ->. change (digits2_pos 9007199254740992) with 54%positive.
      replace ((54 + e1 - 53) `max` (-1074) - e1) with 1 by lia.
      cbn. intros ?; simplify_eq. cbn [shr_m].
      destruct (Hcarry eq_refl) as [Hlt|[Heq HB]].
      * rewrite (proj2 (Z.leb_le (e1 + 1) 971)) by lia.
        split; [|done]. apply SFltb_finite_pos. lia.
      * rewrite (proj2 (Z.leb_le (e1 + 1) 971)) by lia.
        split; [|done]. apply SFltb_finite_pos. lia.
    + pose proof (digits2_pos_bounds q) as Hd.
      set (d := Z.pos (digits2_pos q)) in *.
      assert (d ≤ 53).
      { destruct (Z.le_gt_cases d 53) as [|Hgt]; [done|exfalso].
        assert (2 ^ 53 ≤ 2 ^ (d - 1)) by (apply Z.pow_le_mono_r; lia).
        change (2 ^ 53) with 9007199254740992 in *. lia. }
      destruct (_ - e1) as [|n|n] eqn:Hn; [|lia|]; intros ?; simplify_eq; cbn [shr_m].
      all: assert (Hlt := Hsmall ltac:(lia)).
      all: match goal with
           | |- context [?a <=? 971] => rewrite (proj2 (Z.leb_le a 971)) by lia
           end.
      all: split; [|done]; by apply SFltb_finite_pos.
Qed.

(** The first shift of [binary_round_aux] and the rounding that follows it,
    for a positive value below the midpoint under [B * 2 ^ eb]. *)
Lemma first_shift_below (mx : positive) (ex : Z) (B : positive) (eb : Z) mrs e1 :
  4503599627370496 ≤ Z.pos B < 9007199254740992 →
  ex ≤ eb → -1074 ≤ eb →
  2 * Z.pos mx < (2 * Z.pos B - 1) * 2 ^ (eb - ex) →
  shr_fexp prec emax (Z.pos mx) ex loc_Exact = (mrs, e1) →
  let m1 := round_nearest_even (shr_m mrs) (loc_of_shr_record mrs) in
  0 ≤ m1 ≤ 9007199254740992
  ∧ -1074 ≤ e1
  ∧ (m1 < 9007199254740992 → e1 < eb ∨ (e1 = eb ∧ m1 < Z.pos B))
  ∧ (m1 = 9007199254740992 →
     e1 + 1 < eb ∨ (e1 + 1 = eb ∧ 4503599627370496 < Z.pos B)).
Proof.
  intros HdB Hex Heb Hv.
  pose proof (digits2_pos_bounds mx) as Hd.
  unfold shr_fexp, fexp, shr, emin, prec, emax.
  cbn [Zdigits2 shr_record_of_loc]. change (3 - 1024 - 53) with (-1074).
  set (d := Z.pos (digits2_pos mx)) in *.
  set (e := Z.max (d + ex - 53) (-1074)).
  assert (He : e ≤ eb).
  { assert (d + ex - 53 ≤ eb); [|lia].
    destruct (Z.le_gt_cases (d + ex - 53) eb) as [|Hgt]; [done|exfalso].
    assert (Hpow : 2 ^ (53 + (eb - ex)) ≤ 2 ^ (d - 1))
      by (apply Z.pow_le_mono_r; lia).
    rewrite Z.pow_add_r in Hpow by lia.
    change (2 ^ 53) with 9007199254740992 in Hpow.
    assert (0 < 2 ^ (eb - ex)) by (apply Z.pow_pos_nonneg; lia).
    assert ((2 * Z.pos B - 1) * 2 ^ (eb - ex) ≤ 18014398509481983 * 2 ^ (eb - ex))
      by (apply Z.mul_le_mono_nonneg_r; lia).
    lia. }
  assert (Hshift : e - ex ≤ 0 ∨ ∃ n, e - ex = Z.pos n).
  { destruct (e - ex) as [|n|n]; [left; lia|right; by exists n|left; lia]. }
  destruct Hshift as [Hle|[n Hn]].
  - (* no shift: the value is representable as it is *)
    assert (Hm : Z.pos mx < 9007199254740992).
    { assert (2 ^ d ≤ 2 ^ 53) by (apply Z.pow_le_mono_r; lia).
      change (2 ^ 53) with 9007199254740992 in *. lia. }
    assert (Hres : match e - ex with
                   | Z.pos p => (SpecFloat.iter_pos shr_1 p
                                   (Build_shr_record (Z.pos mx) false false),
                                 ex + (e - ex))
                   | _ => (Build_shr_record (Z.pos mx) false false, ex)
                   end = (Build_shr_record (Z.pos mx) false false, ex)).
    { destruct (e - ex); [done|lia|done]. }
    rewrite Hres. intros ?; simplify_eq. cbn.
    split_and!; [lia..| |lia].
    intros _. destruct (Z.eq_dec e1 eb) as [->|]; [right|left; lia].
    rewrite Z.sub_diag in Hv. change (2 ^ 0) with 1 in Hv. lia.
  - rewrite Hn. intros ?; simplify_eq.
    destruct (iter_pos_shr_1_inv n (Z.pos mx) 0
                (Build_shr_record (Z.pos mx) false false))
      as (Ha & Hm & Hr); [lia|cbn; lia|cbn; lia|done|].
    rewrite Z.add_0_l in Hm, Hr.
    destruct (SpecFloat.iter_pos shr_1 n _) as [a r s]. cbn [shr_m shr_r] in *.
    destruct (round_nearest_even_bounds a r s) as [Hm1 Hm1r].
    set (m1 := round_nearest_even a _) in *. clearbody m1.
    assert (Hp : 0 < 2 ^ Z.pos n) by (apply Z.pow_pos_nonneg; lia).
    set (p := 2 ^ Z.pos n) in *.
    assert (Ha53 : a < 9007199254740992).
    { assert (Hpow : 2 ^ d ≤ 2 ^ (53 + Z.pos n)) by (apply Z.pow_le_mono_r; lia).
      rewrite Z.pow_add_r in Hpow by lia.
      change (2 ^ 53) with 9007199254740992 in Hpow. fold p in Hpow. nia. }
    assert (Hsplit : eb - ex = (eb - e) + Z.pos n) by lia.
    rewrite Hsplit, Z.pow_add_r in Hv by lia. fold p in Hv.
    replace (ex + Z.pos n) with e by lia.
    split_and!; [lia..| |].
    + intros _. destruct (Z.eq_dec e eb) as [Heq|]; [right|left; lia].
      split; [done|]. rewrite Heq, Z.sub_diag in Hv. change (2 ^ 0) with 1 in Hv.
      assert (a < Z.pos B) by nia.
      destruct r; [|rewrite Hm1r by done; lia].
      assert (a + 1 < Z.pos B ∨ a + 1 = Z.pos B) as [|Hab] by lia; [lia|exfalso].
      specialize (Hr eq_refl). nia.
    + intros ->. assert (Ha' : 9007199254740991 ≤ a) by lia.
      assert (e ≠ eb).
      { intros Heq. rewrite Heq, Z.sub_diag in Hv. change (2 ^ 0) with 1 in Hv. nia. }
      destruct (Z.eq_dec (e + 1) eb) as [Heq|]; [right|left; lia].
      split; [done|]. replace (eb - e) with 1 in Hv by lia.
      change (2 ^ 1) with 2 in Hv. nia.
Qed.

(** Rounding to nearest of a positive value that lies below the midpoint
    under the binary64 number [B * 2 ^ eb] gives a number below it. *)
Lemma binary_round_aux_below (mx : positive) (ex : Z) (B : positive) (eb : Z) :
  digits2_pos B = 53%positive →
  ex ≤ eb → -1074 ≤ eb ≤ 971 →
  2 * Z.pos mx < (2 * Z.pos B - 1) * 2 ^ (eb - ex) →
  SFltb (binary_round_aux prec emax false (Z.pos mx) ex loc_Exact)
    (S754_finite false B eb) = true
  ∧ SFleb (S754_zero false)
      (binary_round_aux prec emax false (Z.pos mx) ex loc_Exact) = true.
Proof.
  intros HB Hex Heb Hv.
  pose proof (digits2_pos_bounds B) as HdB. rewrite HB in HdB.
  change (2 ^ (53 - 1)) with 4503599627370496 in HdB.
  change (2 ^ 53) with 9007199254740992 in HdB.
  unfold binary_round_aux.
  destruct (shr_fexp prec emax (Z.pos mx) ex loc_Exact) as [mrs1 e1] eqn:H1.
  destruct (shr_fexp prec emax _ e1 loc_Exact) as [mrs2 e2] eqn:H2.
  destruct (first_shift_below mx ex B eb mrs1 e1) as (Hm1 & He1 & Hsmall & Hcarry);
    [done|done|lia|done|done|].
  by eapply renormalize_below; [| | | | |exact H2]; [done|done|lia|done|done].
Qed.

Lemma valid_binary_finite s m e :
  valid_binary (S754_finite s m e) = true →
  Z.pos m < 9007199254740992 ∧ (e = -52 → 4503599627370496 ≤ Z.pos m).
Proof.
  unfold SpecFloat.valid_binary, bounded, canonical_mantissa, fexp, emin, prec, emax.
  change (3 - 1024 - 53) with (-1074).
  intros Hv. apply andb_true_iff in Hv as [Hc _]. apply Z.eqb_eq in Hc.
  pose proof (digits2_pos_bounds m) as Hd.
  set (d := Z.pos (digits2_pos m)) in *. split.
  - assert (2 ^ d ≤ 2 ^ 53) by (apply Z.pow_le_mono_r; lia).
    change (2 ^ 53) with 9007199254740992 in *. lia.
  - intros ->. assert (d = 53) as Hd53 by lia. rewrite Hd53 in Hd.
    change (2 ^ (53 - 1)) with 4503599627370496 in Hd. lia.
Qed.

Lemma SFltb_finite_pos_inv m e B eb :
  SFltb (S754_finite false m e) (S754_finite false B eb) = true →
  e < eb ∨ (e = eb ∧ Z.pos m < Z.pos B).
Proof.
  unfold SFltb, SFcompare.
  destruct (Z.compare_spec e eb) as [->|?|?]; [right|left; lia|done].
  split; [done|].
  destruct (Pos.compare_cont Eq m B) eqn:Hc; try discriminate.
  apply (proj1 (Pos.compare_lt_iff m B)) in Hc. lia.
Qed.

Lemma below_one_exponent m e :
  valid_binary (S754_finite false m e) = true →
  SFltb (S754_finite false m e) (S754_finite false 4503599627370496 (-52)) = true →
  Z.pos m < 9007199254740992 ∧ e ≤ -53.
Proof.
  intros Hv Hlt. apply valid_binary_finite in Hv as [Hm Hm52].
  apply SFltb_finite_pos_inv in Hlt as [?|[-> ?]]; [lia|].
  specialize (Hm52 eq_refl). lia.
Qed.

(** The two products of [Math.random() * Math.PI * 2] on mantissas. *)
Lemma times_PI_below m e :
  Z.pos m < 9007199254740992 → e ≤ -53 →
  2 * Z.pos (m * 7074237752028440)
  < (2 * 7074237752028440 - 1) * 2 ^ (-51 - (e + -51)).
Proof.
  intros Hm He.
  replace (-51 - (e + -51)) with (53 + (- e - 53)) by lia.
  rewrite Z.pow_add_r by lia. change (2 ^ 53) with 9007199254740992.
  assert (0 < 2 ^ (- e - 53)) by (apply Z.pow_pos_nonneg; lia).
  rewrite Pos2Z.inj_mul. nia.
Qed.

Lemma times_two_below m e :
  Z.pos m < 9007199254740992 →
  e < -51 ∨ (e = -51 ∧ Z.pos m < 7074237752028440) →
  2 * Z.pos (m * 4503599627370496)
  < (2 * 7074237752028440 - 1) * 2 ^ (-50 - (e + -51)).
Proof.
  intros Hm He. rewrite Pos2Z.inj_mul. destruct He as [He|[-> Hm']].
  - replace (-50 - (e + -51)) with (53 + (- e - 52)) by lia.
    rewrite Z.pow_add_r by lia. change (2 ^ 53) with 9007199254740992.
    assert (0 < 2 ^ (- e - 52)) by (apply Z.pow_pos_nonneg; lia). nia.
  - change (2 ^ (-50 - (-51 + -51))) with 4503599627370496. lia.
Qed.

(** [Math.random() * Math.PI * 2] for a draw in [0, 1). *)
Lemma random_angle_in_range (r : float) :
  (0 <=? r)%float = true → (r <? 1)%float = true →
  (0 <=? r * JS.Math_PI * 2)%float = true
  ∧ (r * JS.Math_PI * 2 <? JS.Math_PI * 2)%float = true.
Proof.
  rewrite !leb_spec, !ltb_spec, !mul_spec.
  change (Prim2SF 0) with (S754_zero false).
  change (Prim2SF 1) with (S754_finite false 4503599627370496 (-52)).
  change (Prim2SF JS.Math_PI) with (S754_finite false 7074237752028440 (-51)).
  change (Prim2SF 2) with (S754_finite false 4503599627370496 (-51)).
  change (SF64mul (S754_finite false 7074237752028440 (-51))
            (S754_finite false 4503599627370496 (-51)))
    with (S754_finite false 7074237752028440 (-50)).
  pose proof (Prim2SF_valid r) as Hvr.
  pose proof (Prim2SF_valid (r * JS.Math_PI)) as Hvy. rewrite mul_spec in Hvy.
  change (Prim2SF JS.Math_PI) with (S754_finite false 7074237752028440 (-51)) in Hvy.
  destruct (Prim2SF r) as [s|s| |s m e]; intros H0 H1.
  - by destruct s.
  - by destruct s.
  - done.
  - destruct s; [done|].
    destruct (below_one_exponent m e Hvr H1) as [Hm He]. clear H0 H1 Hvr.
    change (SF64mul (S754_finite false m e)
              (S754_finite false 7074237752028440 (-51)))
      with (binary_round_aux prec emax false (Z.pos (m * 7074237752028440))
              (e + -51) loc_Exact) in *.
    destruct (binary_round_aux_below (m * 7074237752028440) (e + -51)
                7074237752028440 (-51)) as [Hlt Hle];
      [done|lia|lia|by apply times_PI_below|].
    destruct (binary_round_aux prec emax false _ (e + -51) loc_Exact)
      as [s'|s'| |s' m' e'].
    + by destruct s'.
    + by destruct s'.
    + done.
    + destruct s'; [done|].
      apply valid_binary_finite in Hvy as [Hm' _].
      apply SFltb_finite_pos_inv in Hlt.
      change (SF64mul (S754_finite false m' e')
                (S754_finite false 4503599627370496 (-51)))
        with (binary_round_aux prec emax false (Z.pos (m' * 4503599627370496))
                (e' + -51) loc_Exact).
      destruct (binary_round_aux_below (m' * 4503599627370496) (e' + -51)
                  7074237752028440 (-50)) as [Hlt2 Hle2];
        [done|lia|lia|by apply times_two_below|done].
Qed.

End Binary64.

(** ** Rounding a product to binary64: the error *)

Section Rounding.

Local Open Scope Z_scope.

Lemma shr_1_shifted m k mrs :
  0 ≤ k → shifted m k mrs → shifted m (k + 1) (shr_1 mrs).
Proof.
  intros Hk (Ha & Hrem & Hr1 & Hr0 & Hs0 & Hs1).
  destruct mrs as [a r s]. cbn [shr_m shr_r shr_s] in *.
  rewrite shr_1_nonneg by done. unfold shifted. cbn [shr_m shr_r shr_s].
  rewrite Z.pow_add_r, Z.pow_1_r by lia.
  pose proof (Z.div2_odd a) as Hdiv.
  assert (0 < 2 ^ k) as Hp by (apply Z.pow_pos_nonneg; lia).
  set (q := Z.div2 a) in *. set (p := 2 ^ k) in *. clearbody q p.
  destruct (Z.odd a); cbn [Z.b2z] in Hdiv; subst a.
  all: split_and!; intros; try discriminate; try nia.
  all: match goal with
       | H : (_ || _)%bool = false |- _ => apply orb_false_iff in H as [-> ->]
       end.
  all: specialize (Hs0 eq_refl eq_refl); nia.
Qed.

Lemma iter_pos_shr_1_shifted n m k mrs :
  0 ≤ k → shifted m k mrs →
  shifted m (k + Z.pos n) (SpecFloat.iter_pos shr_1 n mrs).
Proof.
  revert k mrs. induction n as [n IH|n IH|]; intros k mrs Hk Hs; cbn [SpecFloat.iter_pos].
  - replace (k + Z.pos n~1) with (k + 1 + Z.pos n + Z.pos n) by lia.
    apply IH; [lia|]. apply IH; [lia|]. by apply shr_1_shifted.
  - replace (k + Z.pos n~0) with (k + Z.pos n + Z.pos n) by lia.
    apply IH; [lia|]. by apply IH.
  - by apply shr_1_shifted.
Qed.

Lemma round_nearest_even_error m k mrs :
  0 ≤ k → shifted m k mrs →
  0 ≤ round_nearest_even (shr_m mrs) (loc_of_shr_record mrs)
  ∧ 2 * Z.abs (round_nearest_even (shr_m mrs) (loc_of_shr_record mrs) * 2 ^ k - m)
    ≤ 2 ^ k.
Proof.
  intros Hk (Ha & Hrem & Hr1 & Hr0 & Hs0 & Hs1).
  destruct mrs as [a r s]. cbn [shr_m shr_r shr_s] in *.
  assert (0 < 2 ^ k) as Hp by (apply Z.pow_pos_nonneg; lia).
  set (p := 2 ^ k) in *.
  destruct r, s; cbn [loc_of_shr_record round_nearest_even].
  - specialize (Hr1 eq_refl). split; [lia|]. nia.
  - specialize (Hs1 eq_refl eq_refl). destruct (Z.even a); split; try lia; nia.
  - specialize (Hr0 eq_refl). split; [lia|]. nia.
  - specialize (Hs0 eq_refl eq_refl). split; [lia|]. nia.
Qed.

Lemma first_shift_error (mx : positive) (ex : Z) mrs e1 :
  Z.pos (digits2_pos mx) + ex ≤ 6 →
  shr_fexp prec emax (Z.pos mx) ex loc_Exact = (mrs, e1) →
  ∃ n, 0 ≤ n ∧ e1 = ex + n
       ∧ 0 ≤ round_nearest_even (shr_m mrs) (loc_of_shr_record mrs) ≤ 9007199254740992
       ∧ -1074 ≤ e1 ≤ 5
       ∧ 2 * Z.abs (round_nearest_even (shr_m mrs) (loc_of_shr_record mrs) * 2 ^ n
                    - Z.pos mx)
         ≤ (if n =? 0 then 0 else 2 ^ n)
       ∧ (0 < n → e1 ≤ -47).
Proof.
  intros Hv.
  pose proof (digits2_pos_bounds mx) as Hd.
  unfold shr_fexp, fexp, shr, emin, prec, emax.
  cbn [Zdigits2 shr_record_of_loc]. change (3 - 1024 - 53) with (-1074).
  set (d := Z.pos (digits2_pos mx)) in *.
  assert (Hd1 : 1 ≤ d) by (unfold d; lia).
  set (e := Z.max (d + ex - 53) (-1074)).
  assert (Hshift : e - ex ≤ 0 ∨ ∃ n, e - ex = Z.pos n).
  { destruct (e - ex) as [|n|n]; [left; lia|right; by exists n|left; lia]. }
  destruct Hshift as [Hle|[n Hn]].
  - assert (Hm : Z.pos mx < 9007199254740992).
    { assert (2 ^ d ≤ 2 ^ 53) by (apply Z.pow_le_mono_r; lia).
      change (2 ^ 53) with 9007199254740992 in *. lia. }
    assert (Hres : match e - ex with
                   | Z.pos p => (SpecFloat.iter_pos shr_1 p
                                   (Build_shr_record (Z.pos mx) false false),
                                 ex + (e - ex))
                   | _ => (Build_shr_record (Z.pos mx) false false, ex)
                   end = (Build_shr_record (Z.pos mx) false false, ex)).
    { destruct (e - ex); [done|lia|done]. }
    rewrite Hres. intros ?; simplify_eq. cbn [shr_m loc_of_shr_record round_nearest_even].
    exists 0. cbn [Z.eqb]. change (2 ^ 0) with 1. split_and!; try lia.
  - rewrite Hn. intros ?; simplify_eq.
    pose proof (iter_pos_shr_1_shifted n (Z.pos mx) 0
                  (Build_shr_record (Z.pos mx) false false)) as Hs.
    rewrite Z.add_0_l in Hs.
    assert (Hs' : shifted (Z.pos mx) (Z.pos n)
                    (SpecFloat.iter_pos shr_1 n (Build_shr_record (Z.pos mx) false false))).
    { apply Hs; [lia|]. unfold shifted. cbn [shr_m shr_r shr_s].
      change (2 ^ 0) with 1. split_and!; intros; try discriminate; lia. }
    clear Hs.
    destruct (round_nearest_even_error (Z.pos mx) (Z.pos n) _ ltac:(lia) Hs')
      as [Hm0 Herr].
    destruct Hs' as (Ha & Hrem & _).
    set (mrs := SpecFloat.iter_pos shr_1 n _) in *. clearbody mrs.
    set (m1 := round_nearest_even (shr_m mrs) (loc_of_shr_record mrs)) in *.
    clearbody m1. set (a := shr_m mrs) in *. clearbody a.
    assert (Hp : 0 < 2 ^ Z.pos n) by (apply Z.pow_pos_nonneg; lia).
    assert (Hpow : 2 ^ d ≤ 2 ^ (53 + Z.pos n)) by (apply Z.pow_le_mono_r; lia).
    rewrite Z.pow_add_r in Hpow by lia.
    change (2 ^ 53) with 9007199254740992 in Hpow.
    pose proof Herr as Herr'.
    set (p := 2 ^ Z.pos n) in Hp, Hpow, Hrem, Herr. clearbody p.
    exists (Z.pos n). cbn [Z.eqb]. split_and!; try lia; try nia.
Qed.

End Rounding.

Section RoundingValue.

Local Open Scope Z_scope.

Lemma Qpow2_pos (z : Z) : (0 < 2 ^ z)%Q.
Proof. by apply Qpower_0_lt. Qed.

Lemma Qpow2_add (a b : Z) : (2 ^ (a + b) == 2 ^ a * 2 ^ b)%Q.
Proof. by apply Qpower_plus. Qed.

Lemma Qpow2_inject (n : Z) : (0 ≤ n)%Z → (inject_Z (2 ^ n) == 2 ^ n)%Q.
Proof. intros Hn. by rewrite Zpower_Qpower. Qed.

Lemma Qpow2_le (a b : Z) : (a ≤ b)%Z → (2 ^ a <= 2 ^ b)%Q.
Proof. intros Hab. by apply Qpower_le_compat_l. Qed.

(** The second shift of [binary_round_aux] keeps the value. *)
Lemma renormalize_value m1 e1 mrs e2 :
  (0 ≤ m1 ≤ 9007199254740992)%Z → (-1074 ≤ e1 ≤ 5)%Z →
  shr_fexp prec emax m1 e1 loc_Exact = (mrs, e2) →
  (JS.SF2Q match shr_m mrs with
        | 0%Z => S754_zero false
        | Z.pos m =>
            if (e2 <=? emax - prec)%Z then S754_finite false m e2
            else S754_infinity false
        | Z.neg _ => S754_nan
        end == inject_Z m1 * 2 ^ e1)%Q.
Proof.
  intros Hm1 He1.
  unfold shr_fexp, fexp, shr, emin, prec, emax.
  change (3 - 1024 - 53)%Z with (-1074)%Z. change (1024 - 53)%Z with 971%Z.
  destruct m1 as [|q|q]; [| |lia]; cbn [Zdigits2 shr_record_of_loc].
  - destruct (_ - e1)%Z as [|n|n] eqn:Hn; [|lia|]; intros ?; simplify_eq;
      cbn [shr_m JS.SF2Q]; ring.
  - destruct (Z.eq_dec (Z.pos q) 9007199254740992) as [Hq|Hq].
    + injection Hq as ->. change (digits2_pos 9007199254740992) with 54%positive.
      replace ((54 + e1 - 53) `max` (-1074) - e1)%Z with 1%Z by lia.
      cbn. intros ?; simplify_eq. cbn [shr_m].
      rewrite (proj2 (Z.leb_le (e1 + 1) 971)) by lia. cbn [JS.SF2Q].
      rewrite Qpow2_add. change (2 ^ 1)%Q with 2%Q.
      change (inject_Z 9007199254740992) with (inject_Z 4503599627370496 * 2)%Q.
      ring.
    + pose proof (digits2_pos_bounds q) as Hd.
      set (d := Z.pos (digits2_pos q)) in *.
      assert (d ≤ 53)%Z.
      { destruct (Z.le_gt_cases d 53) as [|Hgt]; [done|exfalso].
        assert (2 ^ 53 ≤ 2 ^ (d - 1))%Z by (apply Z.pow_le_mono_r; lia).
        change (2 ^ 53)%Z with 9007199254740992%Z in *. lia. }
      destruct (_ - e1)%Z as [|n|n] eqn:Hn; [|lia|]; intros ?; simplify_eq; cbn [shr_m].
      all: match goal with
           | |- context [(?a <=? 971)%Z] => rewrite (proj2 (Z.leb_le a 971)) by lia
           end.
      all: cbn [JS.SF2Q]; ring.
Qed.

(** A dyadic number and a difference of two of them, from [Z] to [Q]. *)
Lemma Qdyadic_diff (m1 mx n ex : Z) :
  0 ≤ n →
  (inject_Z m1 * 2 ^ (ex + n) - inject_Z mx * 2 ^ ex
   == 2 ^ ex * inject_Z (m1 * 2 ^ n - mx))%Q.
Proof.
  intros Hn. rewrite Qpow2_add. unfold Z.sub.
  rewrite inject_Z_plus, inject_Z_mult, inject_Z_opp, Qpow2_inject by done. ring.
Qed.

(** Rounding a positive value below 64 to binary64 moves it by 2 ^ -48 at
    most. *)
Lemma binary_round_aux_error (mx : positive) (ex : Z) :
  Z.pos (digits2_pos mx) + ex ≤ 6 →
  (Qabs (JS.SF2Q (binary_round_aux prec emax false (Z.pos mx) ex loc_Exact)
         - inject_Z (Z.pos mx) * 2 ^ ex) <= 2 ^ (-48))%Q.
Proof.
  intros Hv. unfold binary_round_aux.
  destruct (shr_fexp prec emax (Z.pos mx) ex loc_Exact) as [mrs1 e1] eqn:H1.
  destruct (shr_fexp prec emax _ e1 loc_Exact) as [mrs2 e2] eqn:H2.
  destruct (first_shift_error mx ex mrs1 e1 Hv H1)
    as (n & Hn & He1 & Hm1 & He1b & Herr & Hsmall).
  rewrite (renormalize_value _ e1 mrs2 e2 Hm1 He1b H2).
  set (m1 := round_nearest_even _ _) in *. clearbody m1. subst e1.
  rewrite Qdyadic_diff by done.
  rewrite Qabs_Qmult, (Qabs_pos (2 ^ ex)) by (apply Qlt_le_weak, Qpow2_pos).
  change (Qabs (inject_Z (m1 * 2 ^ n - Z.pos mx)))
    with (inject_Z (Z.abs (m1 * 2 ^ n - Z.pos mx))).
  destruct (Z.eqb_spec n 0) as [->|Hn0].
  - assert (Z.abs (m1 * 2 ^ 0 - Z.pos mx) = 0) as -> by lia.
    rewrite Qmult_0_r. apply Qlt_le_weak, Qpow2_pos.
  - assert (Hle : (inject_Z (2 * Z.abs (m1 * 2 ^ n - Z.pos mx)) <= inject_Z (2 ^ n))%Q)
      by (by rewrite <- Zle_Qle).
    rewrite inject_Z_mult, Qpow2_inject in Hle by done.
    set (z := inject_Z (Z.abs (m1 * 2 ^ n - Z.pos mx))) in *. clearbody z.
    assert (Hpe : (2 ^ ex * 2 ^ n <= 2 * 2 ^ (-48))%Q).
    { rewrite <- Qpow2_add.
      assert (2 * 2 ^ (-48) == 2 ^ (-47))%Q as -> by reflexivity.
      apply Qpow2_le. lia. }
    pose proof (Qpow2_pos ex) as Hp. pose proof (Qpow2_pos n) as Hpn.
    set (a := (2 ^ ex)%Q) in *. set (b := (2 ^ n)%Q) in *. clearbody a b.
    change (inject_Z 2) with 2%Q in Hle.
    set (c := (2 ^ (-48))%Q) in *. clearbody c. nra.
Qed.

End RoundingValue.

Section Products.

Local Open Scope Z_scope.

Lemma binary_round_aux_opp m e l :
  binary_round_aux prec emax true m e l
  = SFopp (binary_round_aux prec emax false m e l).
Proof.
  unfold binary_round_aux. destruct (shr_fexp prec emax m e l) as [mrs' e'].
  destruct (shr_fexp prec emax _ e' loc_Exact) as [mrs'' e''].
  destruct (shr_m mrs''); [done| |done]. by destruct (e'' <=? emax - prec).
Qed.

Lemma SF2Q_opp x : (JS.SF2Q (SFopp x) == - JS.SF2Q x)%Q.
Proof. destruct x as [| | |[] m e]; cbn [SFopp JS.SF2Q negb]; ring. Qed.

Lemma digits2_pos_mul a b :
  Z.pos (digits2_pos (a * b)) ≤ Z.pos (digits2_pos a) + Z.pos (digits2_pos b).
Proof.
  pose proof (digits2_pos_bounds a) as [_ Ha].
  pose proof (digits2_pos_bounds b) as [_ Hb].
  pose proof (digits2_pos_bounds (a * b)) as [Hab _].
  set (da := Z.pos (digits2_pos a)) in *. set (db := Z.pos (digits2_pos b)) in *.
  set (d := Z.pos (digits2_pos (a * b))) in *.
  destruct (Z.le_gt_cases d (da + db)) as [|Hgt]; [done|exfalso].
  assert (2 ^ (da + db) ≤ 2 ^ (d - 1)) by (apply Z.pow_le_mono_r; lia).
  rewrite Z.pow_add_r in * by lia. rewrite Pos2Z.inj_mul in Hab. nia.
Qed.

Lemma SFleb_finite_pos_inv m e B eb :
  SFleb (S754_finite false m e) (S754_finite false B eb) = true →
  e < eb ∨ (e = eb ∧ Z.pos m ≤ Z.pos B).
Proof.
  unfold SFleb, SFcompare.
  destruct (Z.compare_spec e eb) as [->|?|?]; [right|left; lia|done].
  split; [done|].
  destruct (Pos.compare_cont Eq m B) eqn:Hc; try discriminate.
  - apply Pos.compare_eq in Hc. lia.
  - apply (proj1 (Pos.compare_lt_iff m B)) in Hc. lia.
Qed.

(** A binary64 value that compares below a normal one: its size and its
    value. *)
Lemma finite_below s m e B eb :
  valid_binary (S754_finite s m e) = true →
  SFleb (S754_finite false m e) (S754_finite false B eb) = true →
  4503599627370496 ≤ Z.pos B →
  Z.pos (digits2_pos m) + e ≤ 53 + eb
  ∧ (inject_Z (Z.pos m) * 2 ^ e <= inject_Z (Z.pos B) * 2 ^ eb)%Q.
Proof.
  intros Hv Hle HB. apply valid_binary_finite in Hv as [Hm _].
  apply SFleb_finite_pos_inv in Hle.
  pose proof (digits2_pos_bounds m) as Hd.
  set (d := Z.pos (digits2_pos m)) in *.
  assert (d ≤ 53).
  { destruct (Z.le_gt_cases d 53) as [|Hgt]; [done|exfalso].
    assert (2 ^ 53 ≤ 2 ^ (d - 1)) by (apply Z.pow_le_mono_r; lia).
    change (2 ^ 53) with 9007199254740992 in *. lia. }
  split; [lia|].
  pose proof (Qpow2_pos e) as He. pose proof (Qpow2_pos eb) as Heb.
  destruct Hle as [Hlt|[-> Hle]].
  - assert (Hp : (2 * 2 ^ e <= 2 ^ eb)%Q).
    { assert (2 * 2 ^ e == 2 ^ (1 + e))%Q as -> by (by rewrite Qpow2_add).
      apply Qpow2_le. lia. }
    assert (Hm' : (inject_Z (Z.pos m) <= 2 * inject_Z 4503599627370496)%Q).
    { assert (2 * inject_Z 4503599627370496 == inject_Z 9007199254740992)%Q as ->
        by reflexivity.
      rewrite <- Zle_Qle. lia. }
    assert (HB' : (inject_Z 4503599627370496 <= inject_Z (Z.pos B))%Q)
      by (by rewrite <- Zle_Qle).
    assert (H0 : (0 <= inject_Z 4503599627370496)%Q) by done.
    set (a := inject_Z (Z.pos m)) in *. set (b := inject_Z (Z.pos B)) in *.
    set (c := inject_Z 4503599627370496) in *.
    set (p := (2 ^ e)%Q) in *. set (q := (2 ^ eb)%Q) in *.
    clearbody a b c p q. nra.
  - apply Qmult_le_compat_r; [by rewrite <- Zle_Qle|by apply Qlt_le_weak].
Qed.

(** The product of a value of size at most 1 and a value in [0, 22] is off the
    exact product by 2 ^ -48 at most. *)
Lemma SFmul_error x y :
  valid_binary x = true → valid_binary y = true →
  SFleb (SFabs x) (S754_finite false 4503599627370496 (-52)) = true →
  SFleb (S754_zero false) y = true →
  SFleb y (S754_finite false 6192449487634432 (-48)) = true →
  (Qabs (JS.SF2Q (SFmul prec emax x y) - JS.SF2Q x * JS.SF2Q y) <= 2 ^ (-48))%Q.
Proof.
  intros Hvx Hvy Hx Hy0 Hy.
  assert (H0 : (Qabs (0 - 0) <= 2 ^ (-48))%Q) by done.
  destruct y as [sy|[]| |[] my ey]; try done;
    destruct x as [sx|[]| |sx mx ex]; try done; cbn [SFmul JS.SF2Q SFabs] in *.
  all: try (by rewrite ?Qmult_0_l, ?Qmult_0_r).
  destruct (finite_below _ _ _ _ _ Hvx Hx ltac:(lia)) as [Hdx _].
  destruct (finite_below _ _ _ _ _ Hvy Hy ltac:(lia)) as [Hdy _].
  pose proof (digits2_pos_mul mx my) as Hd.
  pose proof (binary_round_aux_error (mx * my) (ex + ey) ltac:(lia)) as Herr.
  rewrite Pos2Z.inj_mul, inject_Z_mult, Qpow2_add in Herr.
  destruct sx; cbn [xorb].
  - rewrite binary_round_aux_opp, SF2Q_opp.
    set (r := JS.SF2Q _) in *. clearbody r.
    rewrite <- Qabs_opp.
    eapply Qle_trans; [|exact Herr]. apply Qle_lteq. right.
    apply Qabs_wd. ring.
  - set (r := JS.SF2Q _) in *. clearbody r.
    eapply Qle_trans; [|exact Herr]. apply Qle_lteq. right.
    apply Qabs_wd. ring.
Qed.

End Products.

Section Radius.

Local Open Scope Q_scope.

Lemma Qabs_bounds x y : Qabs x <= y → - y <= x ∧ x <= y.
Proof. apply Qabs_Qle_condition. Qed.

Lemma radius_bound (c s d X Z δ η : Q) :
  Qabs c <= 1 → Qabs s <= 1 → 0 <= d → d <= 22 →
  Qabs (c * c + s * s - 1) <= δ →
  Qabs (X - c * d) <= η → Qabs (Z - s * d) <= η →
  Qabs (X * X + Z * Z - d * d) <= d * d * δ + 88 * η + 2 * (η * η).
Proof.
  intros [Hc1 Hc2]%Qabs_bounds [Hs1 Hs2]%Qabs_bounds Hd0 Hd
    [Hu1 Hu2]%Qabs_bounds [Hx1 Hx2]%Qabs_bounds [Hz1 Hz2]%Qabs_bounds.
  set (e1 := X - c * d) in *. set (e2 := Z - s * d) in *.
  set (u := c * c + s * s - 1) in *.
  assert (HX : X == c * d + e1) by (unfold e1; ring).
  assert (HZ : Z == s * d + e2) by (unfold e2; ring).
  assert (Heq : X * X + Z * Z - d * d
                == d * d * u + 2 * (d * (c * e1 + s * e2)) + (e1 * e1 + e2 * e2))
    by (rewrite HX, HZ; unfold u; ring).
  clearbody e1 e2 u. rewrite Heq. clear Heq HX HZ X Z.
  assert (Hη : 0 <= η) by lra.
  assert (- η <= c * e1 ∧ c * e1 <= η) as [? ?] by (split; nra).
  assert (- η <= s * e2 ∧ s * e2 <= η) as [? ?] by (split; nra).
  assert (0 <= e1 * e1 ∧ e1 * e1 <= η * η) as [? ?] by (split; nra).
  assert (0 <= e2 * e2 ∧ e2 * e2 <= η * η) as [? ?] by (split; nra).
  set (t := c * e1 + s * e2) in *.
  assert (- (2 * η) <= t ∧ t <= 2 * η) as [? ?] by (unfold t; split; lra).
  clearbody t.
  assert (- (44 * η) <= d * t ∧ d * t <= 44 * η) as [? ?] by (split; nra).
  assert (0 <= d * d) by nra.
  assert (- (d * d * δ) <= d * d * u ∧ d * d * u <= d * d * δ) as [? ?] by (split; nra).
  apply Qabs_Qle_condition. split; lra.
Qed.

End Radius.

Section FloatProducts.

Lemma value_abs_le_one (c : float) :
  (abs c <=? 1)%float = true → (Qabs (JS.value c) <= 1)%Q.
Proof.
  rewrite leb_spec, abs_spec. unfold JS.value.
  pose proof (Prim2SF_valid c) as Hv.
  change (Prim2SF 1) with (S754_finite false 4503599627370496 (-52)).
  destruct (Prim2SF c) as [|[]| |sc m e]; try done; cbn [SFabs JS.SF2Q]; intros Hle.
  destruct (finite_below _ _ _ _ _ Hv Hle ltac:(lia)) as [_ Hq].
  assert (H1 : (inject_Z 4503599627370496 * 2 ^ (-52) == 1)%Q) by reflexivity.
  rewrite H1 in Hq.
  pose proof (Qpow2_pos e).
  assert (0 <= inject_Z (Z.pos m))%Q by (by rewrite <- (Zle_Qle 0); lia).
  set (a := inject_Z (Z.pos m)) in *. set (p := (2 ^ e)%Q) in *. clearbody a p.
  apply Qabs_Qle_condition. destruct sc; split; nra.
Qed.

Lemma value_distance (d : float) :
  (0 <=? d)%float = true → (d <=? 22)%float = true →
  (0 <= JS.value d ∧ JS.value d <= 22)%Q.
Proof.
  rewrite !leb_spec. unfold JS.value.
  pose proof (Prim2SF_valid d) as Hv.
  change (Prim2SF 0) with (S754_zero false).
  change (Prim2SF 22) with (S754_finite false 6192449487634432 (-48)).
  destruct (Prim2SF d) as [|[]| |[] m e]; try done; cbn [JS.SF2Q]; intros _ Hle.
  destruct (finite_below _ _ _ _ _ Hv Hle ltac:(lia)) as [_ Hq].
  assert (H1 : (inject_Z 6192449487634432 * 2 ^ (-48) == 22)%Q) by reflexivity.
  rewrite H1 in Hq.
  pose proof (Qpow2_pos e).
  assert (0 <= inject_Z (Z.pos m))%Q by (by rewrite <- (Zle_Qle 0); lia).
  set (a := inject_Z (Z.pos m)) in *. set (p := (2 ^ e)%Q) in *. clearbody a p.
  split; nra.
Qed.

Lemma mul_error (c d : float) :
  (abs c <=? 1)%float = true → (0 <=? d)%float = true → (d <=? 22)%float = true →
  (Qabs (JS.value (c * d) - JS.value c * JS.value d) <= 2 ^ (-48))%Q.
Proof.
  rewrite !leb_spec, abs_spec. unfold JS.value. rewrite mul_spec. intros Hc Hd0 Hd.
  apply SFmul_error; [apply Prim2SF_valid|apply Prim2SF_valid|done..].
Qed.

(** Binary64 products of a point near the unit circle and a distance in
    [0, 22] lie near the circle of that radius. *)
Lemma on_orbit_within (δ : Q) (c s d : float) :
  unit_within δ c s →
  (0 <=? d)%float = true → (d <=? 22)%float = true →
  (Qabs (JS.value (c * d) * JS.value (c * d) + JS.value (s * d) * JS.value (s * d)
         - JS.value d * JS.value d)
   <= JS.value d * JS.value d * δ + 2 ^ (-41))%Q.
Proof.
  intros (Hc & Hs & Hu) Hd0 Hd.
  pose proof (radius_bound _ _ _ _ _ _ _
    (value_abs_le_one c Hc) (value_abs_le_one s Hs)
    (proj1 (value_distance d Hd0 Hd)) (proj2 (value_distance d Hd0 Hd)) Hu
    (mul_error c d Hc Hd0 Hd) (mul_error s d Hs Hd0 Hd)) as Hr.
  eapply Qle_trans; [exact Hr|].
  assert (88 * 2 ^ (-48) + 2 * (2 ^ (-48) * 2 ^ (-48)) <= 2 ^ (-41))%Q by done.
  lra.
Qed.

End FloatProducts.

(** ** Planets of an unpaused scene stay near their orbits *)

Section OrbitRadius.

Context `{Host}.

Lemma planetsData_distances :
  Forall (λ d, (0 <=? distance d)%float = true ∧ (distance d <=? 22)%float = true)
    planetsData.
Proof. repeat constructor. Qed.

(** C9 (as amended). On every page the component reaches, a closure whose
    captured pause flag is false holds the eight planets of [planetsData],
    each at [(cos(angle) * distance, 0, sin(angle) * distance)] for its
    current angle, around the sun and the light at the origin.  The radius
    identity holds up to rounding: where the host's cosine and sine of the
    angle lie within [δ] of the unit circle, the exact value of
    [x * x + z * z] of the stored coordinates is within
    [distance * distance * δ + 2 ^ -41] of [distance * distance]. *)
Theorem unpaused_planets_stay_on_orbit w i c (δ : Q) :
  reachable w →
  closures w !! i = Some c →
  env_isPaused c = false →
  descriptor ∘ data <$> planets c = planetsData
  ∧ THREE.position (sun c) = THREE.origin
  ∧ light c = THREE.origin
  ∧ Forall (λ p,
      THREE.position (mesh p)
      = THREE.mkVector3
          (Math_cos (angle (data p)) * distance (descriptor (data p)))%float
          0
          (Math_sin (angle (data p)) * distance (descriptor (data p)))%float)
      (planets c)
  ∧ Forall (λ p,
      unit_within δ (Math_cos (angle (data p))) (Math_sin (angle (data p))) →
      (Qabs (off_orbit p)
       <= JS.value (distance (descriptor (data p)))
          * JS.value (distance (descriptor (data p))) * δ + 2 ^ (-41))%Q)
      (planets c).
Proof.
  intros Hw Hi Hrun. apply reachable_page_ok in Hw as [Hcs _].
  rewrite Forall_lookup in Hcs.
  destruct (Hcs _ _ Hi) as [(Hd & _ & [Hsun Hlight] & _) Horbit].
  specialize (Horbit Hrun).
  split_and!; [done|by rewrite Hsun|done|done|].
  apply Forall_lookup. intros k p Hp Hu.
  rewrite Forall_lookup in Horbit. specialize (Horbit k p Hp).
  assert (Hk : planetsData !! k = Some (descriptor (data p))).
  { by rewrite <- Hd, list_lookup_fmap, Hp. }
  destruct (proj1 (Forall_lookup _ _) planetsData_distances _ _ Hk) as [Hd0 Hd22].
  unfold off_orbit. rewrite Horbit. cbn [THREE.position THREE.x THREE.z].
  by apply on_orbit_within.
Qed.

End OrbitRadius.

(** The theorem at Mercury, three frames after the mount on the [Rounded]
    host: the angle is 0.16, the host's cosine and sine there lie within
    [2 ^ -52] of the unit circle, and Mercury is within
    [16 * 2 ^ -52 + 2 ^ -41] of its orbit. *)
Lemma unpaused_planets_stay_on_orbit_witness :
  angle (data Rounded.mercury) = 0.16%float
  ∧ distance (descriptor (data Rounded.mercury)) = 4%float
  ∧ unit_within (2 ^ (-52))
      (Math_cos (Host := Rounded.host) (angle (data Rounded.mercury)))
      (Math_sin (Host := Rounded.host) (angle (data Rounded.mercury)))
  ∧ (Qabs (off_orbit Rounded.mercury)
     <= JS.value (distance (descriptor (data Rounded.mercury)))
        * JS.value (distance (descriptor (data Rounded.mercury))) * 2 ^ (-52)
        + 2 ^ (-41))%Q.
Proof.
  assert (Hu : unit_within (2 ^ (-52))
                 (Math_cos (Host := Rounded.host) (angle (data Rounded.mercury)))
                 (Math_sin (Host := Rounded.host) (angle (data Rounded.mercury)))).
  { split_and!; [vm_compute; reflexivity..|].
    apply Qle_bool_iff. vm_compute. reflexivity. }
  split_and!; [vm_compute; reflexivity..|exact Hu|].
  destruct (@unpaused_planets_stay_on_orbit Rounded.host Rounded.frames3 0
              (Demo.closure 0 Rounded.frames3) (2 ^ (-52)))
    as (_ & _ & _ & _ & Hall).
  - exists 1280%float, 720%float, [AnimationFrame; AnimationFrame; AnimationFrame].
    vm_compute. reflexivity.
  - vm_compute. reflexivity.
  - vm_compute. reflexivity.
  - rewrite Forall_lookup in Hall.
    assert (Hp : planets (Demo.closure 0 Rounded.frames3) !! 0 = Some Rounded.mercury)
      by (vm_compute; reflexivity).
    exact (Hall 0 Rounded.mercury Hp Hu).
Defined.

(** C9 as stated fails twice.  In an unpaused scene the coordinates are
    rounded products: three frames after the mount Mercury stands at angle
    0.16, at [x = Math.cos(0.16) * 4] and [z = Math.sin(0.16) * 4], where
    [x * x + z * z] is 15.999999999999998 in binary64 and not [4 * 4], and the
    exact sum of the squares of the two stored numbers is below 16.  And a
    click on Pause rebuilds the scene with the captured flag true: its frames
    never position the new meshes, and Mercury stays at the origin, where
    [x * x + z * z = 0]. *)
Lemma orbit_identity_fails_by_rounding_and_when_paused :
  (@reachable Rounded.host Rounded.frames3
   ∧ effect_closure Rounded.frames3 = Some 0
   ∧ env_isPaused (Demo.closure 0 Rounded.frames3) = false
   ∧ descriptor (data Rounded.mercury) = Demo.mercury
   ∧ angle (data Rounded.mercury) = 0.16%float
   ∧ Rounded.cos 0.16 = 0.9872272833756269%float
   ∧ Rounded.sin 0.16 = 0.15931820661424598%float
   ∧ THREE.position (mesh Rounded.mercury)
     = THREE.mkVector3 3.9489091335025077 0 0.6372728264569839
   ∧ (3.9489091335025077 * 3.9489091335025077
      + 0.6372728264569839 * 0.6372728264569839 = 15.999999999999998)%float
   ∧ JS.strict_eq
       (3.9489091335025077 * 3.9489091335025077
        + 0.6372728264569839 * 0.6372728264569839)
       (distance Demo.mercury * distance Demo.mercury) = false
   ∧ (off_orbit Rounded.mercury
      == -44350547432112207 # 81129638414606681695789005144064)%Q)
  ∧ (Demo.reachable_by [PauseClick; AnimationFrame]
     ∧ effect_closure (Demo.session [PauseClick; AnimationFrame]) = Some 1
     ∧ env_isPaused (Demo.closure 1 (Demo.session [PauseClick; AnimationFrame])) = true
     ∧ descriptor (data (Demo.planet 0 1 (Demo.session [PauseClick; AnimationFrame])))
       = Demo.mercury
     ∧ THREE.position (mesh (Demo.planet 0 1 (Demo.session [PauseClick; AnimationFrame])))
       = THREE.mkVector3 0 0 0
     ∧ JS.strict_eq (0 * 0 + 0 * 0) (distance Demo.mercury * distance Demo.mercury)
       = false).
Proof.
  split; split_and!.
  1: exists 1280%float, 720%float, [AnimationFrame; AnimationFrame; AnimationFrame].
  all: vm_compute; reflexivity.
Qed.

(** ** Scene construction draws its angles *)

Section Randomness.

Context `{Host}.

Implicit Types (w : World) (i k : nat).

(** A planet as built: the descriptor, a mesh at the origin, and the angle
    made from the draw that is the planet's own. *)
Lemma build_closure_planet w k d :
  planetsData !! k = Some d →
  planets (build_closure w) !! k
  = Some (make_planet d (first_planet_id + k)
            (draws w + 3 * N.of_nat starCount + N.of_nat k)%N).
Proof. intros Hk. unfold build_closure. cbn [planets]. by apply make_planets_lookup. Qed.

Lemma slider_change_eq w i planet val :
  page_ok w → effect_closure w = Some i →
  step w (SliderChange planet val) =
    rerender (set_state (length (heap w)) (isPaused w)
                (heap w ++ [<[planet:=parseFloat val]> (deref w (speeds w))]) w)
  ∧ length (heap w) ≠ speeds w.
Proof.
  intros (_ & _ & Hh) He. simpl. rewrite He. split; [done|lia].
Qed.

(** A click on the pause button or a change of a slider re-runs the effect:
    the closure that becomes current is built from the updated state and the
    draws that have not been consumed yet, and has run its first frame. *)
Lemma state_change_rebuilds w i e :
  reachable w → effect_closure w = Some i →
  e = PauseClick ∨ (∃ planet val, e = SliderChange planet val) →
  ∃ w',
    step w e = Some w'
    ∧ effect_closure w' = Some (length (closures w))
    ∧ closures w'
      = closures w
          ++ [animate_closure (deref w' (speeds w'))
                (build_closure (set_state (speeds w') (isPaused w') (heap w') w))]
    ∧ draws w' = (draws w + 3 * N.of_nat starCount + N.of_nat (length planetsData))%N.
Proof.
  intros Hw He Hev. apply reachable_page_ok in Hw as Hok.
  destruct Hev as [->|(planet & val & ->)].
  - rewrite (pause_click_eq w i) by done. eexists. split; [done|].
    cbn [effect_closure closures draws speeds isPaused heap].
    split; [done|]. split; [|done]. done.
  - destruct (slider_change_eq w i planet val Hok He) as [-> Hne].
    rewrite (rebuild_eq w i) by (try done; by left). eexists. split; [done|].
    cbn [effect_closure closures draws speeds isPaused heap].
    split; [done|]. split; [|done]. done.
Qed.

(** C10. Scene construction gives planet [k] the angle
    [Math.random() * Math.PI * 2] of a draw of its own, which no earlier
    construction has consumed and which lies in [0, 2 pi) when the draw lies
    in [0, 1); a pause click or a slider change runs the construction again
    on the updated state; and two constructions from the same state, window
    and speeds need not agree: the positions depend on the draws. *)
Theorem scene_construction_draws_fresh_angles w i e :
  (∀ n, (0 <=? Math_random n)%float = true ∧ (Math_random n <? 1)%float = true) →
  reachable w →
  effect_closure w = Some i →
  e = PauseClick ∨ (∃ planet val, e = SliderChange planet val) →
  (∀ w0 k d, planetsData !! k = Some d →
     ∃ p, planets (build_closure w0) !! k = Some p
          ∧ descriptor (data p) = d
          ∧ angle (data p)
            = (Math_random (draws w0 + 3 * N.of_nat starCount + N.of_nat k)
               * JS.Math_PI * 2)%float
          ∧ (0 <=? angle (data p))%float = true
          ∧ (angle (data p) <? JS.Math_PI * 2)%float = true)
  ∧ (∃ w',
       step w e = Some w'
       ∧ effect_closure w' = Some (length (closures w))
       ∧ closures w'
         = closures w
             ++ [animate_closure (deref w' (speeds w'))
                   (build_closure (set_state (speeds w') (isPaused w') (heap w') w))]
       ∧ draws w'
         = (draws w + 3 * N.of_nat starCount + N.of_nat (length planetsData))%N)
  ∧ (∃ (h : Host) w1 w2 w1' w2' p1 p2,
       speeds w1 = speeds w2 ∧ isPaused w1 = isPaused w2 ∧ heap w1 = heap w2
       ∧ innerWidth w1 = innerWidth w2 ∧ innerHeight w1 = innerHeight w2
       ∧ @effect h w1 = Some w1' ∧ @effect h w2 = Some w2'
       ∧ (closures w1' !! 0) ≫= (λ c, planets c !! 0) = Some p1
       ∧ (closures w2' !! 0) ≫= (λ c, planets c !! 0) = Some p2
       ∧ JS.strict_eq (THREE.x (THREE.position (mesh p1)))
           (THREE.x (THREE.position (mesh p2))) = false).
Proof.
  intros Hrandom Hw He Hev. split_and!.
  - intros w0 k d Hk. eexists. split; [by apply build_closure_planet|].
    cbn [make_planet data descriptor angle]. split; [done|]. split; [done|].
    apply random_angle_in_range; apply Hrandom.
  - by apply (state_change_rebuilds w i e).
  - exists Mock.host, (Demo.after_draws 0), (Demo.after_draws 8).
    eexists _, _, _, _. split_and!; [done..| | | | |].
    + vm_compute. reflexivity.
    + vm_compute. reflexivity.
    + vm_compute. reflexivity.
    + vm_compute. reflexivity.
    + vm_compute. reflexivity.
Qed.

End Randomness.

(** The draws of the demonstration host lie in [0, 1). *)
Lemma Mock_random_in_unit_interval n :
  (0 <=? Mock.random n)%float = true ∧ (Mock.random n <? 1)%float = true.
Proof.
  unfold Mock.random.
  assert (Hk : (n mod 48 < 48)%N) by (by apply N.mod_lt).
  destruct (n mod 48)%N as [|k]; [by vm_compute|].
  do 6 (destruct k as [k|k|]; try (by vm_compute); try lia).
Qed.

(** The theorem at a click on Pause on the mounted page of the session. *)
Lemma scene_construction_draws_fresh_angles_witness :
  (∀ w0 k d, planetsData !! k = Some d →
     ∃ p, planets (build_closure w0) !! k = Some p
          ∧ descriptor (data p) = d
          ∧ angle (data p)
            = (Mock.random (draws w0 + 3 * N.of_nat starCount + N.of_nat k)
               * JS.Math_PI * 2)%float
          ∧ (0 <=? angle (data p))%float = true
          ∧ (angle (data p) <? JS.Math_PI * 2)%float = true)
  ∧ (∃ w',
       step Demo.mounted PauseClick = Some w'
       ∧ effect_closure w' = Some (length (closures Demo.mounted))
       ∧ closures w'
         = closures Demo.mounted
             ++ [animate_closure (deref w' (speeds w'))
                   (build_closure
                      (set_state (speeds w') (isPaused w') (heap w') Demo.mounted))]
       ∧ draws w'
         = (draws Demo.mounted + 3 * N.of_nat starCount
            + N.of_nat (length planetsData))%N)
  ∧ (∃ (h : Host) w1 w2 w1' w2' p1 p2,
       speeds w1 = speeds w2 ∧ isPaused w1 = isPaused w2 ∧ heap w1 = heap w2
       ∧ innerWidth w1 = innerWidth w2 ∧ innerHeight w1 = innerHeight w2
       ∧ @effect h w1 = Some w1' ∧ @effect h w2 = Some w2'
       ∧ (closures w1' !! 0) ≫= (λ c, planets c !! 0) = Some p1
       ∧ (closures w2' !! 0) ≫= (λ c, planets c !! 0) = Some p2
       ∧ JS.strict_eq (THREE.x (THREE.position (mesh p1)))
           (THREE.x (THREE.position (mesh p2))) = false).
Proof.
  apply (@scene_construction_draws_fresh_angles Mock.host Demo.mounted 0 PauseClick).
  - apply Mock_random_in_unit_interval.
  - exists 1280%float, 720%float, []. vm_compute. reflexivity.
  - vm_compute. reflexivity.
  - by left.
Defined.

(** Mercury of the first scene is built at the angle 0 and the Mercury of
    the scene a click on Pause builds at 0.125 * Math.PI * 2; a slider change
    rebuilds the scene as well. *)
Example rebuilt_scene_has_new_angles :
  angle (data Demo.mercury0) = 0%float
  ∧ effect_closure (Demo.session [PauseClick]) = Some 1
  ∧ angle (data (Demo.planet 0 1 (Demo.session [PauseClick])))
    = 0.78539816339744828%float
  ∧ effect_closure (Demo.session [SliderChange "Venus" "0.05"]) = Some 1
  ∧ length (closures (Demo.session [SliderChange "Venus" "0.05"])) = 2
  ∧ draws (Demo.session [SliderChange "Venus" "0.05"]) = 60016%N.
Proof. split_and!; vm_compute; reflexivity. Qed.

(** ** Induction over the pages of a session *)

Section Reach.

Context `{Host}.

Implicit Types (w : World) (c : Closure) (i j : nat).

Lemma run_app w es1 es2 :
  run w (es1 ++ es2) = run w es1 ≫= λ w', run w' es2.
Proof.
  revert w. induction es1 as [|e es1 IH]; intros w; [done|].
  cbn [app run]. destruct (step w e) as [w1|]; [|done]. apply IH.
Qed.

Lemma reachable_mount iw ih w : mount (start iw ih) = Some w → reachable w.
Proof. intros Hw. exists iw, ih, []. by rewrite Hw. Qed.

Lemma reachable_step w e w' : reachable w → step w e = Some w' → reachable w'.
Proof.
  intros (iw & ih & es & Hw) He. exists iw, ih, (es ++ [e]).
  destruct (mount (start iw ih)) as [w0|]; [|done]. cbn [mbind option_bind] in *.
  rewrite run_app, Hw. cbn [mbind option_bind run]. by rewrite He.
Qed.

Lemma reachable_induction (P : World → Prop) :
  (∀ iw ih w0, mount (start iw ih) = Some w0 → P w0) →
  (∀ w e w', reachable w → P w → step w e = Some w' → P w') →
  ∀ w, reachable w → P w.
Proof.
  intros Hmount Hstep w (iw & ih & es & Hw).
  destruct (mount (start iw ih)) as [w0|] eqn:Hw0; [|done].
  cbn [mbind option_bind] in Hw.
  assert (Hr0 : reachable w0) by (by eapply reachable_mount).
  assert (HP0 : P w0) by (by eapply Hmount).
  clear Hw0. revert w0 Hr0 HP0 Hw.
  induction es as [|e es IH]; intros w0 Hr0 HP0 Hw.
  - by injection Hw as <-.
  - cbn [run] in Hw. destruct (step w0 e) as [w1|] eqn:He; [|done].
    apply (IH w1); [by eapply reachable_step|by eapply Hstep|done].
Qed.

End Reach.

(** ** The page each event leads to *)

Section Events.

Context `{Host}.

Implicit Types (w : World) (c : Closure) (i j : nat).

Lemma same_scene_refl c : same_scene c c.
Proof. by repeat split. Qed.

Lemma advance_static so (p : Planet) : planet_static (advance so p) = planet_static p.
Proof. done. Qed.

Lemma animate_closure_same_scene so c : same_scene c (animate_closure so c).
Proof.
  repeat split. unfold animate_closure, animate_planets. cbn [planets].
  destruct (negb (env_isPaused c)); [|done].
  rewrite <- list_fmap_compose. apply list_fmap_ext. intros ? p _. apply advance_static.
Qed.

(** What one [animate] writes: the frame request and its own closure. *)
Lemma animate_eq j w :
  animate j w
  = set_frame_requests (frame_requests w ++ [j]) (set_closures (closures (animate j w)) w).
Proof.
  unfold animate, requestAnimationFrame. cbn [closures set_frame_requests].
  destruct (closures w !! j); by destruct w.
Qed.

Lemma run_requests_eq (js : list nat) w :
  foldl (λ w' j, animate j w') w js
  = set_frame_requests (frame_requests w ++ js)
      (set_closures (closures (foldl (λ w' j, animate j w') w js)) w).
Proof.
  revert w. induction js as [|j js IH]; intros w.
  - cbn [foldl]. rewrite app_nil_r. by destruct w.
  - cbn [foldl]. rewrite IH at 1. rewrite animate_frame_requests, <- app_assoc.
    cbn [app]. rewrite (animate_eq j w) at 2. by destruct w.
Qed.

(** A frame writes nothing but the closures. *)
Lemma animationFrame_eq w :
  animationFrame w = set_closures (closures (animationFrame w)) w.
Proof.
  unfold animationFrame. rewrite run_requests_eq at 1.
  cbn [frame_requests set_frame_requests app]. by destruct w.
Qed.

Lemma dispatch_resize_eq w i :
  listeners w = [(mousemove, cb_onMouseMove i); (resize, cb_handleResize i)] →
  dispatch_resize w = handleResize i w.
Proof. intros Hl. unfold dispatch_resize. by rewrite Hl. Qed.

Lemma dispatch_mousemove_unmounted e w : listeners w = [] → dispatch_mousemove e w = w.
Proof. intros Hl. unfold dispatch_mousemove. by rewrite Hl. Qed.

Lemma dispatch_resize_unmounted w : listeners w = [] → dispatch_resize w = w.
Proof. intros Hl. unfold dispatch_resize. by rewrite Hl. Qed.

Lemma unmount_eq w i :
  page_ok w → effect_closure w = Some i →
  unmount w
  = Some (set_effect_closure None (set_listeners [] (set_refs false false w))).
Proof.
  intros (_ & Hm & _) He. unfold mounted_ok in *. rewrite He in *.
  destruct Hm as (_ & _ & _ & Hls & _). by apply (unmount_mounted w i).
Qed.

(** The page an event leads to, for the events that reach a handler of the
    current closure. *)
Lemma mousemove_eq w i c e :
  page_ok w → effect_closure w = Some i → closures w !! i = Some c →
  step w (MouseMove e)
  = Some (set_tooltip
            (show_tooltip e (planets c)
               (intersectObjects (normalized e (innerWidth w) (innerHeight w))
                  (camera c) (pickable c))
               true (tooltip w))
            (set_closures
               (<[i := mkClosure (env_speeds c) (env_isPaused c) (camera c)
                         (renderer_size c) (scene_children c) (light c) (sun c)
                         (stars_from c) (planets c)
                         (normalized e (innerWidth w) (innerHeight w)) (rendered c)]>
                  (closures w)) w)).
Proof.
  intros (_ & Hm & _) He Hi. unfold mounted_ok in Hm. rewrite He in Hm.
  destruct Hm as (_ & Htr & _ & Hls & _). cbn [step].
  rewrite (dispatch_mousemove_eq w i e Hls). unfold onMouseMove. by rewrite Hi, Htr.
Qed.

Lemma resize_eq w i c iw ih :
  page_ok w → effect_closure w = Some i → closures w !! i = Some c →
  step w (Resize iw ih)
  = Some (set_closures
            (<[i := mkClosure (env_speeds c) (env_isPaused c)
                      (THREE.mkCamera (THREE.fov (camera c)) (iw / ih)%float
                         (THREE.near (camera c)) (THREE.far (camera c))
                         (THREE.camera_position (camera c)))
                      (iw, ih) (scene_children c) (light c) (sun c)
                      (stars_from c) (planets c) (mouse c) (rendered c)]>
               (closures w)) (set_window_size iw ih w)).
Proof.
  intros (_ & Hm & _) He Hi. unfold mounted_ok in Hm. rewrite He in Hm.
  destruct Hm as (_ & _ & _ & Hls & _). cbn [step].
  rewrite (dispatch_resize_eq _ i) by (by destruct w).
  unfold handleResize. cbn [closures set_window_size innerWidth innerHeight].
  by rewrite Hi.
Qed.

Lemma unmounted_eq w e :
  page_ok w → effect_closure w = None →
  step w e
  = Some match e with
         | AnimationFrame => animationFrame w
         | Resize iw ih => set_window_size iw ih w
         | _ => w
         end.
Proof.
  intros (_ & Hm & _) He. unfold mounted_ok in Hm. rewrite He in Hm.
  destruct Hm as (_ & _ & Hls). destruct e as [|ev|iw ih|planet val| |]; cbn [step].
  - done.
  - by rewrite dispatch_mousemove_unmounted.
  - by rewrite dispatch_resize_unmounted by (by destruct w).
  - by rewrite He.
  - by rewrite He.
  - unfold unmount. by rewrite He.
Qed.

Lemma slider_eq w i planet val :
  page_ok w → effect_closure w = Some i →
  step w (SliderChange planet val) =
    Some (mkWorld (length (heap w)) (isPaused w)
            (heap w ++ [<[planet := parseFloat val]> (deref w (speeds w))]) true true
            [length (closures w)] (tooltip w)
            [(mousemove, cb_onMouseMove (length (closures w)));
             (resize, cb_handleResize (length (closures w)))]
            (frame_requests w ++ [length (closures w)])
            (closures w
               ++ [animate_closure (<[planet := parseFloat val]> (deref w (speeds w)))
                     (build_closure (handleSpeedChange planet val w))])
            (Some (length (closures w)))
            (draws w + 3 * N.of_nat starCount + N.of_nat (length planetsData))%N
            (innerWidth w) (innerHeight w)).
Proof.
  intros Hok He. destruct (slider_change_eq w i planet val Hok He) as [-> Hne].
  rewrite (rebuild_eq w i) by (try done; by left).
  by rewrite list_lookup_middle.
Qed.

(** The cases of a step from a page that satisfies the invariants. *)
Lemma step_cases w e w' :
  page_ok w → frames_requested w → step w e = Some w' →
  (** the closures built so far stay, with what they captured *)
  (∀ j c, closures w !! j = Some c →
     ∃ c', closures w' !! j = Some c' ∧ same_scene c c')
  ∧ (∀ r, r < length (heap w) → heap w' !! r = heap w !! r)
  ∧ length (heap w) ≤ length (heap w').
Proof.
  intros Hok Hfr Hstep. destruct (effect_closure w) as [i|] eqn:He.
  - pose proof Hok as (_ & Hm & _). unfold mounted_ok in Hm. rewrite He in Hm.
    destruct Hm as (_ & _ & _ & _ & ci & Hi & _).
    destruct e as [|ev|iw ih|planet val| |].
    + injection Hstep as <-. split_and!; [|by rewrite animationFrame_eq..].
      intros j c Hj. destruct (animationFrame_closure w j c Hfr Hj) as [Hc _].
      eexists. split; [done|]. apply animate_closure_same_scene.
    + rewrite (mousemove_eq w i ci) in Hstep by done. injection Hstep as <-.
      cbn [closures heap set_tooltip set_closures]. split_and!; [|done..].
      intros j c Hj. destruct (decide (j = i)) as [->|Hne].
      * eexists. split; [apply list_lookup_insert_eq; by eapply lookup_lt_Some|].
        simplify_eq. by repeat split.
      * exists c. rewrite list_lookup_insert_ne by done. split; [done|].
        apply same_scene_refl.
    + rewrite (resize_eq w i ci) in Hstep by done. injection Hstep as <-.
      cbn [closures heap set_window_size set_closures]. split_and!; [|done..].
      intros j c Hj. destruct (decide (j = i)) as [->|Hne].
      * eexists. split; [apply list_lookup_insert_eq; by eapply lookup_lt_Some|].
        simplify_eq. by repeat split.
      * exists c. rewrite list_lookup_insert_ne by done. split; [done|].
        apply same_scene_refl.
    + rewrite (slider_eq w i) in Hstep by done. injection Hstep as <-.
      cbn [closures heap]. split_and!.
      * intros j c Hj. exists c. split; [by apply lookup_app_l_Some|].
        apply same_scene_refl.
      * intros r Hr. by apply lookup_app_l.
      * rewrite length_app. lia.
    + rewrite (pause_click_eq w i) in Hstep by done. injection Hstep as <-.
      cbn [closures heap]. split_and!; [|done..].
      intros j c Hj. exists c. split; [by apply lookup_app_l_Some|].
      apply same_scene_refl.
    + cbn [step] in Hstep. rewrite (unmount_eq w i) in Hstep by done.
      injection Hstep as <-. split_and!; [|done..].
      intros j c Hj. exists c. split; [done|]. apply same_scene_refl.
  - rewrite unmounted_eq in Hstep by done. injection Hstep as <-.
    destruct e as [|ev|iw ih|planet val| |];
      try (split_and!; [|done..]; intros j c Hj; exists c; split; [done|];
           apply same_scene_refl).
    split_and!; [|by rewrite animationFrame_eq..].
    intros j c Hj. destruct (animationFrame_closure w j c Hfr Hj) as [Hc _].
    eexists. split; [done|]. apply animate_closure_same_scene.
Qed.

(** An event either keeps the number of closures, the draws and the heap, or
    it is a state change on a mounted page and appends one closure, built
    from the new state and the draws not yet consumed. *)
Lemma step_kinds w e w' :
  page_ok w → step w e = Some w' →
  (length (closures w') = length (closures w)
   ∧ draws w' = draws w ∧ heap w' = heap w
   ∧ mount_children w' = mount_children w
   ∧ effect_closure w' = match e with Unmount => None | _ => effect_closure w end
   ∧ match effect_closure w, e with
     | Some _, PauseClick | Some _, SliderChange _ _ => False
     | _, _ => True
     end)
  ∨ (∃ w0,
       is_Some (effect_closure w)
       ∧ (e = PauseClick ∨ ∃ planet val, e = SliderChange planet val)
       ∧ closures w'
         = closures w ++ [animate_closure (deref w' (speeds w')) (build_closure w0)]
       ∧ draws w0 = draws w ∧ speeds w0 = speeds w' ∧ isPaused w0 = isPaused w'
       ∧ innerWidth w0 = innerWidth w ∧ innerHeight w0 = innerHeight w
       ∧ draws w'
         = (draws w + 3 * N.of_nat starCount + N.of_nat (length planetsData))%N
       ∧ effect_closure w' = Some (length (closures w))
       ∧ (heap w' = heap w
          ∨ ∃ n v, heap w' = heap w ++ [<[n := v]> (deref w (speeds w))])).
Proof.
  intros Hok Hstep. destruct (effect_closure w) as [i|] eqn:He.
  - pose proof Hok as (_ & Hm & _). unfold mounted_ok in Hm. rewrite He in Hm.
    destruct Hm as (_ & _ & _ & _ & ci & Hi & _).
    destruct e as [|ev|iw ih|planet val| |].
    + injection Hstep as <-. left. rewrite animationFrame_length.
      rewrite animationFrame_eq.
      cbn [draws heap effect_closure mount_children set_closures].
      by split_and!.
    + rewrite (mousemove_eq w i ci) in Hstep by done. injection Hstep as <-.
      left. cbn [closures draws heap effect_closure mount_children set_tooltip
                 set_closures].
      rewrite length_insert. by split_and!.
    + rewrite (resize_eq w i ci) in Hstep by done. injection Hstep as <-.
      left. cbn [closures draws heap effect_closure mount_children set_window_size
                 set_closures].
      rewrite length_insert. by split_and!.
    + rewrite (slider_eq w i) in Hstep by done. injection Hstep as <-.
      right. exists (handleSpeedChange planet val w).
      cbn [closures draws heap effect_closure speeds isPaused].
      split_and!; try done.
      * right. by eexists _, _.
      * unfold deref. cbn [heap]. by rewrite list_lookup_middle.
      * right. by eexists _, _.
    + rewrite (pause_click_eq w i) in Hstep by done. injection Hstep as <-.
      right. exists (togglePause w).
      cbn [closures draws heap effect_closure speeds isPaused].
      split_and!; try done; by left.
    + cbn [step] in Hstep. rewrite (unmount_eq w i) in Hstep by done.
      injection Hstep as <-. left. by split_and!.
  - rewrite unmounted_eq in Hstep by done. injection Hstep as <-. left.
    destruct e as [|ev|iw ih|planet val| |]; try (by split_and!).
    rewrite animationFrame_length, animationFrame_eq. by split_and!.
Qed.

(** The length-keeping case, closure by closure. *)
Lemma step_closure_back w e w' j c' :
  page_ok w → frames_requested w → step w e = Some w' →
  closures w' !! j = Some c' → j < length (closures w) →
  ∃ c, closures w !! j = Some c ∧ same_scene c c'.
Proof.
  intros Hok Hfr Hstep Hj Hlt.
  destruct (lookup_lt_is_Some_2 (closures w) j Hlt) as [c Hc].
  destruct (step_cases w e w' Hok Hfr Hstep) as (Hfw & _).
  destruct (Hfw j c Hc) as (c'' & Hc'' & Hsame). exists c. by simplify_eq.
Qed.

Lemma initial_speeds_names :
  Forall (λ p, is_Some (initial_speeds !! name p)) planetsData.
Proof. repeat constructor; by eexists. Qed.

Lemma insert_keeps_names (so : gmap string float) n v :
  Forall (λ p, is_Some (so !! name p)) planetsData →
  Forall (λ p, is_Some (<[n := v]> so !! name p)) planetsData.
Proof.
  intros Hso. eapply Forall_impl; [exact Hso|]. cbn. intros p [s Hs]. destruct (decide (n = name p)) as [->|Hne].
  - rewrite lookup_insert_eq. by eexists.
  - rewrite lookup_insert_ne by done. by eexists.
Qed.

Lemma reachable_scenes_inv w : reachable w → scenes_inv w.
Proof.
  revert w. apply reachable_induction.
  - intros iw ih w0 Hw0. unfold mount in Hw0. rewrite effect_eq in Hw0 by done.
    injection Hw0 as <-. unfold scenes_inv.
    cbn [effect_closure closures draws heap start set_refs length].
    split_and!.
    + by intros i [= <-].
    + unfold scene_draws. cbn [app length]. change (length planetsData) with 8. lia.
    + intros [|j] c Hj; [|done]. injection Hj as <-.
      cbn [animate_closure build_closure stars_from env_speeds scene_children draws
           speeds set_refs start heap length]. split_and!; [|lia|done].
      lia.
    + constructor; [|done]. apply initial_speeds_names.
    + by exists 0.
  - intros w e w' Hw (Hcur & Hdraws & Hcs & Hheap & Hcanvas) Hstep.
    pose proof (reachable_page_ok w Hw) as Hok.
    pose proof (reachable_frames_requested w Hw) as Hfr.
    destruct (step_page_ok w e Hok) as (w'' & Hw'' & Hok'). simplify_eq.
    destruct (step_kinds w e w' Hok Hstep)
      as [(Hlen & Hd & Hh & Hmc & He & _)
         |(w0 & Hmounted & Hev & Hnew & Hd0 & Hs0 & Hp0 & _ & _ & Hd & He & Hh)].
    + unfold scenes_inv. rewrite Hlen, Hd, Hh, Hmc. split_and!; try done.
      * intros i Hi. rewrite He in Hi. apply Hcur. by destruct e.
      * intros j c' Hj.
        destruct (step_closure_back w e w' j c' Hok Hfr Hstep Hj)
          as (c & Hc & Hsame).
        { apply lookup_lt_Some in Hj. lia. }
        destruct (Hcs j c Hc) as (? & ? & ?).
        destruct Hsame as (Hs1 & _ & Hs3 & _ & _ & Hs6 & _).
        rewrite Hs1, Hs3, Hs6. done.
    + assert (Hlenh : length (heap w) ≤ length (heap w')).
      { destruct Hh as [->|(n & v & ->)]; [done|]. rewrite length_app. lia. }
      unfold scenes_inv. rewrite Hnew, He, Hd, length_app. cbn [length].
      split_and!.
      * intros i [= <-]. lia.
      * rewrite Hdraws. unfold scene_draws. change (length planetsData) with 8. lia.
      * intros j c' Hj. apply lookup_app_Some in Hj as [Hj|[Hge Hj]].
        -- destruct (Hcs j c' Hj) as (? & ? & ?). split_and!; [done|lia|done].
        -- destruct (j - length (closures w)) as [|k] eqn:Hk; [|done].
           injection Hj as <-. assert (j = length (closures w)) as -> by lia.
           cbn [animate_closure build_closure stars_from env_speeds scene_children].
           rewrite Hd0, Hs0. split_and!; [done| |done].
           by destruct Hok' as (_ & _ & ?).
      * destruct Hh as [->|(n & v & ->)]; [done|].
        apply Forall_app. split; [done|]. constructor; [|done].
        apply insert_keeps_names. unfold deref.
        destruct Hok as (_ & _ & Hlt).
        destruct (lookup_lt_is_Some_2 (heap w) (speeds w) Hlt) as [so Hso].
        rewrite Hso. cbn. rewrite Forall_lookup in Hheap. by apply (Hheap _ _ Hso).
      * exists (length (closures w)). split; [lia|].
        destruct Hok' as (_ & Hm' & _). unfold mounted_ok in Hm'. rewrite He in Hm'.
        by destruct Hm' as (_ & _ & ? & _).
Qed.

End Events.

(** ** Scenes over a session *)

Section Scenes.

Context `{Host}.

Implicit Types (w : World) (c : Closure) (i j : nat).

(** X1. Mounting runs the effect once: one closure, whose camera was made
    with the aspect of the window at z = 35, whose renderer has the size of
    the window, and whose star field starts at the first draw; the effect
    itself calls [animate] once (line 124), so the controls have updated the
    camera once, the scene has been rendered once, the next frame is
    requested, and every planet already has the angle
    [Math.random() * Math.PI * 2 + speed] and sits on its orbit. *)
Theorem mount_builds_the_scene_and_runs_one_frame iw ih :
  ∃ w c,
    mount (start iw ih) = Some w
    ∧ closures w = [c]
    ∧ effect_closure w = Some 0
    ∧ frame_requests w = [0]
    ∧ draws w = (3 * N.of_nat starCount + N.of_nat (length planetsData))%N
    ∧ tooltip w = mkTooltip None None "" None
    ∧ env_isPaused c = false
    ∧ rendered c = 1
    ∧ camera c
      = controls_update
          (THREE.mkCamera 75 (iw / ih)%float 0.1 2000 (THREE.mkVector3 0 0 35))
    ∧ renderer_size c = (iw, ih)
    ∧ stars_from c = 0%N
    ∧ ∀ k d, planetsData !! k = Some d →
        ∃ p, planets c !! k = Some p
             ∧ descriptor (data p) = d
             ∧ THREE.radius (mesh p) = size d
             ∧ THREE.material_color (mesh p) = color d
             ∧ angle (data p)
               = (Math_random (3 * N.of_nat starCount + N.of_nat k)
                  * JS.Math_PI * 2 + speed d)%float
             ∧ THREE.position (mesh p)
               = THREE.mkVector3 (Math_cos (angle (data p)) * distance d)%float 0
                   (Math_sin (angle (data p)) * distance d)%float.
Proof.
  eexists _, _. split; [by apply effect_eq|].
  cbn [closures effect_closure frame_requests draws tooltip start set_refs app].
  split_and!; try done.
  intros k d Hk. eexists. split.
  { cbn [animate_closure planets]. unfold animate_planets.
    cbn [env_isPaused build_closure isPaused set_refs start negb].
    rewrite list_lookup_fmap, (build_closure_planet _ k d) by done. done. }
  assert (Hs : initial_speeds !! name d = Some (speed d)).
  { revert k d Hk. apply Forall_lookup. repeat constructor. }
  unfold advance, deref. cbn [descriptor data angle mesh make_planet heap speeds
    set_refs start lookup list_lookup default THREE.position THREE.radius
    THREE.material_color THREE.y THREE.origin draws]. unfold id.
  rewrite Hs. cbn [JS.add_prop]. rewrite N.add_0_l. by split_and!.
Qed.

(** X2. However many times the effect has re-run, a mounted page holds one
    canvas and two [window] listeners, those of the closure built last, and
    that closure captured the current [speeds] object and [isPaused].  An
    unmounted page holds no listener; its refs are cleared, and the canvas
    of the closure built last is still a child of the mount [div] that React
    removed, because the cleanup threw before removing it. *)
Theorem mounted_page_has_one_canvas_and_two_listeners w :
  reachable w →
  (∃ i, S i = length (closures w) ∧ mount_children w = [i])
  ∧ match effect_closure w with
    | Some i =>
        S i = length (closures w)
        ∧ mountRef_current w = true
        ∧ listeners w = [(mousemove, cb_onMouseMove i); (resize, cb_handleResize i)]
        ∧ ∃ c, closures w !! i = Some c
               ∧ env_speeds c = speeds w ∧ env_isPaused c = isPaused w
    | None => mountRef_current w = false ∧ listeners w = []
    end.
Proof.
  intros Hw. destruct (reachable_scenes_inv w Hw) as (Hcur & _ & _ & _ & Hcanvas).
  split; [done|].
  apply reachable_page_ok in Hw as (_ & Hm & _). unfold mounted_ok in Hm.
  destruct (effect_closure w) as [i|].
  - destruct Hm as (? & _ & _ & ? & ?). split_and!; try done. by apply Hcur.
  - by destruct Hm as (? & _ & ?).
Qed.

(** X3. As long as the component stays mounted no event makes the effect or
    its cleanup throw: [mountRef.current] is attached whenever the effect
    runs and the canvas is a child of the mount [div] whenever the cleanup
    removes it. *)
Theorem state_changes_never_throw iw ih es :
  Forall (λ e, e ≠ Unmount) es →
  ∃ w i, mount (start iw ih) ≫= (λ w0, run w0 es) = Some w
         ∧ effect_closure w = Some i
         ∧ mountRef_current w = true ∧ tooltipRef_current w = true.
Proof.
  intros Hes. destruct (page_ok_mount iw ih) as (w0 & Hw0 & Hok0).
  assert (He0 : is_Some (effect_closure w0)).
  { unfold mount in Hw0. rewrite effect_eq in Hw0 by done. injection Hw0 as <-.
    by eexists. }
  rewrite Hw0. cbn [mbind option_bind]. clear Hw0.
  revert w0 Hok0 He0. induction Hes as [|e es Hne _ IH]; intros w0 Hok0 [i0 He0].
  - exists w0, i0. split; [done|]. split; [done|].
    destruct Hok0 as (_ & Hm & _). unfold mounted_ok in Hm. rewrite He0 in Hm.
    by destruct Hm as (? & ? & _).
  - cbn [run]. destruct (step_page_ok w0 e Hok0) as (w1 & Hw1 & Hok1).
    rewrite Hw1. cbn [mbind option_bind]. apply IH; [done|].
    destruct (step_kinds w0 e w1 Hok0 Hw1)
      as [(_ & _ & _ & _ & He & _)|(w' & _ & _ & Hr)].
    + rewrite He, He0. by destruct e.
    + destruct Hr as (_ & _ & _ & _ & _ & _ & _ & -> & _). by eexists.
Qed.

(** X4. An animation frame writes nothing on the page but the closures, and
    in each closure ever built, current or abandoned, it performs the guarded
    orbit update with the speeds that closure captured, one
    [controls.update()] and one [renderer.render]; every [animate] is
    requested again. *)
Theorem every_scene_renders_once_per_frame w i c :
  reachable w → closures w !! i = Some c →
  animationFrame w = set_closures (closures (animationFrame w)) w
  ∧ length (closures (animationFrame w)) = length (closures w)
  ∧ frame_requests w = seq 0 (length (closures w))
  ∧ ∃ c',
      closures (animationFrame w) !! i = Some c'
      ∧ rendered c' = S (rendered c)
      ∧ camera c' = controls_update (camera c)
      ∧ planets c'
        = animate_planets (env_isPaused c) (deref w (env_speeds c)) (planets c)
      ∧ renderer_size c' = renderer_size c
      ∧ mouse c' = mouse c.
Proof.
  intros Hw Hi. pose proof (reachable_frames_requested w Hw) as Hfr.
  split; [apply animationFrame_eq|]. split; [apply animationFrame_length|].
  split; [exact Hfr|].
  destruct (animationFrame_closure w i c Hfr Hi) as [Hc _].
  eexists. split; [exact Hc|]. by split_and!.
Qed.

Lemma run_scenes es w w' :
  page_ok w → frames_requested w → run w es = Some w' →
  length (closures w')
  = length (closures w)
    + match effect_closure w with Some _ => rebuilds es | None => 0 end.
Proof.
  revert w. induction es as [|e es IH]; intros w Hok Hfr Hrun.
  - injection Hrun as <-. destruct (effect_closure w); cbn; lia.
  - cbn [run] in Hrun. destruct (step_page_ok w e Hok) as (w1 & Hw1 & Hok1).
    rewrite Hw1 in Hrun. cbn [mbind option_bind] in Hrun.
    pose proof (frames_requested_step w e w1 Hok Hfr Hw1) as Hfr1.
    rewrite (IH w1 Hok1 Hfr1 Hrun).
    destruct (step_kinds w e w1 Hok Hw1)
      as [(Hlen & _ & _ & _ & He & Hnot)|(w0 & [i Hi] & Hev & Hnew & Hr)].
    + rewrite Hlen, He. destruct (effect_closure w) as [i|], e; cbn [rebuilds]; done || lia.
    + destruct Hr as (_ & _ & _ & _ & _ & _ & -> & _).
      rewrite Hnew, Hi, length_app. cbn [length].
      destruct Hev as [->|(planet & val & ->)]; cbn [rebuilds]; lia.
Qed.

(** X5. After a session the page holds, and animates on every frame, one
    scene for the mount and one more for every click on the pause button and
    every slider change made before the unmount. *)
Theorem a_session_animates_every_scene_it_built iw ih es w :
  mount (start iw ih) ≫= (λ w0, run w0 es) = Some w →
  length (closures w) = S (rebuilds es)
  ∧ frame_requests w = seq 0 (S (rebuilds es)).
Proof.
  intros Hw.
  assert (Hr : reachable w) by (by exists iw, ih, es).
  pose proof (reachable_frames_requested w Hr) as Hfr.
  destruct (mount (start iw ih)) as [w0|] eqn:Hw0; [|done].
  cbn [mbind option_bind] in Hw.
  assert (Hr0 : reachable w0) by (by eapply reachable_mount).
  pose proof (run_scenes es w0 w (reachable_page_ok w0 Hr0)
                (reachable_frames_requested w0 Hr0) Hw) as Hlen.
  unfold mount in Hw0. rewrite effect_eq in Hw0 by done. injection Hw0 as <-.
  cbn [closures effect_closure start set_refs app length] in Hlen.
  assert (Hlen' : length (closures w) = S (rebuilds es)) by lia.
  split; [done|]. unfold frames_requested in Hfr. by rewrite Hfr, Hlen'.
Qed.

(** X6. The component calls [Math.random()] only in scene construction,
    3 * starCount + 8 times per scene: the star field of the [i]-th scene
    starts at the component's draw [i * (3 * starCount + 8)], and the page
    has consumed as many draws as the scenes it built need. *)
Theorem each_scene_has_draws_of_its_own w i c :
  reachable w → closures w !! i = Some c →
  stars_from c
  = (N.of_nat i * (3 * N.of_nat starCount + N.of_nat (length planetsData)))%N
  ∧ draws w
    = (N.of_nat (length (closures w))
       * (3 * N.of_nat starCount + N.of_nat (length planetsData)))%N.
Proof.
  intros Hw Hi. destruct (reachable_scenes_inv w Hw) as (_ & Hd & Hcs & _).
  destruct (Hcs i c Hi) as (Hs & _). by split.
Qed.

(** X13. The scene of every closure holds eleven objects, each once: the
    light, the sun, the star field and the meshes of the eight planets, in
    creation order; no frame or handler adds or removes one. *)
Theorem scene_graph_holds_each_object_once w i c :
  reachable w → closures w !! i = Some c →
  scene_children c
  = [light_id; THREE.id (sun c); starField_id] ++ (THREE.id ∘ mesh <$> planets c)
  ∧ NoDup (scene_children c)
  ∧ length (scene_children c) = 3 + length planetsData.
Proof.
  intros Hw Hi. destruct (reachable_scenes_inv w Hw) as (_ & _ & Hcs & _).
  destruct (Hcs i c Hi) as (_ & _ & ->).
  apply reachable_page_ok in Hw as (Hok & _). rewrite Forall_lookup in Hok.
  destruct (Hok i c Hi) as [(_ & Hids & [-> _] & _) _]. rewrite Hids.
  split; [done|]. split; [|done].
  apply NoDup_ListNoDup. apply (List.seq_NoDup 11 0).
Qed.

(** X14. No event changes what a closure captured: it keeps the reference
    to its [speeds] object and its [isPaused], and the object keeps its
    entries. An abandoned scene therefore keeps moving at the speeds, and in
    the pause state, of the render that built it. *)
Theorem a_scene_keeps_the_speeds_it_captured w e w' i c :
  reachable w → step w e = Some w' → closures w !! i = Some c →
  ∃ c',
    closures w' !! i = Some c'
    ∧ env_speeds c' = env_speeds c
    ∧ env_isPaused c' = env_isPaused c
    ∧ deref w' (env_speeds c') = deref w (env_speeds c).
Proof.
  intros Hw Hstep Hi.
  pose proof (reachable_page_ok w Hw) as Hok.
  pose proof (reachable_frames_requested w Hw) as Hfr.
  destruct (reachable_scenes_inv w Hw) as (_ & _ & Hcs & _).
  destruct (Hcs i c Hi) as (_ & Hlt & _).
  destruct (step_cases w e w' Hok Hfr Hstep) as (Hfw & Hheap & _).
  destruct (Hfw i c Hi) as (c' & Hc' & Hs & Hp & _).
  exists c'. split_and!; [done..|]. unfold deref. by rewrite Hs, Hheap.
Qed.

Lemma iter_animate_closure_paused so c (n : nat) :
  env_isPaused c = true → planets (Nat.iter n (animate_closure so) c) = planets c.
Proof.
  intros Hp. induction n as [|n IH]; [done|]. rewrite Nat.iter_succ.
  rewrite animate_closure_paused; [done|].
  by rewrite iter_animate_closure_env.
Qed.

(** X17. A click on Pause builds a scene whose captured flag is true: its
    planets are created at the origin with newly drawn angles and, frame
    after frame, are rendered there without ever being moved. *)
Theorem paused_scene_stays_at_the_origin w i (N : nat) :
  reachable w → effect_closure w = Some i → isPaused w = false →
  ∃ w' c',
    step w PauseClick = Some w'
    ∧ isPaused w' = true
    ∧ effect_closure w' = Some (length (closures w))
    ∧ closures (Nat.iter N animationFrame w') !! length (closures w) = Some c'
    ∧ env_isPaused c' = true
    ∧ rendered c' = S N
    ∧ planets c'
      = make_planets planetsData first_planet_id (draws w + 3 * N.of_nat starCount)%N
    ∧ Forall (λ p, THREE.position (mesh p) = THREE.origin) (planets c').
Proof.
  intros Hw He Hrun. pose proof (reachable_page_ok w Hw) as Hok.
  pose proof (pause_click_eq w i Hok He) as Hstep.
  pose proof (reachable_step w _ _ Hw Hstep) as Hw'.
  pose proof (reachable_frames_requested _ Hw') as Hfr'.
  set (c0 := animate_closure (deref w (speeds w)) (build_closure (togglePause w))) in *.
  assert (Hc0 : env_isPaused c0 = true).
  { unfold c0. cbn [animate_closure env_isPaused build_closure togglePause set_state
      isPaused]. by rewrite Hrun. }
  eexists _, _. split; [exact Hstep|]. cbn [effect_closure isPaused].
  split; [by rewrite Hrun|]. split; [done|]. split.
  { rewrite (animationFrames_closure _ (length (closures w)) c0).
    - done.
    - done.
    - cbn [closures]. by apply list_lookup_middle. }
  split; [by rewrite iter_animate_closure_env|].
  split; [rewrite iter_animate_closure_rendered; cbn; lia|].
  rewrite iter_animate_closure_paused by done.
  assert (Hps : planets c0
    = make_planets planetsData first_planet_id (draws w + 3 * N.of_nat starCount)%N).
  { unfold c0. by rewrite animate_closure_paused. }
  rewrite Hps. split; [done|]. apply make_planets_at_origin.
Qed.

Lemma starPositions_from_length count from :
  length (starPositions_from count from) = 3 * count.
Proof.
  revert from. induction count as [|count IH]; intros from; [done|].
  cbn [starPositions_from length]. rewrite IH. lia.
Qed.

Lemma starPositions_from_lookup count from j :
  j < 3 * count →
  starPositions_from count from !! j
  = Some ((Math_random (from + N.of_nat j) - 0.5) * 2000)%float.
Proof.
  revert from j. induction count as [|count IH]; intros from j Hj; [lia|].
  cbn [starPositions_from]. destruct j as [|[|[|j]]].
  - cbn. by rewrite N.add_0_r.
  - done.
  - done.
  - cbn [lookup list_lookup]. change (starPositions_from count (from + 3) !! j
      = Some ((Math_random (from + N.of_nat (S (S (S j)))) - 0.5) * 2000)%float).
    rewrite IH by lia. do 4 f_equal. lia.
Qed.

(** X18. The loop of lines 60-66 leaves 3 * starCount numbers in the array
    [starPositions], the [j]-th being [(Math.random() - 0.5) * 2000] of the
    [j]-th draw of the construction; the [position] attribute of the star
    field holds as many, the [j]-th being that number rounded to binary32. *)
Theorem star_field_takes_three_draws_per_star c j :
  j < 3 * starCount →
  length (starPositions c) = 3 * starCount
  ∧ starPositions c !! j
    = Some ((Math_random (stars_from c + N.of_nat j) - 0.5) * 2000)%float
  ∧ length (starsGeometry_position c) = 3 * starCount
  ∧ starsGeometry_position c !! j
    = Some (JS.fround ((Math_random (stars_from c + N.of_nat j) - 0.5) * 2000)%float).
Proof.
  intros Hj. unfold starsGeometry_position, starPositions.
  rewrite length_fmap, list_lookup_fmap, starPositions_from_length.
  rewrite starPositions_from_lookup by done. done.
Qed.

End Scenes.

(** The theorem after a click on Pause, a change of Earth's slider and the
    unmount. *)
Lemma mounted_page_has_one_canvas_and_two_listeners_witness :
  let w := Demo.session [PauseClick; SliderChange "Earth" "0.02"; Unmount] in
  (∃ i, S i = length (closures w) ∧ mount_children w = [i])
  ∧ match effect_closure w with
    | Some i =>
        S i = length (closures w)
        ∧ mountRef_current w = true
        ∧ listeners w = [(mousemove, cb_onMouseMove i); (resize, cb_handleResize i)]
        ∧ ∃ c, closures w !! i = Some c
               ∧ env_speeds c = speeds w ∧ env_isPaused c = isPaused w
    | None => mountRef_current w = false ∧ listeners w = []
    end.
Proof.
  intros w.
  apply (@mounted_page_has_one_canvas_and_two_listeners Mock.host w).
  exists 1280%float, 720%float, [PauseClick; SliderChange "Earth" "0.02"; Unmount].
  vm_compute. reflexivity.
Defined.

(** The theorem at a click, a frame and a slider change. *)
Lemma state_changes_never_throw_witness :
  ∃ w i, mount (start 1280 720)
           ≫= (λ w0, run w0 [PauseClick; AnimationFrame; SliderChange "Mars" "0.03"])
         = Some w
         ∧ effect_closure w = Some i
         ∧ mountRef_current w = true ∧ tooltipRef_current w = true.
Proof.
  apply (@state_changes_never_throw Mock.host 1280 720
           [PauseClick; AnimationFrame; SliderChange "Mars" "0.03"]).
  repeat constructor; discriminate.
Defined.

(** The theorem at the scene a click on Pause abandoned. *)
Lemma every_scene_renders_once_per_frame_witness :
  let w := Demo.session [PauseClick] in
  let i := 0 in
  let c := Demo.closure 0 (Demo.session [PauseClick]) in
  animationFrame w = set_closures (closures (animationFrame w)) w
  ∧ length (closures (animationFrame w)) = length (closures w)
  ∧ frame_requests w = seq 0 (length (closures w))
  ∧ ∃ c',
      closures (animationFrame w) !! i = Some c'
      ∧ rendered c' = S (rendered c)
      ∧ camera c' = controls_update (camera c)
      ∧ planets c'
        = animate_planets (env_isPaused c) (deref w (env_speeds c)) (planets c)
      ∧ renderer_size c' = renderer_size c
      ∧ mouse c' = mouse c.
Proof.
  intros w i c.
  apply (@every_scene_renders_once_per_frame Mock.host w i c).
  - exists 1280%float, 720%float, [PauseClick]. vm_compute. reflexivity.
  - vm_compute. reflexivity.
Defined.

(** The theorem at two clicks before an unmount: three scenes. *)
Lemma a_session_animates_every_scene_it_built_witness :
  let es := [PauseClick; AnimationFrame; PauseClick; Unmount; AnimationFrame] in
  length (closures (Demo.session es)) = S (rebuilds es)
  ∧ frame_requests (Demo.session es) = seq 0 (S (rebuilds es)).
Proof.
  intros es.
  apply (@a_session_animates_every_scene_it_built Mock.host 1280 720 es).
  vm_compute. reflexivity.
Defined.

(** The theorem at the scene a click on Pause builds. *)
Lemma each_scene_has_draws_of_its_own_witness :
  let w := Demo.session [PauseClick] in
  let i := 1 in
  let c := Demo.closure 1 (Demo.session [PauseClick]) in
  stars_from c
  = (N.of_nat i * (3 * N.of_nat starCount + N.of_nat (length planetsData)))%N
  ∧ draws w
    = (N.of_nat (length (closures w))
       * (3 * N.of_nat starCount + N.of_nat (length planetsData)))%N.
Proof.
  intros w i c.
  apply (@each_scene_has_draws_of_its_own Mock.host w i c).
  - exists 1280%float, 720%float, [PauseClick]. vm_compute. reflexivity.
  - vm_compute. reflexivity.
Defined.

(** The theorem at the first scene, one frame after the mount. *)
Lemma scene_graph_holds_each_object_once_witness :
  let c := Demo.closure 0 (Demo.session [AnimationFrame]) in
  scene_children c
  = [light_id; THREE.id (sun c); starField_id] ++ (THREE.id ∘ mesh <$> planets c)
  ∧ NoDup (scene_children c)
  ∧ length (scene_children c) = 3 + length planetsData.
Proof.
  intros c.
  apply (@scene_graph_holds_each_object_once Mock.host (Demo.session [AnimationFrame]) 0 c).
  - exists 1280%float, 720%float, [AnimationFrame]. vm_compute. reflexivity.
  - vm_compute. reflexivity.
Defined.

(** The theorem at the scene a change of Venus's slider abandons. *)
Lemma a_scene_keeps_the_speeds_it_captured_witness :
  let w := Demo.mounted in
  let w' := Demo.session [SliderChange "Venus" "0.05"] in
  let i := 0 in
  let c := Demo.closure 0 Demo.mounted in
  ∃ c',
    closures w' !! i = Some c'
    ∧ env_speeds c' = env_speeds c
    ∧ env_isPaused c' = env_isPaused c
    ∧ deref w' (env_speeds c') = deref w (env_speeds c).
Proof.
  intros w w' i c.
  apply (@a_scene_keeps_the_speeds_it_captured Mock.host w
           (SliderChange "Venus" "0.05") w' i c).
  - exists 1280%float, 720%float, []. vm_compute. reflexivity.
  - vm_compute. reflexivity.
  - vm_compute. reflexivity.
Defined.

(** The theorem at a click on Pause one frame after the mount, four frames on. *)
Lemma paused_scene_stays_at_the_origin_witness :
  let w := Demo.session [AnimationFrame] in
  let N := 4 in
  ∃ w' c',
    step w PauseClick = Some w'
    ∧ isPaused w' = true
    ∧ effect_closure w' = Some (length (closures w))
    ∧ closures (Nat.iter N animationFrame w') !! length (closures w) = Some c'
    ∧ env_isPaused c' = true
    ∧ rendered c' = S N
    ∧ planets c'
      = make_planets planetsData first_planet_id (draws w + 3 * N.of_nat starCount)%N
    ∧ Forall (λ p, THREE.position (mesh p) = THREE.origin) (planets c').
Proof.
  intros w N.
  apply (@paused_scene_stays_at_the_origin Mock.host w 0 N).
  - exists 1280%float, 720%float, [AnimationFrame]. vm_compute. reflexivity.
  - vm_compute. reflexivity.
  - vm_compute. reflexivity.
Defined.

(** The theorem at the sixth number of the first star field. *)
Lemma star_field_takes_three_draws_per_star_witness :
  let c := Demo.built in
  let j := 5 in
  length (starPositions c) = 3 * starCount
  ∧ starPositions c !! j
    = Some ((Math_random (stars_from c + N.of_nat j) - 0.5) * 2000)%float
  ∧ length (starsGeometry_position c) = 3 * starCount
  ∧ starsGeometry_position c !! j
    = Some (JS.fround ((Math_random (stars_from c + N.of_nat j) - 0.5) * 2000)%float).
Proof.
  intros c j.
  apply (@star_field_takes_three_draws_per_star Mock.host c j).
  unfold j, starCount. lia.
Defined.

(** The sixth number of the first star field is -843.75 in the array and in
    the attribute.  A number that binary32 does not hold is rounded when it
    is stored, and one just below 1000 is stored as 1000. *)
Example star_buffer_rounds_to_binary32 :
  starPositions Demo.built !! 5 = Some (-843.75)%float
  ∧ starsGeometry_position Demo.built !! 5 = Some (-843.75)%float
  ∧ JS.fround (-753.086422) = (-753.08642578125)%float
  ∧ ((0.9999999999999999 - 0.5) * 2000)%float = 999.99999999999977%float
  ∧ JS.fround 999.99999999999977 = 1000%float.
Proof. split_and!; vm_compute; reflexivity. Qed.

(** ** Handlers over a session *)

Section Handlers.

Context `{Host}.

Implicit Types (w : World) (c : Closure) (i j : nat).

(** X19. A resize of the window reaches the one [handleResize] registered,
    that of the current closure: its camera takes the aspect of the new
    window and its renderer the new size, with the field of view, the
    clipping planes, the camera position and the planets as they were;
    abandoned closures keep the size they had. *)
Theorem resize_updates_the_current_scene_only w i c iw ih :
  reachable w → effect_closure w = Some i → closures w !! i = Some c →
  ∃ c',
    step w (Resize iw ih)
    = Some (set_closures (<[i := c']> (closures w)) (set_window_size iw ih w))
    ∧ THREE.aspect (camera c') = (iw / ih)%float
    ∧ renderer_size c' = (iw, ih)
    ∧ THREE.fov (camera c') = THREE.fov (camera c)
    ∧ THREE.near (camera c') = THREE.near (camera c)
    ∧ THREE.far (camera c') = THREE.far (camera c)
    ∧ THREE.camera_position (camera c') = THREE.camera_position (camera c)
    ∧ planets c' = planets c
    ∧ mouse c' = mouse c
    ∧ rendered c' = rendered c.
Proof.
  intros Hw He Hi. apply reachable_page_ok in Hw.
  eexists. split; [by apply (resize_eq w i c)|]. by split_and!.
Qed.

(** X7. Only [onMouseMove] writes the tooltip: frames, resizes, slider
    changes, pause clicks and the unmount leave its position, text and
    visibility as the last pointer move set them, also when they rebuild
    the scene. *)
Theorem only_pointer_moves_write_the_tooltip w e w' :
  reachable w → step w e = Some w' → (∀ ev, e ≠ MouseMove ev) →
  tooltip w' = tooltip w.
Proof.
  intros Hw Hstep Hne. apply reachable_page_ok in Hw as Hok.
  destruct (effect_closure w) as [i|] eqn:He.
  - destruct e as [|ev|iw ih|planet val| |].
    + injection Hstep as <-. by rewrite animationFrame_eq.
    + by destruct (Hne ev).
    + pose proof Hok as (_ & Hm & _). unfold mounted_ok in Hm. rewrite He in Hm.
      destruct Hm as (_ & _ & _ & _ & ci & Hi & _).
      rewrite (resize_eq w i ci) in Hstep by done. by injection Hstep as <-.
    + rewrite (slider_eq w i) in Hstep by done. by injection Hstep as <-.
    + rewrite (pause_click_eq w i) in Hstep by done. by injection Hstep as <-.
    + cbn [step] in Hstep. rewrite (unmount_eq w i) in Hstep by done.
      by injection Hstep as <-.
  - rewrite unmounted_eq in Hstep by done. injection Hstep as <-.
    destruct e; try done. by rewrite animationFrame_eq.
Qed.

(** X8. A pointer move changes the tooltip and the [mouse] vector of the
    current closure and nothing else: no planet, camera, renderer size or
    render count of any closure, no state, listener, canvas, frame request
    or draw; abandoned closures are not touched at all. *)
Theorem pointer_move_writes_the_tooltip_and_the_mouse_only w e :
  reachable w →
  ∃ w',
    step w (MouseMove e) = Some w'
    ∧ set_tooltip (tooltip w) (set_closures (closures w) w') = w
    ∧ length (closures w') = length (closures w)
    ∧ ∀ j c, closures w !! j = Some c →
        ∃ c', closures w' !! j = Some c'
              ∧ planets c' = planets c ∧ camera c' = camera c
              ∧ renderer_size c' = renderer_size c ∧ rendered c' = rendered c
              ∧ (effect_closure w ≠ Some j → c' = c).
Proof.
  intros Hw. apply reachable_page_ok in Hw as Hok.
  destruct (effect_closure w) as [i|] eqn:He.
  - pose proof Hok as (_ & Hm & _). unfold mounted_ok in Hm. rewrite He in Hm.
    destruct Hm as (_ & _ & _ & _ & ci & Hi & _).
    eexists. split; [by apply (mousemove_eq w i ci)|].
    cbn [closures set_tooltip set_closures]. split_and!.
    + by destruct w.
    + by rewrite length_insert.
    + intros j c Hj. destruct (decide (j = i)) as [->|Hne].
      * eexists. split; [apply list_lookup_insert_eq; by eapply lookup_lt_Some|].
        simplify_eq. by split_and!.
      * exists c. by rewrite list_lookup_insert_ne.
  - exists w. split; [by rewrite unmounted_eq|]. split_and!; [by destruct w|done|].
    intros j c Hj. by exists c.
Qed.

(** X9. After the unmount no handler is left on [window]: a pointer move
    changes nothing, so the tooltip keeps what it showed, and a resize
    changes the window size only. *)
Theorem unmounted_page_ignores_pointer_and_resize w w' e iw ih :
  reachable w → unmount w = Some w' →
  tooltip w' = tooltip w
  ∧ step w' (MouseMove e) = Some w'
  ∧ step w' (Resize iw ih) = Some (set_window_size iw ih w').
Proof.
  intros Hw Hu. apply reachable_page_ok in Hw as Hok.
  destruct (unmount_page_ok w Hok) as (w'' & Hw'' & Hok' & He' & _). simplify_eq.
  split.
  - destruct (effect_closure w) as [i|] eqn:He.
    + rewrite (unmount_eq w i) in Hu by done. by injection Hu as <-.
    + unfold unmount in Hu. rewrite He in Hu. by injection Hu as <-.
  - split_and!; by rewrite unmounted_eq.
Qed.

End Handlers.

(** The theorem at a resize of the mounted page to 800 by 600. *)
Lemma resize_updates_the_current_scene_only_witness :
  let w := Demo.mounted in
  let i := 0 in
  let c := Demo.closure 0 Demo.mounted in
  let iw := 800%float in
  let ih := 600%float in
  ∃ c',
    step w (Resize iw ih)
    = Some (set_closures (<[i := c']> (closures w)) (set_window_size iw ih w))
    ∧ THREE.aspect (camera c') = (iw / ih)%float
    ∧ renderer_size c' = (iw, ih)
    ∧ THREE.fov (camera c') = THREE.fov (camera c)
    ∧ THREE.near (camera c') = THREE.near (camera c)
    ∧ THREE.far (camera c') = THREE.far (camera c)
    ∧ THREE.camera_position (camera c') = THREE.camera_position (camera c)
    ∧ planets c' = planets c
    ∧ mouse c' = mouse c
    ∧ rendered c' = rendered c.
Proof.
  intros w i c iw ih.
  apply (@resize_updates_the_current_scene_only Mock.host w i c iw ih).
  - exists 1280%float, 720%float, []. vm_compute. reflexivity.
  - vm_compute. reflexivity.
  - vm_compute. reflexivity.
Defined.

(** The theorem at a click on Pause while the tooltip shows Mercury. *)
Lemma only_pointer_moves_write_the_tooltip_witness :
  tooltip (Demo.session [MouseMove (mkMouseEvent 742 360); PauseClick])
  = tooltip (Demo.session [MouseMove (mkMouseEvent 742 360)]).
Proof.
  apply (@only_pointer_moves_write_the_tooltip Mock.host
           (Demo.session [MouseMove (mkMouseEvent 742 360)]) PauseClick
           (Demo.session [MouseMove (mkMouseEvent 742 360); PauseClick])).
  - exists 1280%float, 720%float, [MouseMove (mkMouseEvent 742 360)].
    vm_compute. reflexivity.
  - vm_compute. reflexivity.
  - discriminate.
Defined.

(** The theorem at a pointer move after a click on Pause. *)
Lemma pointer_move_writes_the_tooltip_and_the_mouse_only_witness :
  let w := Demo.session [PauseClick] in
  let e := mkMouseEvent 742 360 in
  ∃ w',
    step w (MouseMove e) = Some w'
    ∧ set_tooltip (tooltip w) (set_closures (closures w) w') = w
    ∧ length (closures w') = length (closures w)
    ∧ ∀ j c, closures w !! j = Some c →
        ∃ c', closures w' !! j = Some c'
              ∧ planets c' = planets c ∧ camera c' = camera c
              ∧ renderer_size c' = renderer_size c ∧ rendered c' = rendered c
              ∧ (effect_closure w ≠ Some j → c' = c).
Proof.
  intros w e.
  apply (@pointer_move_writes_the_tooltip_and_the_mouse_only Mock.host w e).
  exists 1280%float, 720%float, [PauseClick]. vm_compute. reflexivity.
Defined.

(** The theorem at an unmount while the tooltip shows Mercury. *)
Lemma unmounted_page_ignores_pointer_and_resize_witness :
  let w := Demo.session [MouseMove (mkMouseEvent 742 360)] in
  let w' := Demo.session [MouseMove (mkMouseEvent 742 360); Unmount] in
  let e := mkMouseEvent 10 10 in
  let iw := 800%float in
  let ih := 600%float in
  tooltip w' = tooltip w
  ∧ step w' (MouseMove e) = Some w'
  ∧ step w' (Resize iw ih) = Some (set_window_size iw ih w').
Proof.
  intros w w' e iw ih.
  apply (@unmounted_page_ignores_pointer_and_resize Mock.host w w' e iw ih).
  - exists 1280%float, 720%float, [MouseMove (mkMouseEvent 742 360)].
    vm_compute. reflexivity.
  - vm_compute. reflexivity.
Defined.

(** ** The control panel over a session *)

Section Controls.

Context `{Host}.

Implicit Types (w : World) (c : Closure) (i j : nat).

(** X10. Two slider changes in a row allocate two objects; the current one
    is the original with both entries written, the second change winning on
    the same planet, and on different planets the order of the two changes
    does not matter. *)
Theorem slider_changes_compose n1 v1 n2 v2 w :
  let w12 := handleSpeedChange n2 v2 (handleSpeedChange n1 v1 w) in
  let w21 := handleSpeedChange n1 v1 (handleSpeedChange n2 v2 w) in
  deref w12 (speeds w12)
  = <[n2 := parseFloat v2]> (<[n1 := parseFloat v1]> (deref w (speeds w)))
  ∧ (n1 ≠ n2 → deref w12 (speeds w12) = deref w21 (speeds w21))
  ∧ (n1 = n2 →
     deref w12 (speeds w12)
     = deref (handleSpeedChange n2 v2 w) (speeds (handleSpeedChange n2 v2 w)))
  ∧ length (heap w12) = S (S (length (heap w))).
Proof.
  intros w12 w21. unfold w12, w21. rewrite !deref_handleSpeedChange_new. split_and!.
  - done.
  - intros Hne. by apply insert_insert_ne.
  - intros ->. by apply insert_insert_eq.
  - unfold handleSpeedChange. cbn [heap set_state]. rewrite !length_app. cbn. lia.
Qed.

Lemma planetsData_names_NoDup : NoDup (name <$> planetsData).
Proof. apply NoDup_ListNoDup. repeat constructor; cbn; intuition discriminate. Qed.

Lemma planetsData_name_inj k1 k2 d1 d2 :
  planetsData !! k1 = Some d1 → planetsData !! k2 = Some d2 →
  name d1 = name d2 → k1 = k2.
Proof.
  intros H1 H2 Hn. apply (NoDup_lookup _ k1 k2 (name d1) planetsData_names_NoDup).
  - by rewrite list_lookup_fmap, H1.
  - by rewrite list_lookup_fmap, H2, Hn.
Qed.

(** X11. After a change of a planet's slider the range input of that planet
    shows [parseFloat] of the new value and every other range input and the
    pause button show what they showed. *)
Theorem slider_shows_the_parsed_value w i k d val :
  reachable w → effect_closure w = Some i → planetsData !! k = Some d →
  ∃ w',
    step w (SliderChange (name d) val) = Some w'
    ∧ controls (view w')
      = <[k := mkRangeInput (name d) "0.001" "0.05" "0.001" (Some (parseFloat val))]>
          (controls (view w))
    ∧ pauseBtn (view w') = pauseBtn (view w).
Proof.
  intros Hw He Hk. apply reachable_page_ok in Hw as Hok.
  eexists. split; [by apply (slider_eq w i)|]. split; [|done].
  unfold view, render, deref at 1. cbn [controls speeds heap isPaused].
  rewrite list_lookup_middle by done. cbn [from_option]. unfold id.
  apply list_eq. intros j. destruct (decide (j = k)) as [->|Hne].
  - rewrite list_lookup_insert_eq
      by (rewrite length_fmap; by eapply lookup_lt_Some).
    rewrite list_lookup_fmap, Hk. cbn [fmap option_fmap option_map].
    by rewrite lookup_insert_eq.
  - rewrite list_lookup_insert_ne by done. rewrite !list_lookup_fmap.
    destruct (planetsData !! j) as [dj|] eqn:Hj; [|done].
    cbn [fmap option_fmap option_map].
    rewrite lookup_insert_ne; [done|].
    intros Hn. apply Hne. by apply (planetsData_name_inj j k dj d).
Qed.

(** X12. A click on the pause button negates [isPaused] and shows the other
    label, Resume while paused and Pause otherwise; the [speeds] object and
    the range inputs stay. *)
Theorem pause_click_flips_the_label w i :
  reachable w → effect_closure w = Some i →
  ∃ w',
    step w PauseClick = Some w'
    ∧ isPaused w' = negb (isPaused w)
    ∧ pauseBtn (view w') = (if isPaused w then "⏸ Pause" else "▶ Resume")
    ∧ controls (view w') = controls (view w)
    ∧ speeds w' = speeds w ∧ heap w' = heap w.
Proof.
  intros Hw He. apply reachable_page_ok in Hw as Hok.
  eexists. split; [by apply (pause_click_eq w i)|].
  unfold view, render, deref. cbn [pauseBtn controls isPaused speeds heap].
  split_and!; try done. by destruct (isPaused w).
Qed.

(** X15. [speeds[data.name]] is never [undefined]: the [speeds] object a
    closure captured has an entry for each of its planets, and the [value]
    of every range input is defined. *)
Theorem every_scene_finds_every_speed w i c k p :
  reachable w → closures w !! i = Some c → planets c !! k = Some p →
  is_Some (deref w (env_speeds c) !! name (descriptor (data p)))
  ∧ Forall (λ r, is_Some (range_value r)) (controls (view w)).
Proof.
  intros Hw Hi Hk.
  destruct (reachable_scenes_inv w Hw) as (_ & _ & Hcs & Hheap & _).
  destruct (Hcs i c Hi) as (_ & Hlt & _).
  apply reachable_page_ok in Hw as (Hok & _ & Hlt'). rewrite Forall_lookup in Hok.
  destruct (Hok i c Hi) as [(Hd & _) _].
  rewrite Forall_lookup in Hheap.
  assert (Hall : ∀ r, r < length (heap w) →
            Forall (λ p, is_Some (deref w r !! name p)) planetsData).
  { intros r Hr. unfold deref.
    destruct (lookup_lt_is_Some_2 (heap w) r Hr) as [so Hso]. rewrite Hso.
    by apply (Hheap _ _ Hso). }
  split.
  - specialize (Hall _ Hlt). rewrite Forall_forall in Hall. apply Hall.
    rewrite <- Hd. apply list_elem_of_lookup. exists k.
    by rewrite list_lookup_fmap, Hk.
  - unfold view, render. cbn [controls]. rewrite Forall_fmap.
    eapply Forall_impl; [apply (Hall _ Hlt')|]. done.
Qed.




End Controls.

(** The theorem at a change of Earth's slider to 0.02. *)
Lemma slider_shows_the_parsed_value_witness :
  let w := Demo.mounted in
  let k := 2 in
  let d := mkPlanetData "Earth" 0x3399ff 0.6 8 0.01 in
  let val := "0.02" in
  ∃ w',
    step w (SliderChange (name d) val) = Some w'
    ∧ controls (view w')
      = <[k := mkRangeInput (name d) "0.001" "0.05" "0.001" (Some (parseFloat val))]>
          (controls (view w))
    ∧ pauseBtn (view w') = pauseBtn (view w).
Proof.
  intros w k d val.
  apply (@slider_shows_the_parsed_value Mock.host w 0 k d val).
  - exists 1280%float, 720%float, []. vm_compute. reflexivity.
  - vm_compute. reflexivity.
  - reflexivity.
Defined.

(** The theorem at a click on Pause on the mounted page. *)
Lemma pause_click_flips_the_label_witness :
  let w := Demo.mounted in
  ∃ w',
    step w PauseClick = Some w'
    ∧ isPaused w' = negb (isPaused w)
    ∧ pauseBtn (view w') = (if isPaused w then "⏸ Pause" else "▶ Resume")
    ∧ controls (view w') = controls (view w)
    ∧ speeds w' = speeds w ∧ heap w' = heap w.
Proof.
  intros w.
  apply (@pause_click_flips_the_label Mock.host w 0).
  - exists 1280%float, 720%float, []. vm_compute. reflexivity.
  - vm_compute. reflexivity.
Defined.

(** The theorem at Venus in the scene a slider change builds. *)
Lemma every_scene_finds_every_speed_witness :
  let w := Demo.session [SliderChange "Venus" "0.05"] in
  let c := Demo.closure 1 (Demo.session [SliderChange "Venus" "0.05"]) in
  let p := Demo.planet 1 1 (Demo.session [SliderChange "Venus" "0.05"]) in
  is_Some (deref w (env_speeds c) !! name (descriptor (data p)))
  ∧ Forall (λ r, is_Some (range_value r)) (controls (view w)).
Proof.
  intros w c p.
  apply (@every_scene_finds_every_speed Mock.host w 1 c 1 p).
  - exists 1280%float, 720%float, [SliderChange "Venus" "0.05"].
    vm_compute. reflexivity.
  - vm_compute. reflexivity.
  - vm_compute. reflexivity.
Defined.


(** ** Binary64 quotients: the corners of the window *)

Section Corners.

Local Open Scope Z_scope.

Lemma SFdiv_self s m e :
  SF64div (S754_finite s m e) (S754_finite s m e) = Prim2SF 1.
Proof.
  unfold SF64div, SFdiv, SFdiv_core_binary.
  rewrite !Z.sub_diag.
  change (Z.min (fexp prec emax 0) 0) with (-53).
  change (0 - -53) with 53.
  cbv beta iota zeta.
  assert (Hd : Z.div_eucl (Z.shiftl (Z.pos m) 53) (Z.pos m) = (9007199254740992, 0)).
  { rewrite Z.shiftl_mul_pow2 by lia. change (2 ^ 53) with 9007199254740992.
    pose proof (Z.div_eucl_eq (Z.pos m * 9007199254740992) (Z.pos m)) as Heq.
    pose proof (Z.mod_pos_bound (Z.pos m * 9007199254740992) (Z.pos m)) as Hb.
    unfold Z.modulo, Z.div in *.
    destruct (Z.div_eucl (Z.pos m * 9007199254740992) (Z.pos m)) as [q r].
    cbn [fst snd] in *. specialize (Heq ltac:(lia)). specialize (Hb ltac:(lia)).
    assert (q = 9007199254740992) by nia. subst q. f_equal. lia. }
  rewrite Hd. destruct s; unfold new_location; destruct (Z.even (Z.pos m)); reflexivity.
Qed.

Local Close Scope Z_scope.

Lemma positive_finite (x : float) :
  (0 <? x)%float = true → (x <? infinity)%float = true →
  ∃ m e, Prim2SF x = S754_finite false m e.
Proof.
  rewrite !ltb_spec. change (Prim2SF 0) with (S754_zero false).
  change (Prim2SF infinity) with (S754_infinity false).
  destruct (Prim2SF x) as [[]|[]| |[] m e]; try done. intros _ _. by eexists _, _.
Qed.

Lemma div_self (x : float) :
  (0 <? x)%float = true → (x <? infinity)%float = true → (x / x)%float = 1%float.
Proof.
  intros H0 Hi. destruct (positive_finite x H0 Hi) as (m & e & Hx).
  apply Prim2SF_inj. rewrite div_spec, Hx. apply SFdiv_self.
Qed.

Lemma div_zero_l (x : float) :
  (0 <? x)%float = true → (x <? infinity)%float = true → (0 / x)%float = 0%float.
Proof.
  intros H0 Hi. destruct (positive_finite x H0 Hi) as (m & e & Hx).
  apply Prim2SF_inj. by rewrite div_spec, Hx.
Qed.

(** X20. In a window of positive finite size the pointer at the top left
    corner has the normalized coordinates (-1, 1) and the pointer at
    (innerWidth, innerHeight) has (1, -1), exactly. *)
Theorem window_corners_map_to_the_corners_of_the_device_square (iw ih : float) :
  (0 <? iw)%float = true → (iw <? infinity)%float = true →
  (0 <? ih)%float = true → (ih <? infinity)%float = true →
  normalized (mkMouseEvent 0 0) iw ih = THREE.mkVector2 (-1) 1
  ∧ normalized (mkMouseEvent iw ih) iw ih = THREE.mkVector2 1 (-1).
Proof.
  intros Hw0 Hwi Hh0 Hhi. unfold normalized. cbn [clientX clientY].
  rewrite !div_zero_l, !div_self by done. split; reflexivity.
Qed.

End Corners.

(** The theorem at a window of 1280 by 720. *)
Lemma window_corners_map_to_the_corners_of_the_device_square_witness :
  normalized (mkMouseEvent 0 0) 1280 720 = THREE.mkVector2 (-1) 1
  ∧ normalized (mkMouseEvent 1280 720) 1280 720 = THREE.mkVector2 1 (-1).
Proof.
  apply (window_corners_map_to_the_corners_of_the_device_square 1280 720);
    reflexivity.
Defined.

(** ** Binary64 differences: the range of [(Math.random() - 0.5) * 2000] *)

Section StarRange.

Local Open Scope Z_scope.

Lemma Pos_iter_xO (m d : positive) : Z.pos (Pos.iter xO m d) = Z.pos m * 2 ^ Z.pos d.
Proof.
  induction d as [|d IH] using Pos.peano_ind.
  - cbn [Pos.iter]. lia.
  - rewrite Pos.iter_succ, Pos2Z.inj_xO, IH, Pos2Z.inj_succ, Z.pow_succ_r by lia. lia.
Qed.

Lemma binary_round_opp m e :
  binary_round prec emax true m e = SFopp (binary_round prec emax false m e).
Proof.
  unfold binary_round. destruct (shl_align m e _) as [mz ez].
  apply binary_round_aux_opp.
Qed.

Lemma binary_round_below (mx : positive) (ex : Z) (B : positive) (eb : Z) :
  digits2_pos B = 53%positive →
  ex ≤ eb → -1074 ≤ eb ≤ 971 →
  2 * Z.pos mx < (2 * Z.pos B - 1) * 2 ^ (eb - ex) →
  SFltb (binary_round prec emax false mx ex) (S754_finite false B eb) = true
  ∧ SFleb (S754_zero false) (binary_round prec emax false mx ex) = true.
Proof.
  intros HB Hex Heb Hlt. unfold binary_round, shl_align.
  destruct (fexp prec emax (Z.pos (digits2_pos mx) + ex) - ex) as [|p|d] eqn:Hd.
  - by apply binary_round_aux_below.
  - by apply binary_round_aux_below.
  - apply binary_round_aux_below; [done|lia|done|].
    rewrite Pos_iter_xO.
    replace (eb - fexp prec emax (Z.pos (digits2_pos mx) + ex))
      with ((eb - ex) + Z.pos d) by lia.
    rewrite Z.pow_add_r by lia.
    assert (0 < 2 ^ Z.pos d) by (apply Z.pow_pos_nonneg; lia). nia.
Qed.

(** [r - 0.5] for a finite [r] in (0, 1): zero, or the rounding of the
    exact difference, positive below 0.5 or negative with magnitude at most
    0.5. *)
Lemma sub_half_cases (m : positive) (e : Z) :
  Z.pos m < 9007199254740992 → e ≤ -53 →
  let y := SF64sub (S754_finite false m e) (S754_finite false 4503599627370496 (-53)) in
  y = S754_zero false
  ∨ (∃ D, y = binary_round prec emax false D e
          ∧ 2 * Z.pos D < (2 * 4503599627370496 - 1) * 2 ^ (-53 - e))
  ∨ (∃ D, y = SFopp (binary_round prec emax false D e)
          ∧ 2 * Z.pos D < (2 * 4503599627370497 - 1) * 2 ^ (-53 - e)).
Proof.
  intros Hm He y. unfold y, SF64sub, SFsub.
  rewrite (Z.min_l e (-53)) by lia.
  assert (Hfst1 : fst (shl_align m e e) = m).
  { unfold shl_align. by rewrite Z.sub_diag. }
  assert (Hfst2 : Z.pos (fst (shl_align 4503599627370496 (-53) e))
                  = 4503599627370496 * 2 ^ (-53 - e)).
  { unfold shl_align. destruct (e - -53) as [|p|d] eqn:Hd; cbn [fst].
    - replace (-53 - e) with 0 by lia. lia.
    - lia.
    - rewrite Pos_iter_xO. do 2 f_equal. lia. }
  rewrite Hfst1. cbn [cond_Zopp].
  assert (Ht : 0 < 2 ^ (-53 - e)) by (apply Z.pow_pos_nonneg; lia).
  unfold binary_normalize.
  destruct (Z.pos m - Z.pos (fst (shl_align 4503599627370496 (-53) e))) as [|D|D] eqn:HD.
  - by left.
  - right; left. exists D. split; [done|]. lia.
  - right; right. exists D. split; [apply binary_round_opp|]. lia.
Qed.

Lemma SFleb_zero_cases y :
  SFleb (S754_zero false) y = true →
  (∃ s, y = S754_zero s) ∨ y = S754_infinity false ∨ ∃ m e, y = S754_finite false m e.
Proof.
  destruct y as [s|[]| |[] m e]; try done; intros _.
  - left. by exists s.
  - by right; left.
  - right; right. by eexists _, _.
Qed.

Lemma times_2000_below (m : positive) (e : Z) (B : positive) :
  Z.pos m < 9007199254740992 →
  e < -53 ∨ (e = -53 ∧ Z.pos m < Z.pos B) →
  4503599627370496 ≤ Z.pos B ≤ 4503599627370497 →
  2 * Z.pos (m * 8796093022208000)
  < (2 * (8796093022208000 + (Z.pos B - 4503599627370496)) - 1) * 2 ^ (-43 - (e + -42)).
Proof.
  intros Hm He HB. rewrite Pos2Z.inj_mul.
  destruct He as [He|[-> He]].
  - replace (-43 - (e + -42)) with (53 + (-54 - e)) by lia.
    rewrite Z.pow_add_r by lia. change (2 ^ 53) with 9007199254740992.
    assert (0 < 2 ^ (-54 - e)) by (apply Z.pow_pos_nonneg; lia). nia.
  - change (2 ^ (-43 - (-53 + -42))) with 4503599627370496. lia.
Qed.

(** A product with 2000 of a value in [0, 0.5) lies in [0, 1000). *)
Lemma times_2000_nonneg y :
  valid_binary y = true →
  SFleb (S754_zero false) y = true →
  SFltb y (S754_finite false 4503599627370496 (-53)) = true →
  SFleb (S754_finite true 8796093022208000 (-43))
    (SF64mul y (S754_finite false 8796093022208000 (-42))) = true
  ∧ SFltb (SF64mul y (S754_finite false 8796093022208000 (-42)))
      (S754_finite false 8796093022208000 (-43)) = true.
Proof.
  intros Hv H0 Hlt.
  destruct (SFleb_zero_cases y H0) as [[s ->]|[->|(m & e & ->)]].
  - by destruct s.
  - done.
  - apply valid_binary_finite in Hv as [Hm _].
    apply SFltb_finite_pos_inv in Hlt.
    change (SF64mul (S754_finite false m e) (S754_finite false 8796093022208000 (-42)))
      with (binary_round_aux prec emax false (Z.pos (m * 8796093022208000))
              (e + -42) loc_Exact).
    destruct (binary_round_aux_below (m * 8796093022208000) (e + -42)
                8796093022208000 (-43)) as [Hlt2 Hle2];
      [done|lia|lia| |].
    { by apply (times_2000_below m e 4503599627370496). }
    split; [|done].
    destruct (SFleb_zero_cases _ Hle2) as [[s ->]|[->|(m' & e' & ->)]]; done.
Qed.

(** A product with 2000 of the opposite of a value in [0, 0.5] lies in
    [-1000, 0]. *)
Lemma times_2000_nonpos u :
  valid_binary u = true →
  SFleb (S754_zero false) u = true →
  SFltb u (S754_finite false 4503599627370497 (-53)) = true →
  SFleb (S754_finite true 8796093022208000 (-43))
    (SF64mul (SFopp u) (S754_finite false 8796093022208000 (-42))) = true
  ∧ SFltb (SF64mul (SFopp u) (S754_finite false 8796093022208000 (-42)))
      (S754_finite false 8796093022208000 (-43)) = true.
Proof.
  intros Hv H0 Hlt.
  destruct (SFleb_zero_cases u H0) as [[s ->]|[->|(m & e & ->)]].
  - by destruct s.
  - done.
  - apply valid_binary_finite in Hv as [Hm _].
    apply SFltb_finite_pos_inv in Hlt.
    change (SF64mul (SFopp (S754_finite false m e))
              (S754_finite false 8796093022208000 (-42)))
      with (binary_round_aux prec emax true (Z.pos (m * 8796093022208000))
              (e + -42) loc_Exact).
    rewrite binary_round_aux_opp.
    destruct (binary_round_aux_below (m * 8796093022208000) (e + -42)
                8796093022208001 (-43)) as [Hlt2 Hle2];
      [done|lia|lia| |].
    { by apply (times_2000_below m e 4503599627370497). }
    destruct (SFleb_zero_cases _ Hle2) as [[s Hz]|[Hz|(m' & e' & Hz)]];
      rewrite Hz in *.
    + by destruct s.
    + done.
    + apply SFltb_finite_pos_inv in Hlt2. split; [|done].
      unfold SFleb, SFcompare, SFopp. cbn [negb].
      destruct Hlt2 as [He'|[-> Hm']].
      * by rewrite (proj2 (Z.compare_gt_iff (-43) e')) by lia.
      * rewrite Z.compare_refl. rewrite Pos.compare_cont_spec. cbn [Pos.switch_Eq].
        destruct (Pos.compare_spec 8796093022208000 m') as [?|?|?]; try done. lia.
Qed.

Local Close Scope Z_scope.

(** [(Math.random() - 0.5) * 2000] for a draw in [0, 1). *)
Lemma star_coordinate_in_range (r : float) :
  (0 <=? r)%float = true → (r <? 1)%float = true →
  (-1000 <=? (r - 0.5) * 2000)%float = true
  ∧ ((r - 0.5) * 2000 <? 1000)%float = true.
Proof.
  rewrite !leb_spec, !ltb_spec, !mul_spec.
  pose proof (Prim2SF_valid r) as Hvr.
  pose proof (Prim2SF_valid (r - 0.5)) as Hvy.
  rewrite sub_spec in *.
  change (Prim2SF 0) with (S754_zero false).
  change (Prim2SF 1) with (S754_finite false 4503599627370496 (-52)).
  change (Prim2SF 0.5) with (S754_finite false 4503599627370496 (-53)) in *.
  change (Prim2SF 2000) with (S754_finite false 8796093022208000 (-42)).
  change (Prim2SF 1000) with (S754_finite false 8796093022208000 (-43)).
  change (Prim2SF (-1000)) with (S754_finite true 8796093022208000 (-43)).
  destruct (Prim2SF r) as [s|s| |s m e]; intros H0 H1.
  - by destruct s.
  - by destruct s.
  - done.
  - destruct s; [done|].
    destruct (below_one_exponent m e Hvr H1) as [Hm He]. clear H0 H1 Hvr.
    destruct (sub_half_cases m e Hm He) as [Hy|[(D & Hy & HD)|(D & Hy & HD)]];
      rewrite Hy in *; clear Hy.
    + done.
    + destruct (binary_round_below D e 4503599627370496 (-53)) as [Hlt Hle];
        [done|lia|lia|done|].
      by apply times_2000_nonneg.
    + destruct (binary_round_below D e 4503599627370497 (-53)) as [Hlt Hle];
        [done|lia|lia|done|].
      apply times_2000_nonpos; [|done..].
      by destruct (binary_round prec emax false D e).
Qed.

End StarRange.

Section StarField.

Context `{Host}.

(** X21. When [Math.random()] returns numbers in [0, 1), every number the
    loop of lines 60-66 pushes onto the array [starPositions] lies in
    [-1000, 1000): the binary64 value of [(Math.random() - 0.5) * 2000]
    never leaves that range.  (The binary32 copy in the star field's
    attribute can hold 1000 itself, see [star_buffer_rounds_to_binary32].) *)
Theorem star_coordinates_lie_in_the_cube (c : Closure) :
  (∀ n, (0 <=? Math_random n)%float = true ∧ (Math_random n <? 1)%float = true) →
  Forall (λ v, (-1000 <=? v)%float = true ∧ (v <? 1000)%float = true)
    (starPositions c).
Proof.
  intros Hrandom. unfold starPositions. generalize (stars_from c). generalize starCount.
  intros count from. apply Forall_lookup. intros j v Hj.
  assert (Hlt : j < 3 * count).
  { apply lookup_lt_Some in Hj. by rewrite starPositions_from_length in Hj. }
  rewrite starPositions_from_lookup in Hj by exact Hlt.
  injection Hj as <-. apply star_coordinate_in_range; apply Hrandom.
Qed.

End StarField.

(** The theorem at the array of the first scene of the session. *)
Lemma star_coordinates_lie_in_the_cube_witness :
  Forall (λ v, (-1000 <=? v)%float = true ∧ (v <? 1000)%float = true)
    (starPositions Demo.built).
Proof.
  apply (@star_coordinates_lie_in_the_cube Mock.host Demo.built).
  apply Mock_random_in_unit_interval.
Defined.
